(** * Audio-to-video generation pipeline: segmentation, analysis, media jobs

    A shallow embedding of the browser-side pipeline (audioAnalysis.ts,
    geminiAnalysis.ts, lumaGeneration.ts), of the handlers of the pages
    (App.tsx) and of the two relays (vite.config.ts, server/api.ts).

    Conventions of the embedding.
    - A finite JavaScript [number] is the rational it denotes ([Q]).  Where
      the program computes with inexact doubles (the segment loop, the
      percentage of the degraded-quality warning), the result of each
      operation is rounded to the nearest double by [Double.round]; [NaN],
      the infinities and the sign of zero are outside the model.  Array
      lengths and indices are [nat].
    - A value read out of a JSON document is a [Json]; a value that may be
      [undefined] is an [option Json].
    - [async] code is written in the monad [Eff]: a computation yields the
      list of effects it performed (requests, timers, console output) and
      either returns a value or throws.
    - The outside world is passed in explicitly: the replies of the text
      model and of the generation service are arguments, so a statement
      quantified over them holds for every behaviour of those services. *)

From Stdlib Require Import ZArith QArith Qabs Qround Qminmax Lia Lqa.
From Stdlib Require Import List Sorted String Ascii Bool DecimalString.
From Equations Require Import Equations.
Import ListNotations.

Open Scope string_scope.
Open Scope list_scope.

(* ===================================================================== *)
(** ** JavaScript values, exceptions and effects *)
(* ===================================================================== *)

Module Js.

(** The result of [JSON.parse] / [response.json()]. *)
#[warnings="-register-all"]
Inductive Json : Type :=
| JNull
| JBool (b : bool)
| JNum (q : Q)
| JStr (s : string)
| JArr (items : list Json)
| JObj (members : list (string * Json)).

(** A JavaScript value that may be [undefined]. *)
Definition Value : Type := option Json.

Definition undefined : Value := None.

(** A thrown value: an [Error] with its [message], or something that is
    not an instance of [Error]. *)
Inductive Thrown : Type :=
| JsError (message : string)
| NonError.

Inductive Result (A : Type) : Type :=
| Returned (a : A)
| Threw (e : Thrown).
Arguments Returned {A} a.
Arguments Threw {A} e.

(** ToBoolean. *)
Definition truthy (v : Value) : bool :=
  match v with
  | None => false
  | Some JNull => false
  | Some (JBool b) => b
  | Some (JNum q) => negb (Qeq_bool q 0)
  | Some (JStr s) => negb (String.eqb s "")
  | Some (JArr _) => true
  | Some (JObj _) => true
  end.

(** [a || b] *)
Definition or_else (a b : Value) : Value := if truthy a then a else b.

(** Own-property lookup in an object literal that came out of the JSON
    parser: when a key occurs twice the later member wins. *)
Fixpoint lookup_last (k : string) (ms : list (string * Json)) : Value :=
  match ms with
  | [] => None
  | (k', v) :: rest =>
      match lookup_last k rest with
      | Some v' => Some v'
      | None => if String.eqb k k' then Some v else None
      end
  end.

(** The message of the [TypeError] raised by a property read on [null]. *)
Definition nullReadMessage : string := "Cannot read properties of null".

(** [v.k]: a property read.  Reading from [null] or [undefined] throws a
    [TypeError]; a primitive or an array has none of the keys used in the
    program, so the read gives [undefined]. *)
Definition prop (v : Value) (k : string) : Result Value :=
  match v with
  | None => Threw (JsError nullReadMessage)
  | Some JNull => Threw (JsError nullReadMessage)
  | Some (JObj ms) => Returned (lookup_last k ms)
  | Some _ => Returned None
  end.

(** [v?.k]: optional chaining. *)
Definition prop_opt (v : Value) (k : string) : Value :=
  match v with
  | Some (JObj ms) => lookup_last k ms
  | _ => None
  end.

(** [v === s] for a string literal [s]. *)
Definition strict_eq_str (v : Value) (s : string) : bool :=
  match v with
  | Some (JStr s') => String.eqb s' s
  | _ => false
  end.

(** [error instanceof Error ? error.message : fallback] *)
Definition messageOr (e : Thrown) (fallback : string) : string :=
  match e with
  | JsError m => m
  | NonError => fallback
  end.

(** Decimal rendering of a number inside a template literal. *)
Definition nat_to_string (n : nat) : string :=
  NilZero.string_of_uint (Nat.to_uint n).

Definition Z_to_string (z : Z) : string :=
  NilZero.string_of_int (Z.to_int z).

(** [Math.floor], [Math.round] (half-way cases round up) and the
    remainder [a % b] of two positive numbers. *)
Definition Math_floor (x : Q) : Z := Qfloor x.
Definition Math_round (x : Q) : Z := Qfloor (x + (1 # 2)).
Definition rem (a b : Q) : Q := a - b * inject_Z (Qfloor (a / b)).

End Js.
Export Js.

(* ===================================================================== *)
(** ** Numbers: IEEE-754 doubles and integer conversions *)
(* ===================================================================== *)

(** The arithmetic of JavaScript numbers on finite values: the exact result
    of an operation, rounded to the nearest double (53 significant bits,
    exponents from -1074 on), ties to the even significand.  Overflow to an
    infinity is not modelled. *)
Module Double.

(** [2^e] *)
Definition pow2 (e : Z) : Q :=
  if (0 <=? e)%Z then inject_Z (2 ^ e) else 1 / inject_Z (2 ^ (- e)).

(** The exponent [e] with [2^e <= a < 2^(e+1)], for [a > 0]. *)
Definition binade (a : Q) : Z :=
  let e0 := (Z.log2 (Qnum a) - Z.log2 (Zpos (Qden a)))%Z in
  if Qle_bool (pow2 e0) a then e0 else (e0 - 1)%Z.

(** The nearest integer, the even one of two that are equally near. *)
Definition nearestEven (r : Q) : Z :=
  let f := Qfloor r in
  match Qcompare (r - inject_Z f) (1 # 2) with
  | Lt => f
  | Gt => (f + 1)%Z
  | Eq => if Z.even f then f else (f + 1)%Z
  end.

(** The double nearest to [x]. *)
Definition round (x : Q) : Q :=
  let x := Qred x in
  if Qeq_bool x 0 then 0
  else
    let a := Qabs x in
    let q := Z.max (binade a - 52) (-1074) in
    let m := inject_Z (nearestEven (a / pow2 q)) * pow2 q in
    Qred (if Qlt_le_dec x 0 then - m else m).

(** [a + b], [a - b], [a * b] and [a / b] on doubles. *)
Definition add (a b : Q) : Q := round (a + b).
Definition sub (a b : Q) : Q := round (a - b).
Definition mul (a b : Q) : Q := round (a * b).
Definition div (a b : Q) : Q := round (a / b).

End Double.

(** Truncation towards zero, and the conversion to an unsigned integer of
    [bits] bits that [DataView] setters, typed arrays and Web IDL
    [unsigned long] arguments apply to a number: truncate, then reduce
    modulo [2^bits]. *)
Definition Math_trunc (x : Q) : Z :=
  if Qlt_le_dec x 0 then Qceiling x else Qfloor x.

Definition ToUint (bits : Z) (x : Q) : Z := (Math_trunc x mod 2 ^ bits)%Z.

(** The request sent to the text model.  The prompt is a fixed template
    filled with the data recorded here. *)
Inductive Prompt : Type :=
| AnalysisPrompt (startTime endTime : Q)
| PromptGenerationPrompt (startTime endTime : Q) (analysis : Json).

(** [console.log], [console.warn], [console.error]. *)
Inductive Level : Type := LvLog | LvWarn | LvError.

Inductive Method : Type := GET | POST.

(** The two request targets of the browser code: the creation endpoint
    [/api/luma] and the status endpoint [/api/luma/${id}]. *)
Inductive Url : Type :=
| UrlCreate
| UrlStatus (id : Value).

Record Request : Type := mkRequest {
  req_method : Method;
  req_url : Url;
  req_authorization : string;
  req_body : Value
}.

(** Effects a computation performs, in program order.  [EvConcurrent]
    stands for tasks that ran concurrently ([Promise.all]): each task's own
    effects are kept in its own order, their interleaving is left open.
    Console events keep the leading text and, if one is logged, the error;
    other logged data is not recorded. *)
#[warnings="-register-all"]
Inductive Event : Type :=
| EvFetch (r : Request)
| EvSleep (ms : Z)
| EvConsole (lvl : Level) (text : string) (err : option Thrown)
| EvProgress (done total : nat)
| EvModel (p : Prompt)
| EvConcurrent (tasks : list (list Event)).

(** [Eff A]: the effects performed, then the outcome. *)
Definition Eff (A : Type) : Type := (list Event * Result A)%type.

Definition ret {A} (a : A) : Eff A := ([], Returned a).
Definition throw {A} (e : Thrown) : Eff A := ([], Threw e).
Definition emit (ev : Event) : Eff unit := ([ev], Returned tt).
Definition lift {A} (r : Result A) : Eff A := ([], r).

Definition bind {A B} (m : Eff A) (k : A -> Eff B) : Eff B :=
  match snd m with
  | Returned a => let n := k a in (fst m ++ fst n, snd n)
  | Threw e => (fst m, Threw e)
  end.

(** [try { m } catch (e) { h e }] *)
Definition try_catch {A} (m : Eff A) (h : Thrown -> Eff A) : Eff A :=
  match snd m with
  | Returned a => (fst m, Returned a)
  | Threw e => let n := h e in (fst m ++ fst n, snd n)
  end.

Declare Scope eff_scope.
Delimit Scope eff_scope with eff.
Notation "x <- m ;; k" := (bind m (fun x => k))
  (at level 61, m at next level, right associativity) : eff_scope.
Notation "m ;;; k" := (bind m (fun _ => k))
  (at level 61, right associativity) : eff_scope.
Open Scope eff_scope.

Definition trace {A} (m : Eff A) : list Event := fst m.
Definition outcome {A} (m : Eff A) : Result A := snd m.

(* ===================================================================== *)
(** ** audioAnalysis.ts: segmentation *)
(* ===================================================================== *)

(** The decoded [AudioBuffer], as far as the segmenter reads it. *)
Module AudioBuffer.
Record t : Type := mk {
  duration : Q;
  sampleRate : Q;
  numberOfChannels : nat
}.

(** The buffer [decodeAudioData] yields for audio of [length] frames per
    channel: its [duration] is the double [length / sampleRate]. *)
Definition decoded (length : Z) (sampleRate : Q) (numberOfChannels : nat)
    : t :=
  mk (Double.div (inject_Z length) sampleRate) sampleRate numberOfChannels.
End AudioBuffer.

(** What the WAV blob of a segment encodes: [length] frames per channel,
    frame [i] of the blob being frame [startIndex + i] of the decoded
    buffer. *)
Module Blob.
Record t : Type := mk {
  startIndex : Z;
  length : Z;
  channels : nat;
  rate : Q
}.
End Blob.

Module AudioSegment.
Record t : Type := mk {
  startTime : Q;
  endTime : Q;
  blob : Blob.t
}.
End AudioSegment.

(** [Math.min] *)
Definition Math_min (a b : Q) : Q := Qmin a b.

(** [audioContext.createBuffer(numberOfChannels, length, sampleRate)]: the
    number of frames of the new buffer.  [length] is converted to an
    [unsigned long], and a buffer of no frames is refused with a
    [NotSupportedError] (here [notSupported]).  The channel count and the
    sample rate passed are those of a buffer the same context decoded, which
    the context accepts. *)
Definition createBuffer (notSupported : Thrown) (numberOfChannels : nat)
    (length : Q) (sampleRate : Q) : Result Z :=
  let frames := ToUint 32 length in
  if (frames =? 0)%Z then Threw notSupported else Returned frames.

(** The body of the [for] loop of [splitAudioIntoSegments]:
    [for (startTime = ...; startTime < totalDuration; startTime += segmentDuration)].
    The arithmetic is that of doubles.  The copy loop writes the frames
    [0 .. segmentBuffer.length - 1] of the new buffer (a write past its end
    does nothing), rendering through the [OfflineAudioContext] keeps them,
    and [bufferToWav] encodes them.  [fuel] bounds the number of
    iterations; [None] means the bound was hit before the loop condition
    became false.  An exception thrown in the loop rejects the promise. *)
Fixpoint splitLoop (fuel : nat) (notSupported : Thrown)
    (audioBuffer : AudioBuffer.t) (segmentDuration : Q) (startTime : Q)
    (segments : list AudioSegment.t)
    : option (Result (list AudioSegment.t)) :=
  match fuel with
  | O => None
  | S fuel' =>
      let totalDuration := AudioBuffer.duration audioBuffer in
      if Qlt_le_dec startTime totalDuration then
        let endTime :=
          Math_min (Double.add startTime segmentDuration) totalDuration in
        let segmentLength :=
          Double.mul (Double.sub endTime startTime)
            (AudioBuffer.sampleRate audioBuffer) in
        match
          createBuffer notSupported (AudioBuffer.numberOfChannels audioBuffer)
            segmentLength (AudioBuffer.sampleRate audioBuffer)
        with
        | Threw error => Some (Threw error)
        | Returned length =>
            let startIndex :=
              Math_floor
                (Double.mul startTime (AudioBuffer.sampleRate audioBuffer)) in
            let wavBlob :=
              Blob.mk startIndex length
                (AudioBuffer.numberOfChannels audioBuffer)
                (AudioBuffer.sampleRate audioBuffer) in
            splitLoop fuel' notSupported audioBuffer segmentDuration
              (Double.add startTime segmentDuration)
              (segments ++ [AudioSegment.mk startTime endTime wavBlob])
        end
      else Some (Returned segments)
  end.

(** [splitAudioIntoSegments], after the file has been read and decoded. *)
Definition splitAudioIntoSegments (fuel : nat) (notSupported : Thrown)
    (audioBuffer : AudioBuffer.t) (segmentDuration : Q)
    : option (Result (list AudioSegment.t)) :=
  splitLoop fuel notSupported audioBuffer segmentDuration 0 [].

(** The window of a segment contains the instant [t]. *)
Definition inWindow (s : AudioSegment.t) (t : Q) : Prop :=
  AudioSegment.startTime s <= t /\ t < AudioSegment.endTime s.

Definition segLength (s : AudioSegment.t) : Q :=
  AudioSegment.endTime s - AudioSegment.startTime s.

(** [ceil(T / D)] as a number of segments. *)
Definition segmentCount (T D : Q) : nat := Z.to_nat (Qceiling (T / D)).

(** Number of iterations the loop still makes when its variable is [s]. *)
Definition remainingIterations (T D s : Q) : nat :=
  Z.to_nat (Qceiling ((T - s) / D)).

(** The length the last segment must have: [T mod D], or [D] when [T] is a
    multiple of [D]. *)
Definition lastLength (T D : Q) : Q :=
  if Qeq_bool (rem T D) 0 then D else rem T D.

(** The segment at position [i] when the audio is cut every [d] whole
    seconds at [r] frames per second into [n] segments, the last one
    holding [lastFrames] frames: it starts at second [i * d], at frame
    [i * d * r], and every segment but the last holds [d * r] frames. *)
Definition wholeSegment (audioBuffer : AudioBuffer.t) (d r : Z) (n : nat)
    (lastFrames : Z) (i : nat) : AudioSegment.t :=
  AudioSegment.mk
    (inject_Z (Z.of_nat i * d))
    (Qmin (inject_Z (Z.of_nat (S i) * d)) (AudioBuffer.duration audioBuffer))
    (Blob.mk (Z.of_nat i * (d * r))
       (if (S i <? n)%nat then (d * r)%Z else lastFrames)
       (AudioBuffer.numberOfChannels audioBuffer)
       (AudioBuffer.sampleRate audioBuffer)).

(* ===================================================================== *)
(** ** audioAnalysis.ts: segment analysis *)
(* ===================================================================== *)

Module SegmentAnalysis.
Record t : Type := mk {
  startTime : Q;
  endTime : Q;
  story : Value;
  visual : Value;
  emotion : Value;
  imagePrompt : Value
}.
End SegmentAnalysis.

(** [text.match(/\{[\s\S]*\}/)]: the span from the first opening brace to
    the last closing brace after it, if there is one. *)
Fixpoint afterFirstOpen (s : string) : option string :=
  match s with
  | EmptyString => None
  | String c rest =>
      if Ascii.eqb c "{" then Some rest else afterFirstOpen rest
  end.

Fixpoint uptoLastClose (s : string) : option string :=
  match s with
  | EmptyString => None
  | String c rest =>
      match uptoLastClose rest with
      | Some span => Some (String c span)
      | None => if Ascii.eqb c "}" then Some (String c EmptyString) else None
      end
  end.

Definition matchBraces (text : string) : option string :=
  match afterFirstOpen text with
  | None => None
  | Some rest =>
      match uptoLastClose rest with
      | None => None
      | Some span => Some (String "{" span)
      end
  end.

Definition jsonNotFound : string :=
  "JSON形式の応答が見つかりませんでした".
Definition infoMissing : string :=
  "応答に必要な情報が含まれていません".
Definition parseErrorLabel : string :=
  "Gemini応答のパースエラー:".
Definition analysisFailed : string :=
  "音楽の分析に失敗しました。もう一度お試しください。".

(** [promptText.match(/\{[\s\S]*\}/)?.[0] || '{}']: the text handed to the
    second [JSON.parse]. *)
Definition promptSource (promptText : string) : string :=
  match matchBraces promptText with
  | Some span => if String.eqb span "" then "{}" else span
  | None => "{}"
  end.

Section Analyzer.

(** [JSON.parse]: the parsed document, or the [SyntaxError] it throws. *)
Variable JSON_parse : string -> Result Json.

(** [analyzeAudioSegment].  [reply1] and [reply2] are what the two
    [model.generateContent(...)] / [response.text()] sequences yield: the
    response text, or the error the call throws.  The second one is only
    consulted when the program makes the second call. *)
Definition analyzeAudioSegment (reply1 reply2 : Result string)
    (segment : AudioSegment.t) : Eff SegmentAnalysis.t :=
  let startTime := AudioSegment.startTime segment in
  let endTime := AudioSegment.endTime segment in
  emit (EvModel (AnalysisPrompt startTime endTime)) ;;;
  text <- lift reply1 ;;
  try_catch
    (match matchBraces text with
     | None => throw (JsError jsonNotFound)
     | Some jsonMatch =>
         analysis <- lift (JSON_parse jsonMatch) ;;
         story <- lift (prop (Some analysis) "story") ;;
         visual <- (if truthy story
                    then lift (prop (Some analysis) "visual")
                    else throw (JsError infoMissing)) ;;
         emotion <- (if truthy visual
                     then lift (prop (Some analysis) "emotion")
                     else throw (JsError infoMissing)) ;;
         (if truthy emotion then ret tt else throw (JsError infoMissing)) ;;;
         emit (EvModel (PromptGenerationPrompt startTime endTime analysis)) ;;;
         promptText <- lift reply2 ;;
         promptJson <- lift (JSON_parse (promptSource promptText)) ;;
         imagePrompt <- lift (prop (Some promptJson) "imagePrompt") ;;
         ret (SegmentAnalysis.mk startTime endTime story visual emotion
                (or_else imagePrompt (Some (JStr ""))))
     end)
    (fun error =>
       emit (EvConsole LvError parseErrorLabel (Some error)) ;;;
       throw (JsError analysisFailed)).

End Analyzer.

(** A parser for a fragment of JSON (objects, strings without escapes,
    [true], [false], [null], unsigned integers), enough to run the analyzer
    on concrete responses. *)
Module MiniJson.

Definition quote : ascii := ascii_of_nat 34.
Definition backslash : ascii := ascii_of_nat 92.

Definition isWs (c : ascii) : bool :=
  let n := nat_of_ascii c in
  Nat.eqb n 32 || Nat.eqb n 10 || Nat.eqb n 13 || Nat.eqb n 9.

Definition isDigit (c : ascii) : bool :=
  let n := nat_of_ascii c in Nat.leb 48 n && Nat.leb n 57.

Fixpoint skipWs (s : string) : string :=
  match s with
  | String c rest => if isWs c then skipWs rest else s
  | EmptyString => s
  end.

(** The characters up to the closing quote, and what follows it. *)
Fixpoint stringBody (s : string) : option (string * string) :=
  match s with
  | EmptyString => None
  | String c rest =>
      if Ascii.eqb c quote then Some (EmptyString, rest)
      else if Ascii.eqb c backslash then None
      else if Nat.ltb (nat_of_ascii c) 32 then None
      else match stringBody rest with
           | Some (body, after) => Some (String c body, after)
           | None => None
           end
  end.

Fixpoint digits (s : string) (acc : Z) : Z * string :=
  match s with
  | String c rest =>
      if isDigit c
      then digits rest (10 * acc + Z.of_nat (nat_of_ascii c - 48))
      else (acc, s)
  | EmptyString => (acc, s)
  end.

Definition literal (word : string) (v : Json) (s : string)
    : option (Json * string) :=
  if String.prefix word s
  then Some (v, String.substring (String.length word)
                  (String.length s - String.length word) s)
  else None.

Fixpoint value (fuel : nat) (s : string) : option (Json * string) :=
  match fuel with
  | O => None
  | S fuel' =>
      match skipWs s with
      | EmptyString => None
      | String c rest =>
          if Ascii.eqb c quote then
            match stringBody rest with
            | Some (body, after) => Some (JStr body, after)
            | None => None
            end
          else if Ascii.eqb c "{" then
            match skipWs rest with
            | String "}" after => Some (JObj [], after)
            | inner =>
                match members fuel' inner with
                | Some (ms, after) => Some (JObj ms, after)
                | None => None
                end
            end
          else if isDigit c then
            let '(z, after) := digits (String c rest) 0 in
            Some (JNum (inject_Z z), after)
          else if Ascii.eqb c "t" then literal "true" (JBool true) (String c rest)
          else if Ascii.eqb c "f" then literal "false" (JBool false) (String c rest)
          else if Ascii.eqb c "n" then literal "null" JNull (String c rest)
          else None
      end
  end
with members (fuel : nat) (s : string)
    : option (list (string * Json) * string) :=
  match fuel with
  | O => None
  | S fuel' =>
      match s with
      | EmptyString => None
      | String c rest =>
          if Ascii.eqb c quote then
            match stringBody rest with
            | None => None
            | Some (key, after) =>
                match skipWs after with
                | String ":" after1 =>
                    match value fuel' after1 with
                    | None => None
                    | Some (v, after2) =>
                        match skipWs after2 with
                        | String "," after3 =>
                            match members fuel' (skipWs after3) with
                            | Some (ms, after4) => Some ((key, v) :: ms, after4)
                            | None => None
                            end
                        | String "}" after3 => Some ([(key, v)], after3)
                        | _ => None
                        end
                    end
                | _ => None
                end
            end
          else None
      end
  end.

Definition syntaxError : Thrown := JsError "Unexpected token in JSON".

Definition parse (s : string) : Result Json :=
  match value (S (String.length s)) s with
  | Some (v, after) =>
      match skipWs after with
      | EmptyString => Returned v
      | _ => Threw syntaxError
      end
  | None => Threw syntaxError
  end.

(** A double-quoted string literal, as it appears in a JSON text. *)
Definition quoted (s : string) : string :=
  (String quote s ++ String quote EmptyString)%string.

End MiniJson.

(** The ways the first response can be malformed, each with the error the
    [try] block raises for it. *)
Inductive Malformed (JSON_parse : string -> Result Json) (text : string)
    : Thrown -> Prop :=
| NoJsonFound :
    matchBraces text = None ->
    Malformed JSON_parse text (JsError jsonNotFound)
| NotParseable (span : string) (e : Thrown) :
    matchBraces text = Some span ->
    JSON_parse span = Threw e ->
    Malformed JSON_parse text e
| FieldMissing (span : string) (ms : list (string * Json)) :
    matchBraces text = Some span ->
    JSON_parse span = Returned (JObj ms) ->
    truthy (lookup_last "story" ms) = false \/
    truthy (lookup_last "visual" ms) = false \/
    truthy (lookup_last "emotion" ms) = false ->
    Malformed JSON_parse text (JsError infoMissing).

(** Concrete responses of the text model. *)
Module Demo.
Import MiniJson.

Definition member (k v : string) : string :=
  (quoted k ++ ": " ++ quoted v)%string.

(** A well-formed first response, wrapped in prose. *)
Definition analysisText : string :=
  ("Result: {" ++ member "story" "a night train" ++ ", "
     ++ member "visual" "deep blue" ++ ", "
     ++ member "emotion" "longing" ++ "}")%string.

(** A first response whose object has no [emotion]. *)
Definition noEmotionText : string :=
  ("{" ++ member "story" "a night train" ++ ", "
     ++ member "visual" "deep blue" ++ "}")%string.

Definition segment : AudioSegment.t :=
  AudioSegment.mk 0 30 (Blob.mk 0 (30 * 44100) 2 44100).

Definition analysisMembers : list (string * Json) :=
  [("story", JStr "a night train"); ("visual", JStr "deep blue");
   ("emotion", JStr "longing")].
End Demo.

(* ===================================================================== *)
(** ** lumaGeneration.ts: jobs at the generation service *)
(* ===================================================================== *)

Inductive State : Type := pending | processing | completed | failed.

Definition State_eqb (a b : State) : bool :=
  match a, b with
  | pending, pending | processing, processing
  | completed, completed | failed, failed => true
  | _, _ => false
  end.

Module LumaResponse.
Record t : Type := mk {
  id : Value;
  state : State;
  imageUrl : Value;
  videoUrl : Value;
  failure_reason : Value
}.
End LumaResponse.

Module ImageGenerationOptions.
Record t : Type := mk {
  prompt : Value;
  aspect_ratio : option string;
  model : option string
}.
End ImageGenerationOptions.

Module VideoGenerationOptions.
Record t : Type := mk {
  prompt : string;
  keyframes : list (string * Json);
  model : option string;
  audioUrl : option string
}.
End VideoGenerationOptions.

Module GeneratedMedia.
Record t : Type := mk {
  segmentIndex : nat;
  startTime : Q;
  endTime : Q;
  imageResponse : LumaResponse.t
}.
End GeneratedMedia.

(** What [fetch] resolves to: status line and the outcome of
    [response.json()]. *)
Module Response.
Record t : Type := mk {
  status : nat;
  statusText : string;
  json : Result Json
}.
Definition ok (r : t) : bool :=
  Nat.leb 200 (status r) && Nat.leb (status r) 299.
End Response.

(** The service as one job sees it: the reply to the creation request and
    the reply to each status query, numbered from 0.  A reply is a response
    or the rejection of [fetch]. *)
Module Service.
Record t : Type := mk {
  create : Result Response.t;
  poll : nat -> Result Response.t
}.
End Service.

(** [s || d] for an optional string. *)
Definition str_or (s : option string) (d : string) : string :=
  match s with
  | Some v => if String.eqb v "" then d else v
  | None => d
  end.

(** [`${s}`] for an optional string. *)
Definition template (s : option string) : string :=
  match s with
  | Some v => v
  | None => "undefined"
  end.

(** A member of an object literal; [JSON.stringify] drops it when the value
    is [undefined]. *)
Definition member (k : string) (v : Value) : list (string * Json) :=
  match v with
  | Some j => [(k, j)]
  | None => []
  end.

Definition maxAttempts : nat := 30.
Definition pollingInterval : Z := 2000.

Definition insufficientCredits : string :=
  "Luma APIのクレジットが不足しています。APIキーの利用枠を確認してください。".
Definition statusFetchFailed : string := "生成状態の取得に失敗しました".
Definition imageRequestFailed : string := "画像生成リクエストに失敗しました".
Definition videoRequestFailed : string := "動画生成リクエストに失敗しました".
Definition timedOut : string := "生成がタイムアウトしました".
Definition unknownError : string := "不明なエラー".
Definition noValidImages : string :=
  "有効な画像がありません。すべての画像生成に失敗しました。".
Definition defaultPrompt : string :=
  "Create a smooth video transition between these images, maintaining the visual style and atmosphere".

(** [`${message} (${response.status}: ${response.statusText})`] *)
Definition withStatus (message : string) (response : Response.t) : string :=
  (message ++ " (" ++ nat_to_string (Response.status response) ++ ": "
     ++ Response.statusText response ++ ")")%string.

(** The block guarded by [if (!response.ok)], up to the value of
    [errorMessage]; it occurs in [pollGenerationStatus], [generateLumaImage]
    and [generateLumaVideo] with a different initial [errorMessage] each. *)
Definition errorMessageOf (errorMessage : string) (response : Response.t)
    : Eff Value :=
  try_catch
    (errorData <- lift (Response.json response) ;;
     emit (EvConsole LvError "APIエラーレスポンス:" None) ;;;
     detail <- lift (prop (Some errorData) "detail") ;;
     if strict_eq_str detail "Insufficient credits"
     then ret (Some (JStr insufficientCredits))
     else
       message <- lift (prop (Some errorData) "message") ;;
       ret (or_else detail (or_else message (Some (JStr errorMessage)))))
    (fun jsonError => ret (Some (JStr (withStatus errorMessage response)))).

Section Luma.

(** [import.meta.env], as the client bundle sees it. *)
Variable import_meta_env : string -> option string.

Definition authorization : string :=
  ("Bearer " ++ template (import_meta_env "VITE_LUMA_API_KEY"))%string.

(** One pass through the body of the [while] loop of
    [pollGenerationStatus]: [Some r] when the body executes [return r],
    [None] when it falls through to the delay. *)
Definition pollOnce (service : Service.t) (id : Value) (attempts : nat)
    : Eff (option LumaResponse.t) :=
  emit (EvFetch (mkRequest GET (UrlStatus id) authorization None)) ;;;
  response <- lift (Service.poll service attempts) ;;
  if negb (Response.ok response) then
    errorMessage <- errorMessageOf statusFetchFailed response ;;
    ret (Some (LumaResponse.mk id failed None None errorMessage))
  else
    status <- lift (Response.json response) ;;
    emit (EvConsole LvLog "Generation status:" None) ;;;
    st <- lift (prop (Some status) "state") ;;
    if strict_eq_str st "completed" then
      sid <- lift (prop (Some status) "id") ;;
      assets <- lift (prop (Some status) "assets") ;;
      ret (Some (LumaResponse.mk sid completed
                   (or_else (prop_opt assets "video_0_thumb")
                      (prop_opt assets "image"))
                   (prop_opt assets "video")
                   None))
    else if strict_eq_str st "failed" then
      sid <- lift (prop (Some status) "id") ;;
      reason <- lift (prop (Some status) "failure_reason") ;;
      ret (Some (LumaResponse.mk sid failed None None reason))
    else ret None.

#[local] Obligation Tactic := idtac.

(** [pollGenerationStatus]: the loop
    [while (!completed && attempts < maxAttempts)], then the timeout. *)
Equations pollLoop (service : Service.t) (id : Value) (attempts : nat)
    : Eff LumaResponse.t by wf (maxAttempts - attempts)%nat lt :=
  pollLoop service id attempts with lt_dec attempts maxAttempts => {
    | left more :=
        r <- pollOnce service id attempts ;;
        match r with
        | Some response => ret response
        | None =>
            emit (EvSleep pollingInterval) ;;;
            pollLoop service id (S attempts)
        end
    | right _ := throw (JsError timedOut) }.
Next Obligation. intros. lia. Qed.

Definition pollGenerationStatus (service : Service.t) (id : Value)
    : Eff LumaResponse.t :=
  pollLoop service id 0.

(** [generateLumaImage] *)
Definition generateLumaImage (service : Service.t)
    (options : ImageGenerationOptions.t) : Eff LumaResponse.t :=
  try_catch
    (emit (EvFetch (mkRequest POST UrlCreate authorization
             (Some (JObj
                (member "prompt" (ImageGenerationOptions.prompt options)
                 ++ [("aspect_ratio",
                      JStr (str_or (ImageGenerationOptions.aspect_ratio options) "16:9"));
                     ("model",
                      JStr (str_or (ImageGenerationOptions.model options) "ray-2"))]))))) ;;;
     response <- lift (Service.create service) ;;
     if negb (Response.ok response) then
       errorMessage <- errorMessageOf imageRequestFailed response ;;
       ret (LumaResponse.mk (Some (JStr "error")) failed None None errorMessage)
     else
       generation <- lift (Response.json response) ;;
       emit (EvConsole LvLog "Image generation response:" None) ;;;
       gid <- lift (prop (Some generation) "id") ;;
       pollGenerationStatus service gid)
    (fun error =>
       emit (EvConsole LvError "画像生成エラー:" (Some error)) ;;;
       ret (LumaResponse.mk (Some (JStr "unknown")) failed None None
              (Some (JStr (messageOr error unknownError))))).

(** [requestBody] of [generateLumaVideo]: prompt, model and keyframes, and
    the audio reference when [options.audioUrl] is truthy. *)
Definition requestBody (options : VideoGenerationOptions.t)
    : list (string * Json) :=
  [("prompt", JStr (VideoGenerationOptions.prompt options));
   ("model", JStr (str_or (VideoGenerationOptions.model options) "ray-2"));
   ("keyframes", JObj (VideoGenerationOptions.keyframes options))]
  ++ match VideoGenerationOptions.audioUrl options with
     | Some url =>
         if String.eqb url "" then []
         else [("audio", JObj [("url", JStr url)])]
     | None => []
     end.

(** [generateLumaVideo] *)
Definition generateLumaVideo (service : Service.t)
    (options : VideoGenerationOptions.t) : Eff LumaResponse.t :=
  try_catch
    (emit (EvConsole LvLog "Video generation request:" None) ;;;
     emit (EvFetch (mkRequest POST UrlCreate authorization
             (Some (JObj (requestBody options))))) ;;;
     response <- lift (Service.create service) ;;
     if negb (Response.ok response) then
       errorMessage <- errorMessageOf videoRequestFailed response ;;
       ret (LumaResponse.mk (Some (JStr "error")) failed None None errorMessage)
     else
       generation <- lift (Response.json response) ;;
       emit (EvConsole LvLog "Video generation response:" None) ;;;
       gid <- lift (prop (Some generation) "id") ;;
       pollGenerationStatus service gid)
    (fun error =>
       emit (EvConsole LvError "動画生成エラー:" (Some error)) ;;;
       ret (LumaResponse.mk (Some (JStr "unknown")) failed None None
              (Some (JStr (messageOr error unknownError))))).

(** The options [generateImagesInParallel] passes for one analysis. *)
Definition imageOptions (analysis : SegmentAnalysis.t)
    : ImageGenerationOptions.t :=
  ImageGenerationOptions.mk (SegmentAnalysis.imagePrompt analysis)
    (Some "16:9") (Some "ray-2").

(** One element of [batchPromises]: the call of [generateLumaImage] for
    the analysis at position [index] of the batch that starts at [i], with
    its [.then] and [.catch].  Both handlers return a value, so the promise
    always fulfils: the result is the task's effects, the value it fulfils
    with, and what its [.catch] handler pushed onto [errors]. *)
Definition batchPromise (services : nat -> Service.t) (i index : nat)
    (analysis : SegmentAnalysis.t)
    : list Event * (GeneratedMedia.t * list (nat * Thrown)) :=
  let job :=
    generateLumaImage (services (i + index)%nat) (imageOptions analysis) in
  match snd job with
  | Returned response =>
      (fst job,
       (GeneratedMedia.mk (i + index) (SegmentAnalysis.startTime analysis)
          (SegmentAnalysis.endTime analysis) response, []))
  | Threw error =>
      (fst job
         ++ [EvConsole LvError
               ("セグメント " ++ nat_to_string (i + index)
                  ++ " の画像生成に失敗:")%string (Some error)],
       (GeneratedMedia.mk (i + index) (SegmentAnalysis.startTime analysis)
          (SegmentAnalysis.endTime analysis)
          (LumaResponse.mk
             (Some (JStr ("error-" ++ nat_to_string (i + index))%string))
             failed None None
             (Some (JStr (messageOr error unknownError)))),
        [((i + index)%nat, error)]))
  end.

(** [batch.map((analysis, index) => ...)] *)
Fixpoint mapIndexed {A B : Type} (f : A -> nat -> B) (index : nat)
    (l : list A) : list B :=
  match l with
  | [] => []
  | a :: rest => f a index :: mapIndexed f (S index) rest
  end.

(** [analyses.slice(from, to)] *)
Definition slice {A : Type} (l : list A) (from to : nat) : list A :=
  firstn (to - from) (skipn from l).

Definition batchSize : nat := 3.

(** [results.sort((a, b) => a.segmentIndex - b.segmentIndex)]: the sort is
    stable, so with this comparator it is insertion of each element after
    the elements that do not come later. *)
Fixpoint insertByIndex (x : GeneratedMedia.t) (l : list GeneratedMedia.t)
    : list GeneratedMedia.t :=
  match l with
  | [] => [x]
  | y :: rest =>
      if (Z.of_nat (GeneratedMedia.segmentIndex x)
            - Z.of_nat (GeneratedMedia.segmentIndex y) <=? 0)%Z
      then x :: l
      else y :: insertByIndex x rest
  end.

Fixpoint sortByIndex (l : list GeneratedMedia.t) : list GeneratedMedia.t :=
  match l with
  | [] => []
  | x :: rest => insertByIndex x (sortByIndex rest)
  end.

(** The [for] loop of [generateImagesInParallel]:
    [for (let i = ...; i < analyses.length; i += batchSize)]. *)
Equations batchLoop (services : nat -> Service.t)
    (analyses : list SegmentAnalysis.t) (onProgress : bool) (i : nat)
    (results : list GeneratedMedia.t) (errors : list (nat * Thrown))
    : Eff (list GeneratedMedia.t * list (nat * Thrown))
    by wf (List.length analyses - i)%nat lt :=
  batchLoop services analyses onProgress i results errors
    with lt_dec i (List.length analyses) => {
    | left more :=
        let batch := slice analyses i (i + batchSize) in
        let batchPromises :=
          mapIndexed (fun analysis index =>
                        batchPromise services i index analysis) 0 batch in
        let batchResults := map (fun p => fst (snd p)) batchPromises in
        emit (EvConcurrent (map fst batchPromises)) ;;;
        (if onProgress
         then emit (EvProgress (Nat.min (i + batchSize) (List.length analyses))
                      (List.length analyses))
         else ret tt) ;;;
        batchLoop services analyses onProgress (i + batchSize)
          (results ++ batchResults)
          (errors ++ List.concat (map (fun p => snd (snd p)) batchPromises))
    | right _ := ret (results, errors) }.
Next Obligation. intros. unfold batchSize. lia. Qed.

(** [generateImagesInParallel] *)
Definition generateImagesInParallel (services : nat -> Service.t)
    (analyses : list SegmentAnalysis.t) (onProgress : bool)
    : Eff (list GeneratedMedia.t) :=
  out <- batchLoop services analyses onProgress 0 [] [] ;;
  let '(results, errors) := out in
  (if Nat.ltb 0 (List.length errors)
   then emit (EvConsole LvWarn
                (nat_to_string (List.length errors)
                   ++ "個のセグメントで画像生成に失敗しました")%string None)
   else ret tt) ;;;
  ret (sortByIndex results).

(** [img.imageResponse.state === 'completed' && img.imageResponse.imageUrl] *)
Definition successful (img : GeneratedMedia.t) : bool :=
  State_eqb (LumaResponse.state (GeneratedMedia.imageResponse img)) completed
  && truthy (LumaResponse.imageUrl (GeneratedMedia.imageResponse img)).

(** The text of the degraded-quality warning; the percentage is
    [Math.round((1 - succeeded / total) * 100)], computed in doubles. *)
Definition degradedWarning (succeeded total : nat) : string :=
  ("警告: 生成された画像の"
     ++ Z_to_string
          (Math_round
             (Double.mul
                (Double.sub 1
                   (Double.div (inject_Z (Z.of_nat succeeded))
                      (inject_Z (Z.of_nat total))))
                100))
     ++ "%が失敗しました。動画の品質が低下する可能性があります。")%string.

(** The [forEach] that fills [keyframes]. *)
Definition keyframe (img : GeneratedMedia.t) (index : nat)
    : list (string * Json) :=
  match LumaResponse.imageUrl (GeneratedMedia.imageResponse img) with
  | Some url =>
      if truthy (Some url)
      then [(("frame" ++ nat_to_string index)%string,
             JObj [("type", JStr "image"); ("url", url);
                   ("timing", JNum (GeneratedMedia.startTime img))])]
      else []
  | None => []
  end.

(** [createVideoFromImages] *)
Definition createVideoFromImages (service : Service.t)
    (generatedImages : list GeneratedMedia.t) (audioUrl : option string)
    (overallPrompt : option string) : Eff LumaResponse.t :=
  let successfulImages := filter successful generatedImages in
  if Nat.eqb (List.length successfulImages) 0 then
    throw (JsError noValidImages)
  else
    (if Qlt_le_dec (inject_Z (Z.of_nat (List.length successfulImages)))
          (inject_Z (Z.of_nat (List.length generatedImages)) * (1 # 2))
     then emit (EvConsole LvWarn
                  (degradedWarning (List.length successfulImages)
                     (List.length generatedImages)) None)
     else ret tt) ;;;
    let keyframes := List.concat (mapIndexed keyframe 0 successfulImages) in
    generateLumaVideo service
      (VideoGenerationOptions.mk (str_or overallPrompt defaultPrompt)
         keyframes (Some "ray-2") audioUrl).

End Luma.

(** The response built from a status object whose state is
    ['completed']: [id] copied, asset URLs read from [assets]. *)
Definition completedJob (ms : list (string * Json)) : LumaResponse.t :=
  LumaResponse.mk (lookup_last "id" ms) completed
    (or_else (prop_opt (lookup_last "assets" ms) "video_0_thumb")
       (prop_opt (lookup_last "assets" ms) "image"))
    (prop_opt (lookup_last "assets" ms) "video")
    None.

(** The response built from a status object whose state is ['failed']. *)
Definition failedJob (ms : list (string * Json)) : LumaResponse.t :=
  LumaResponse.mk (lookup_last "id" ms) failed None None
    (lookup_last "failure_reason" ms).

(** The queries and delays of a run, in order. *)
Inductive Tick : Type := Query | Wait (ms : Z).

Fixpoint timeline (t : list Event) : list Tick :=
  match t with
  | [] => []
  | EvFetch _ :: rest => Query :: timeline rest
  | EvSleep ms :: rest => Wait ms :: timeline rest
  | _ :: rest => timeline rest
  end.

(** [k] rounds of "query, then wait for the polling interval". *)
Fixpoint rounds (k : nat) : list Tick :=
  match k with
  | O => []
  | S k' => Query :: Wait pollingInterval :: rounds k'
  end.

(** The reply to a status query says the job has not finished: a success
    response whose [state] is neither ['completed'] nor ['failed'], such as
    ['pending'] or ['processing']. *)
Definition stillRunning (reply : Result Response.t) : bool :=
  match reply with
  | Returned response =>
      Response.ok response &&
      match Response.json response with
      | Returned status =>
          match prop (Some status) "state" with
          | Returned st =>
              negb (strict_eq_str st "completed")
              && negb (strict_eq_str st "failed")
          | Threw _ => false
          end
      | Threw _ => false
      end
  | Threw _ => false
  end.

(** The reply to a status query is a success response whose body is the
    object [ms], with [state] equal to [st]. *)
Definition reports (reply : Result Response.t) (st : string)
    (ms : list (string * Json)) : Prop :=
  exists response,
    reply = Returned response /\
    Response.ok response = true /\
    Response.json response = Returned (JObj ms) /\
    lookup_last "state" ms = Some (JStr st).

(** The failure reason of a rejected request, written out by cases on the
    response body: the insufficient-credits message when [detail] says so;
    otherwise [detail], otherwise [message], when truthy; otherwise the
    generic message.  Only when the body cannot be read as a JSON value with
    properties is the status line appended to the generic message. *)
Definition specifiedReason (genericMessage : string) (response : Response.t)
    : Value :=
  match Response.json response with
  | Returned (JObj ms) =>
      if strict_eq_str (lookup_last "detail" ms) "Insufficient credits"
      then Some (JStr insufficientCredits)
      else if truthy (lookup_last "detail" ms) then lookup_last "detail" ms
      else if truthy (lookup_last "message" ms) then lookup_last "message" ms
      else Some (JStr genericMessage)
  | Returned JNull => Some (JStr (withStatus genericMessage response))
  | Returned _ => Some (JStr genericMessage)
  | Threw _ => Some (JStr (withStatus genericMessage response))
  end.

(** The failed-state result the program builds in its error paths. *)
Definition failedWith (id : string) (reason : Value) : LumaResponse.t :=
  LumaResponse.mk (Some (JStr id)) failed None None reason.

(** [hay.includes(needle)] *)
Definition includes (needle hay : string) : bool :=
  match String.index 0 needle hay with
  | Some _ => true
  | None => false
  end.

(** The creation requests among the effects of a run. *)
Fixpoint posts (t : list Event) : list Request :=
  match t with
  | [] => []
  | EvFetch r :: rest =>
      match req_method r with
      | POST => r :: posts rest
      | GET => posts rest
      end
  | _ :: rest => posts rest
  end.

(** Concrete behaviours of the generation service. *)
Module DemoService.

(** A client environment with a key set. *)
Definition env (k : string) : option string :=
  if String.eqb k "VITE_LUMA_API_KEY" then Some "luma-0123456789" else None.

Definition okResponse (body : Json) : Result Response.t :=
  Returned (Response.mk 200 "OK" (Returned body)).

(** The creation request is accepted and the job gets the id [gen-1]. *)
Definition accepted : Result Response.t :=
  Returned (Response.mk 201 "Created"
              (Returned (JObj [("id", JStr "gen-1"); ("state", JStr "queued")]))).

Definition statusMembers (st : string) (extra : list (string * Json))
    : list (string * Json) :=
  [("id", JStr "gen-1"); ("state", JStr st)] ++ extra.

Definition imageAssets : list (string * Json) :=
  [("assets", JObj [("image", JStr "https://cdn.example/gen-1.png")])].

(** The job is reported as processing [n] times, then as completed. *)
Definition completesAfter (n : nat) : Service.t :=
  Service.mk accepted
    (fun a => if Nat.ltb a n
              then okResponse (JObj (statusMembers "processing" []))
              else okResponse (JObj (statusMembers "completed" imageAssets))).

(** The job is reported as processing for ever. *)
Definition neverFinishes : Service.t :=
  Service.mk accepted
    (fun _ => okResponse (JObj (statusMembers "processing" []))).

(** The job is reported as failed, with no reason given. *)
Definition failsWithoutReason : Service.t :=
  Service.mk accepted
    (fun _ => okResponse (JObj (statusMembers "failed" []))).

(** The creation request is rejected with status 500 and the body [{}]. *)
Definition rejects500 : Service.t :=
  Service.mk
    (Returned (Response.mk 500 "Internal Server Error" (Returned (JObj []))))
    (fun _ => okResponse (JObj (statusMembers "processing" []))).

Definition options : ImageGenerationOptions.t :=
  ImageGenerationOptions.mk (Some (JStr "a night train under deep blue light"))
    (Some "16:9") (Some "ray-2").

End DemoService.

(** The request [createVideoFromImages] submits for the successful images
    [successfulImages]. *)
Definition videoRequest (import_meta_env : string -> option string)
    (successfulImages : list GeneratedMedia.t) (audioUrl : option string)
    (overallPrompt : option string) : Request :=
  mkRequest POST UrlCreate (authorization import_meta_env)
    (Some (JObj (requestBody
                   (VideoGenerationOptions.mk
                      (str_or overallPrompt defaultPrompt)
                      (List.concat (mapIndexed keyframe 0 successfulImages))
                      (Some "ray-2") audioUrl)))).

(** Generated images for a run of [total] segments of 30 seconds, of which
    the first [succeeded] have an image and the others failed. *)
Module DemoImages.

Definition image (succeeded i : nat) : GeneratedMedia.t :=
  GeneratedMedia.mk i (inject_Z (Z.of_nat i) * 30)
    (inject_Z (Z.of_nat i) * 30 + 30)
    (if Nat.ltb i succeeded
     then LumaResponse.mk (Some (JStr "gen")) completed
            (Some (JStr "https://cdn.example/image.png")) None None
     else failedWith "error" (Some (JStr imageRequestFailed))).

Definition images (succeeded total : nat) : list GeneratedMedia.t :=
  map (image succeeded) (seq 0 total).

End DemoImages.

(** Terminal states of a job. *)
Definition terminal (st : State) : Prop := st = completed \/ st = failed.

(** What the optional [onProgress] callback adds to a run: a report, when
    a callback was passed. *)
Definition progressReport (onProgress : bool) (done total : nat)
    : list Event :=
  if onProgress then [EvProgress done total] else [].

(** The sizes of the concurrent groups of a run, in order. *)
Fixpoint groupSizes (t : list Event) : list nat :=
  match t with
  | [] => []
  | EvConcurrent tasks :: rest => List.length tasks :: groupSizes rest
  | _ :: rest => groupSizes rest
  end.

(** The state recorded for an image job: that of the response it returns
    (the failed placeholder takes over if the job's promise rejects). *)
Definition settledState (job : Eff LumaResponse.t) : State :=
  match snd job with
  | Returned response => LumaResponse.state response
  | Threw _ => failed
  end.

(** A service per segment: the job of segment 4 is rejected with status
    500, every other job completes at its first status query. *)
Module DemoBatch.

Definition services (i : nat) : Service.t :=
  if Nat.eqb i 4 then DemoService.rejects500 else DemoService.completesAfter 0.

Definition analysis (i : nat) : SegmentAnalysis.t :=
  SegmentAnalysis.mk (inject_Z (Z.of_nat i) * 30)
    (inject_Z (Z.of_nat i) * 30 + 30)
    (Some (JStr "a night train")) (Some (JStr "deep blue"))
    (Some (JStr "longing")) (Some (JStr "a train crossing a blue night")).

End DemoBatch.

(* ===================================================================== *)
(** ** vite.config.ts and server/api.ts: the relays *)
(* ===================================================================== *)

Definition Headers : Type := list (string * string).

(** [proxyReq.setHeader(name, value)] *)
Definition setHeader (name value : string) (h : Headers) : Headers :=
  (name, value) :: filter (fun kv => negb (String.eqb (fst kv) name)) h.

(** [proxyReq.getHeader(name)] *)
Fixpoint getHeader (name : string) (h : Headers) : option string :=
  match h with
  | [] => None
  | (k, v) :: rest => if String.eqb k name then Some v else getHeader name rest
  end.

(** vite.config.ts: the headers the development proxy puts on every request
    it forwards for [/api/luma]. *)
Definition viteProxyHeaders (process_env : string -> option string) : Headers :=
  [("Authorization",
    ("Bearer " ++ str_or (process_env "VITE_LUMA_API_KEY") "")%string)].

(** server/api.ts: [onProxyReq] of the [/api/luma/:id] relay, applied to the
    headers of the request being forwarded. *)
Definition onProxyReq (process_env : string -> option string)
    (proxyReq : Headers) : Headers :=
  let keyed :=
    match process_env "LUMA_API_KEY" with
    | Some key =>
        if String.eqb key "" then proxyReq
        else setHeader "Authorization" ("Bearer " ++ key)%string proxyReq
    | None => proxyReq
    end in
  setHeader "Content-Type" "application/json" keyed.

(** The bundler's rule for [import.meta.env] in code delivered to the
    browser: a variable of the build environment is visible there exactly
    when its name starts with [VITE_]. *)
Definition clientEnv (process_env : string -> option string)
    : string -> option string :=
  fun name => if String.prefix "VITE_" name then process_env name else None.

(** The headers of a request built by the browser code. *)
Definition headersOf (r : Request) : Headers :=
  [("Authorization", req_authorization r);
   ("Content-Type", "application/json")].

(** The creation request [generateLumaImage] builds. *)
Definition imageRequest (import_meta_env : string -> option string)
    (options : ImageGenerationOptions.t) : Request :=
  mkRequest POST UrlCreate (authorization import_meta_env)
    (Some (JObj
       (member "prompt" (ImageGenerationOptions.prompt options)
        ++ [("aspect_ratio",
             JStr (str_or (ImageGenerationOptions.aspect_ratio options) "16:9"));
            ("model",
             JStr (str_or (ImageGenerationOptions.model options) "ray-2"))]))).

(** A build environment in which the key is configured the way
    vite.config.ts reads it. *)
Module DemoRelay.

Definition key : string := "luma-0123456789".

Definition process_env (name : string) : option string :=
  if String.eqb name "VITE_LUMA_API_KEY" then Some key else None.

End DemoRelay.

(* ===================================================================== *)
(** ** Further properties: vocabulary *)
(* ===================================================================== *)

(** What polling for the job [id] may do: a status query for that job with
    the client's authorization header, a wait of the polling interval, or
    console output at level log or error. *)
Definition pollEvent (auth : string) (id : Value) (e : Event) : Prop :=
  match e with
  | EvFetch r => r = mkRequest GET (UrlStatus id) auth None
  | EvSleep ms => ms = pollingInterval
  | EvConsole LvLog _ _ => True
  | EvConsole LvError _ _ => True
  | _ => False
  end.

(** The texts written with [console.warn] during a run. *)
Fixpoint warnings (t : list Event) : list string :=
  match t with
  | [] => []
  | EvConsole LvWarn text _ :: rest => text :: warnings rest
  | _ :: rest => warnings rest
  end.

(** Further behaviours of the generation service. *)
Module DemoPolling.

(** The creation is accepted; every status query is answered with status
    500 and the body [{}]. *)
Definition statusUnavailable : Service.t :=
  Service.mk DemoService.accepted
    (fun _ => Returned (Response.mk 500 "Internal Server Error"
                          (Returned (JObj [])))).

End DemoPolling.

(** The response recorded for the image job of index [idx]: the one the job
    returns, or the failed placeholder built by the [.catch] handler. *)
Definition recordedResponse (idx : nat) (job : Eff LumaResponse.t)
    : LumaResponse.t :=
  match snd job with
  | Returned response => response
  | Threw error =>
      LumaResponse.mk
        (Some (JStr ("error-" ++ nat_to_string idx)%string))
        failed None None
        (Some (JStr (messageOr error unknownError)))
  end.

(** The sizes of the groups [n] jobs are cut into: groups of [batchSize],
    and a last smaller one for what is left over. *)
Definition groupsOf (n : nat) : list nat :=
  repeat batchSize (n / batchSize)
  ++ (if Nat.eqb (n mod batchSize) 0 then [] else [n mod batchSize]).

(** The progress reports of a run, in order. *)
Fixpoint progressReports (t : list Event) : list (nat * nat) :=
  match t with
  | [] => []
  | EvProgress done total :: rest => (done, total) :: progressReports rest
  | _ :: rest => progressReports rest
  end.

(** An effect other than a [console.warn]. *)
Definition quiet (e : Event) : Prop :=
  match e with
  | EvConsole LvWarn _ _ => False
  | _ => True
  end.

(* ===================================================================== *)
(** ** lumaGeneration.ts: the whole flow *)
(* ===================================================================== *)

(** Effects of the flow: those of the operations it calls, and the calls of
    its [onVideoProgress] callback. *)
Inductive FlowEvent : Type :=
| FlowEffect (e : Event)
| FlowVideoProgress (state : string).

Definition Flow (A : Type) : Type := (list FlowEvent * Result A)%type.

(** An operation run inside the flow. *)
Definition effects {A} (m : Eff A) : Flow A := (map FlowEffect (fst m), snd m).

(** [if (onVideoProgress) onVideoProgress(state)] *)
Definition notify (onVideoProgress : bool) (state : string) : Flow unit :=
  (if onVideoProgress then [FlowVideoProgress state] else [], Returned tt).

Definition flow_bind {A B} (m : Flow A) (k : A -> Flow B) : Flow B :=
  match snd m with
  | Returned a => let n := k a in (fst m ++ fst n, snd n)
  | Threw e => (fst m, Threw e)
  end.

Definition flow_try {A} (m : Flow A) (h : Thrown -> Flow A) : Flow A :=
  match snd m with
  | Returned a => (fst m, Returned a)
  | Threw e => let n := h e in (fst m ++ fst n, snd n)
  end.

(** The messages passed to [onVideoProgress], in order. *)
Fixpoint notifications (t : list FlowEvent) : list string :=
  match t with
  | [] => []
  | FlowVideoProgress state :: rest => state :: notifications rest
  | FlowEffect _ :: rest => notifications rest
  end.

(** The effects of the operations the flow called, in order. *)
Fixpoint flowEffects (t : list FlowEvent) : list Event :=
  match t with
  | [] => []
  | FlowEffect e :: rest => e :: flowEffects rest
  | FlowVideoProgress _ :: rest => flowEffects rest
  end.

Definition newline : string := String (ascii_of_nat 10) EmptyString.

Definition startingImages : string := "画像の生成を開始しています...".
Definition startingVideo : string := "動画の生成を開始しています...".
Definition videoDone : string := "動画の生成が完了しました".
Definition videoFailedPrefix : string := "動画生成に失敗しました: ".
Definition flowErrorLabel : string := "生成フローエラー:".

(** The [overallPrompt] template of the flow, line breaks included. *)
Definition flowPrompt : string :=
  ("Create a cinematic video that flows smoothly between scenes, " ++ newline
   ++ "    maintaining the visual style and atmosphere of each image. " ++ newline
   ++ "    The transitions should be smooth and natural, following the rhythm and mood of the music.")%string.

Section FlowDefinitions.

(** [Number.prototype.toString]: the decimal rendering of a number. *)
Variable Number_toString : Q -> string.

(** [`${v}`] for a JSON value: strings as they are, arrays as their
    elements joined by commas ([null] elements as nothing), objects as
    ["[object Object]"]. *)
Fixpoint Json_toString (j : Json) : string :=
  match j with
  | JNull => "null"
  | JBool true => "true"
  | JBool false => "false"
  | JNum q => Number_toString q
  | JStr s => s
  | JArr items =>
      (fix join (l : list Json) : string :=
         match l with
         | [] => ""
         | x :: rest =>
             let element :=
               match x with
               | JNull => ""
               | _ => Json_toString x
               end in
             match rest with
             | [] => element
             | _ :: _ => (element ++ "," ++ join rest)%string
             end
         end) items
  | JObj _ => "[object Object]"
  end.

Definition Value_toString (v : Value) : string :=
  match v with
  | None => "undefined"
  | Some j => Json_toString j
  end.

Variable import_meta_env : string -> option string.

(** [executeFullGenerationFlow].  [services] are the service as seen by the
    image jobs, [videoService] as seen by the video job; [audioUrl] is what
    [createAudioFileUrl(audioFile)] returns; the two flags say whether the
    optional callbacks were passed. *)
Definition executeFullGenerationFlow (services : nat -> Service.t)
    (videoService : Service.t) (audioUrl : string)
    (analyses : list SegmentAnalysis.t)
    (onImageProgress onVideoProgress : bool) : Flow LumaResponse.t :=
  flow_try
    (flow_bind (notify onVideoProgress startingImages) (fun _ =>
     flow_bind (effects (generateImagesInParallel import_meta_env services
                           analyses onImageProgress)) (fun generatedImages =>
     flow_bind (notify onVideoProgress startingVideo) (fun _ =>
     flow_bind (effects (createVideoFromImages import_meta_env videoService
                           generatedImages (Some audioUrl) (Some flowPrompt)))
       (fun videoResponse =>
     if State_eqb (LumaResponse.state videoResponse) failed
     then (([], Threw (JsError
                  (videoFailedPrefix
                     ++ Value_toString
                          (LumaResponse.failure_reason videoResponse))%string))
           : Flow LumaResponse.t)
     else
       flow_bind (notify onVideoProgress videoDone) (fun _ =>
       ([], Returned videoResponse)))))))
    (fun error =>
       ([FlowEffect (EvConsole LvError flowErrorLabel (Some error))],
        Threw error)).

End FlowDefinitions.

(** An instance of number rendering for whole numbers, enough to run
    concrete flows. *)
Definition wholeNumberToString (q : Q) : string := Z_to_string (Qfloor q).

(** Further behaviours of the service, for the flow. *)
Module DemoFlow.

(** Every image job is rejected with status 500. *)
Definition allRejected (i : nat) : Service.t := DemoService.rejects500.

(** Every image job completes at its first status query. *)
Definition allComplete (i : nat) : Service.t := DemoService.completesAfter 0.

End DemoFlow.

(* ===================================================================== *)
(** ** audioAnalysis.ts: analysing a whole file *)
(* ===================================================================== *)

Definition audioAnalysisErrorLabel : string := "音声分析エラー:".

(** The prompts sent to the text model during a run. *)
Fixpoint modelCalls (t : list Event) : list Prompt :=
  match t with
  | [] => []
  | EvModel p :: rest => p :: modelCalls rest
  | _ :: rest => modelCalls rest
  end.

(** The first of the two prompts [analyzeAudioSegment] sends for a
    segment. *)
Definition firstPrompt (segment : AudioSegment.t) : Prompt :=
  AnalysisPrompt (AudioSegment.startTime segment)
    (AudioSegment.endTime segment).

(** A prompt is one that asks for the analysis of a segment. *)
Definition isAnalysisPrompt (p : Prompt) : bool :=
  match p with
  | AnalysisPrompt _ _ => true
  | PromptGenerationPrompt _ _ _ => false
  end.

Section AudioFile.

Variable JSON_parse : string -> Result Json.

(** What the text model answers to the two calls made for the segment at
    position [i]. *)
Variable replies : nat -> Result string * Result string.

(** [analyzeAudioSegment(segments[i])] *)
Definition analyzeAt (i : nat) (segment : AudioSegment.t)
    : Eff SegmentAnalysis.t :=
  analyzeAudioSegment JSON_parse (fst (replies i)) (snd (replies i)) segment.

(** The [for] loop of [analyzeAudioFile] from index [i] on: [rest] are the
    segments [segments[i]], [segments[i+1]], ..., [total] is
    [segments.length]. *)
Fixpoint analyzeFrom (i total : nat) (rest : list AudioSegment.t)
    (onProgress : bool) (analyses : list SegmentAnalysis.t)
    : Eff (list SegmentAnalysis.t) :=
  match rest with
  | [] => ret analyses
  | segment :: rest' =>
      analysis <- analyzeAt i segment ;;
      (if onProgress then emit (EvProgress (i + 1) total) else ret tt) ;;;
      analyzeFrom (S i) total rest' onProgress (analyses ++ [analysis])
  end.

(** [analyzeAudioFile].  [split] is what awaiting
    [splitAudioIntoSegments(audioFile, segmentDuration)] yields: the
    segments, or the error the promise is rejected with. *)
Definition analyzeAudioFile (split : Result (list AudioSegment.t))
    (onProgress : bool) : Eff (list SegmentAnalysis.t) :=
  try_catch
    (segments <- lift split ;;
     analyzeFrom 0 (List.length segments) segments onProgress [])
    (fun error =>
       emit (EvConsole LvError audioAnalysisErrorLabel (Some error)) ;;;
       throw error).

End AudioFile.

(** Model answers for a run in which every segment is analysed. *)
Module DemoFile.

Definition promptText : string :=
  ("{" ++ Demo.member "imagePrompt" "a night train under deep blue light"
     ++ "}")%string.

Definition allGood (i : nat) : Result string * Result string :=
  (Returned Demo.analysisText, Returned promptText).

(** The answer for the segment at position 1 lacks a field. *)
Definition secondBad (i : nat) : Result string * Result string :=
  if Nat.eqb i 1 then (Returned Demo.noEmotionText, Returned promptText)
  else allGood i.

Definition segments : list AudioSegment.t :=
  [AudioSegment.mk 0 30 (Blob.mk 0 (30 * 44100) 2 44100);
   AudioSegment.mk 30 60 (Blob.mk 1323000 (30 * 44100) 2 44100);
   AudioSegment.mk 60 70 (Blob.mk 2646000 (10 * 44100) 2 44100)].

End DemoFile.

(* ===================================================================== *)
(** ** audioAnalysis.ts and the page: formatTime *)
(* ===================================================================== *)

(** [a % b] on numbers: the quotient is truncated towards zero, so the
    remainder has the sign of the dividend. *)
Definition Number_rem (a b : Q) : Q := a - b * inject_Z (Math_trunc (a / b)).

(** [s.padStart(2, '0')] *)
Definition padStart2 (s : string) : string :=
  match String.length s with
  | 0%nat => "00"
  | 1%nat => String "0" s
  | _ => s
  end.

(** [formatTime] *)
Definition formatTime (seconds : Q) : string :=
  let minutes := Math_floor (seconds / 60) in
  let remainingSeconds := Math_floor (Number_rem seconds 60) in
  (Z_to_string minutes ++ ":" ++ padStart2 (Z_to_string remainingSeconds))%string.

(** The decimal digit [d], for [0 <= d <= 9]. *)
Definition digit (d : Z) : ascii := ascii_of_nat (48 + Z.to_nat d).

(** [r] written with exactly two decimal digits. *)
Definition twoDigits (r : Z) : string :=
  String (digit (r / 10)) (String (digit (r mod 10)) EmptyString).

(* ===================================================================== *)
(** ** audioAnalysis.ts: bufferToWav *)
(* ===================================================================== *)

(** The rendered [AudioBuffer], as [bufferToWav] reads it:
    [getChannelData channel i] is [buffer.getChannelData(channel)[i]]. *)
Module RenderedBuffer.
Record t : Type := mk {
  numberOfChannels : nat;
  length : nat;
  sampleRate : Q;
  getChannelData : nat -> nat -> Q
}.
End RenderedBuffer.

Definition Math_max (a b : Q) : Q := Qmax a b.

Definition ToInt16 (x : Q) : Z :=
  let u := ToUint 16 x in
  if (32768 <=? u)%Z then (u - 65536)%Z else u.

(** [n] bytes, least significant first. *)
Fixpoint littleEndian (n : nat) (v : Z) : list Z :=
  match n with
  | O => []
  | S n' => (v mod 256)%Z :: littleEndian n' (v / 256)%Z
  end.

Fixpoint fromLittleEndian (bytes : list Z) : Z :=
  match bytes with
  | [] => 0%Z
  | b :: rest => (b + 256 * fromLittleEndian rest)%Z
  end.

(** [new ArrayBuffer(n)] *)
Definition ArrayBuffer (n : nat) : list Z := repeat 0%Z n.

(** Overwriting the bytes of a buffer from [offset] on. *)
Fixpoint write (offset : nat) (bytes : list Z) (buf : list Z) : list Z :=
  match buf with
  | [] => []
  | b :: rest =>
      match offset with
      | S o => b :: write o bytes rest
      | O =>
          match bytes with
          | [] => buf
          | x :: bytes' => x :: write O bytes' rest
          end
      end
  end.

(** [view.setUint8(offset, value)], [view.setUint16(offset, value, true)],
    [view.setUint32(offset, value, true)] and the matching getters. *)
Definition setUint8 (offset : nat) (value : Q) (view : list Z) : list Z :=
  write offset (littleEndian 1 (ToUint 8 value)) view.
Definition setUint16 (offset : nat) (value : Q) (view : list Z) : list Z :=
  write offset (littleEndian 2 (ToUint 16 value)) view.
Definition setUint32 (offset : nat) (value : Q) (view : list Z) : list Z :=
  write offset (littleEndian 4 (ToUint 32 value)) view.

Definition getUint8 (offset : nat) (view : list Z) : Z :=
  fromLittleEndian (firstn 1 (skipn offset view)).
Definition getUint16 (offset : nat) (view : list Z) : Z :=
  fromLittleEndian (firstn 2 (skipn offset view)).
Definition getUint32 (offset : nat) (view : list Z) : Z :=
  fromLittleEndian (firstn 4 (skipn offset view)).

(** ['c'.charCodeAt(0)] *)
Definition charCodeAt0 (c : ascii) : Q := inject_Z (Z.of_nat (nat_of_ascii c)).

(** [audioData[offset] = value] on an [Int16Array]: a store outside the
    array is ignored. *)
Fixpoint store (offset : nat) (value : Z) (audioData : list Z) : list Z :=
  match audioData with
  | [] => []
  | x :: rest =>
      match offset with
      | O => value :: rest
      | S o => x :: store o value rest
      end
  end.

(** The number stored for a sample:
    [sample < 0 ? sample * 0x8000 : sample * 0x7FFF] after clamping. *)
Definition sampleValue (x : Q) : Q :=
  let sample := Math_max (-1) (Math_min 1 x) in
  if Qlt_le_dec sample 0 then sample * 32768 else sample * 32767.

(** The blob [new Blob([wavHeader, audioData], { type: 'audio/wav' })]: the
    bytes of the header and the elements of the [Int16Array]. *)
Module WavBlob.
Record t : Type := mk {
  wavHeader : list Z;
  audioData : list Z
}.

(** [blob.size]: an [Int16Array] element takes two bytes. *)
Definition size (b : t) : nat :=
  (List.length (wavHeader b) + 2 * List.length (audioData b))%nat.
End WavBlob.

(** The header [bufferToWav] builds. *)
Definition wavHeaderOf (buffer : RenderedBuffer.t) : list Z :=
  let numOfChannels :=
    inject_Z (Z.of_nat (RenderedBuffer.numberOfChannels buffer)) in
  let length :=
    inject_Z (Z.of_nat (RenderedBuffer.length buffer)) * numOfChannels * 2 in
  let sampleRate := RenderedBuffer.sampleRate buffer in
  let view := ArrayBuffer 44 in
  let view := setUint8 0 (charCodeAt0 "R") view in
  let view := setUint8 1 (charCodeAt0 "I") view in
  let view := setUint8 2 (charCodeAt0 "F") view in
  let view := setUint8 3 (charCodeAt0 "F") view in
  let view := setUint32 4 (36 + length) view in
  let view := setUint8 8 (charCodeAt0 "W") view in
  let view := setUint8 9 (charCodeAt0 "A") view in
  let view := setUint8 10 (charCodeAt0 "V") view in
  let view := setUint8 11 (charCodeAt0 "E") view in
  let view := setUint8 12 (charCodeAt0 "f") view in
  let view := setUint8 13 (charCodeAt0 "m") view in
  let view := setUint8 14 (charCodeAt0 "t") view in
  let view := setUint8 15 (charCodeAt0 " ") view in
  let view := setUint32 16 16 view in
  let view := setUint16 20 1 view in
  let view := setUint16 22 numOfChannels view in
  let view := setUint32 24 sampleRate view in
  let view := setUint32 28 (sampleRate * numOfChannels * 2) view in
  let view := setUint16 32 (numOfChannels * 2) view in
  let view := setUint16 34 16 view in
  let view := setUint8 36 (charCodeAt0 "d") view in
  let view := setUint8 37 (charCodeAt0 "a") view in
  let view := setUint8 38 (charCodeAt0 "t") view in
  let view := setUint8 39 (charCodeAt0 "a") view in
  setUint32 40 length view.

(** The inner loop of [bufferToWav] for frame [i]: one store per channel,
    [offset] advancing by one each time. *)
Definition channelLoop (buffer : RenderedBuffer.t) (i : nat)
    (state : list Z * nat) : list Z * nat :=
  fold_left
    (fun st channel =>
       (store (snd st)
          (ToInt16 (sampleValue (RenderedBuffer.getChannelData buffer channel i)))
          (fst st),
        S (snd st)))
    (seq 0 (RenderedBuffer.numberOfChannels buffer)) state.

(** The sample data [bufferToWav] builds: an [Int16Array] of
    [buffer.length * numOfChannels * 2] elements, filled frame by frame. *)
Definition audioDataOf (buffer : RenderedBuffer.t) : list Z :=
  let numOfChannels := RenderedBuffer.numberOfChannels buffer in
  let length := (RenderedBuffer.length buffer * numOfChannels * 2)%nat in
  fst (fold_left (fun st i => channelLoop buffer i st)
         (seq 0 (RenderedBuffer.length buffer))
         (repeat 0%Z length, 0%nat)).

(** [bufferToWav] *)
Definition bufferToWav (buffer : RenderedBuffer.t) : WavBlob.t :=
  WavBlob.mk (wavHeaderOf buffer) (audioDataOf buffer).

(** One second of silence-to-full-scale test data: two channels, four
    frames. *)
Module DemoWav.

Definition samples (channel i : nat) : Q :=
  match channel, i with
  | 0%nat, 0%nat => 0
  | 0%nat, 1%nat => 1 # 2
  | 0%nat, 2%nat => 3 # 2
  | 1%nat, 0%nat => - (1 # 2)
  | 1%nat, 1%nat => -2
  | _, _ => 1 # 4
  end.

Definition buffer : RenderedBuffer.t := RenderedBuffer.mk 2 4 44100 samples.

End DemoWav.

(* ===================================================================== *)
(** ** App.tsx: the generate handler of the page *)
(* ===================================================================== *)

Definition promptRequired : string := "プロンプトを入力してください".
Definition imageFailedDefault : string := "画像生成に失敗しました".

(** [(err as Error).message]: [undefined] for a thrown value that is not
    an [Error]. *)
Definition messageOf (err : Thrown) : Value :=
  match err with
  | JsError m => Some (JStr m)
  | NonError => None
  end.

(** The state of the page that the handler writes: [generating], [error]
    ([Some JNull] is [null]) and [generatedImage] ([None] is [null]). *)
Module AppState.
Record t : Type := mk {
  generating : bool;
  error : Value;
  generatedImage : option LumaResponse.t
}.
End AppState.

Definition setGenerating (b : bool) (s : AppState.t) : AppState.t :=
  AppState.mk b (AppState.error s) (AppState.generatedImage s).
Definition setError (e : Value) (s : AppState.t) : AppState.t :=
  AppState.mk (AppState.generating s) e (AppState.generatedImage s).
Definition setGeneratedImage (r : option LumaResponse.t) (s : AppState.t)
    : AppState.t :=
  AppState.mk (AppState.generating s) (AppState.error s) r.

Section App.

Variable Number_toString : Q -> string.
Variable import_meta_env : string -> option string.

(** [String.prototype.trim] *)
Variable String_trim : string -> string.

(** The options the handler passes to [generateLumaImage]. *)
Definition handlerOptions (prompt : string) : ImageGenerationOptions.t :=
  ImageGenerationOptions.mk (Some (JStr prompt)) (Some "16:9")
    (Some "photon-1").

(** The [try] block of [handleGenerateImage]: what it passes to
    [setGeneratedImage], or what it throws.  [service] answers
    [generateLumaImage]; [laterService] is the service as it answers the
    status queries of the handler's own [pollGenerationStatus] call. *)
Definition handlerAttempt (service laterService : Service.t)
    (prompt : string) : Eff LumaResponse.t :=
  response <- generateLumaImage import_meta_env service (handlerOptions prompt) ;;
  if State_eqb (LumaResponse.state response) failed then
    throw (JsError
             (Value_toString Number_toString
                (or_else (LumaResponse.failure_reason response)
                   (Some (JStr imageFailedDefault)))))
  else if State_eqb (LumaResponse.state response) pending
          || State_eqb (LumaResponse.state response) processing then
    pollGenerationStatus import_meta_env laterService
      (LumaResponse.id response)
  else ret response.

(** [handleGenerateImage]: the effects of the call and the state of the
    page once it has finished. *)
Definition handleGenerateImage (service laterService : Service.t)
    (prompt : string) (state : AppState.t) : list Event * AppState.t :=
  if String.eqb (String_trim prompt) "" then
    ([], setError (Some (JStr promptRequired)) state)
  else
    let state := setGenerating true state in
    let state := setError (Some JNull) state in
    let state := setGeneratedImage None state in
    let attempt := handlerAttempt service laterService prompt in
    let state :=
      match snd attempt with
      | Returned response => setGeneratedImage (Some response) state
      | Threw err => setError (messageOf err) state
      end in
    (fst attempt, setGenerating false state).

End App.

(* ===================================================================== *)
(** ** geminiAnalysis.ts: analysing a file as a whole *)
(* ===================================================================== *)

(** A character occurs in a text. *)
Fixpoint occurs (c : ascii) (s : string) : bool :=
  match s with
  | EmptyString => false
  | String d rest => Ascii.eqb d c || occurs c rest
  end.

(** [{...analysis}]: the members an object spread copies.  A value that is
    not an object, a string or an array contributes none. *)
Definition spread (analysis : Json) : list (string * Json) :=
  match analysis with
  | JObj ms => ms
  | _ => []
  end.

(** The object [analyzeWithGemini] returns,
    [{ ...analysis, imagePrompt: promptJson.imagePrompt }], with its
    property read. *)
Module GeminiAnalysis.
Record t : Type := mk {
  analysis : list (string * Json);
  imagePrompt : Value
}.

Definition get (g : t) (k : string) : Value :=
  if String.eqb k "imagePrompt" then imagePrompt g
  else lookup_last k (analysis g).
End GeminiAnalysis.

Section FileAnalyzer.

Variable JSON_parse : string -> Result Json.

(** [analyzeWithGemini].  [reply1] and [reply2] are as for
    [analyzeAudioSegment]; the console output is recorded, the prompts sent
    to the model are not. *)
Definition analyzeWithGemini (reply1 reply2 : Result string)
    : Eff GeminiAnalysis.t :=
  text <- lift reply1 ;;
  emit (EvConsole LvLog "=== Gemini Analysis Log ===" None) ;;;
  emit (EvConsole LvLog "Analysis Prompt:" None) ;;;
  emit (EvConsole LvLog "Raw Response:" None) ;;;
  try_catch
    (match matchBraces text with
     | None => throw (JsError jsonNotFound)
     | Some jsonMatch =>
         analysis <- lift (JSON_parse jsonMatch) ;;
         story <- lift (prop (Some analysis) "story") ;;
         visual <- (if truthy story
                    then lift (prop (Some analysis) "visual")
                    else throw (JsError infoMissing)) ;;
         emotion <- (if truthy visual
                     then lift (prop (Some analysis) "emotion")
                     else throw (JsError infoMissing)) ;;
         (if truthy emotion then ret tt else throw (JsError infoMissing)) ;;;
         emit (EvConsole LvLog "=== Analysis Complete ===" None) ;;;
         promptText <- lift reply2 ;;
         emit (EvConsole LvLog "=== Prompt Generation Log ===" None) ;;;
         emit (EvConsole LvLog "Prompt Generation Request:" None) ;;;
         emit (EvConsole LvLog "Raw Response:" None) ;;;
         promptJson <- lift (JSON_parse (promptSource promptText)) ;;
         emit (EvConsole LvLog "Generated Image Prompt:" None) ;;;
         imagePrompt <- lift (prop (Some promptJson) "imagePrompt") ;;
         ret (GeminiAnalysis.mk (spread analysis) imagePrompt)
     end)
    (fun error =>
       emit (EvConsole LvError parseErrorLabel (Some error)) ;;;
       throw (JsError analysisFailed)).

End FileAnalyzer.

(** All the requests sent during a run, in order. *)
Fixpoint requests (t : list Event) : list Request :=
  match t with
  | [] => []
  | EvFetch r :: rest => r :: requests rest
  | _ :: rest => requests rest
  end.

Definition isQuery (x : Tick) : bool :=
  match x with
  | Query => true
  | Wait _ => false
  end.

(* ===================================================================== *)
(** ** App.tsx (the audio page): state and handlers *)
(* ===================================================================== *)

Inductive Tab : Type := TabAnalysis | TabImages | TabVideo.

(** The state of the page, one field per [useState]; [file] holds the name
    of the selected file, [error] is [Some JNull] for [null]. *)
Module Page.
Record t : Type := mk {
  file : option string;
  segmentDuration : Q;
  analyzing : bool;
  error : Value;
  analyses : list SegmentAnalysis.t;
  analysisProgress : option (nat * nat);
  generatingImages : bool;
  generatingVideo : bool;
  generatedImages : list GeneratedMedia.t;
  imageProgress : option (nat * nat);
  generatedVideo : option LumaResponse.t;
  videoStatus : string;
  audioUrl : option string;
  activeTab : Tab
}.

Definition initial : t :=
  mk None 30 false (Some JNull) [] None false false [] None None
    EmptyString None TabAnalysis.
End Page.

(** A call of one of the state setters. *)
Inductive Update : Type :=
| SetFile (v : option string)
| SetSegmentDuration (v : Q)
| SetAnalyzing (v : bool)
| SetError (v : Value)
| SetAnalyses (v : list SegmentAnalysis.t)
| SetAnalysisProgress (v : option (nat * nat))
| SetGeneratingImages (v : bool)
| SetGeneratingVideo (v : bool)
| SetGeneratedImages (v : list GeneratedMedia.t)
| SetImageProgress (v : option (nat * nat))
| SetGeneratedVideo (v : option LumaResponse.t)
| SetVideoStatus (v : string)
| SetAudioUrl (v : option string)
| SetActiveTab (v : Tab).

Definition update (u : Update) (s : Page.t) : Page.t :=
  match u with
  | SetFile v =>
      Page.mk v (Page.segmentDuration s) (Page.analyzing s) (Page.error s)
        (Page.analyses s) (Page.analysisProgress s) (Page.generatingImages s)
        (Page.generatingVideo s) (Page.generatedImages s)
        (Page.imageProgress s) (Page.generatedVideo s) (Page.videoStatus s) (Page.audioUrl s)
        (Page.activeTab s)
  | SetSegmentDuration v =>
      Page.mk (Page.file s) v (Page.analyzing s) (Page.error s)
        (Page.analyses s) (Page.analysisProgress s) (Page.generatingImages s)
        (Page.generatingVideo s) (Page.generatedImages s)
        (Page.imageProgress s) (Page.generatedVideo s) (Page.videoStatus s) (Page.audioUrl s)
        (Page.activeTab s)
  | SetAnalyzing v =>
      Page.mk (Page.file s) (Page.segmentDuration s) v (Page.error s)
        (Page.analyses s) (Page.analysisProgress s) (Page.generatingImages s)
        (Page.generatingVideo s) (Page.generatedImages s)
        (Page.imageProgress s) (Page.generatedVideo s) (Page.videoStatus s) (Page.audioUrl s)
        (Page.activeTab s)
  | SetError v =>
      Page.mk (Page.file s) (Page.segmentDuration s) (Page.analyzing s) v
        (Page.analyses s) (Page.analysisProgress s) (Page.generatingImages s)
        (Page.generatingVideo s) (Page.generatedImages s)
        (Page.imageProgress s) (Page.generatedVideo s) (Page.videoStatus s) (Page.audioUrl s)
        (Page.activeTab s)
  | SetAnalyses v =>
      Page.mk (Page.file s) (Page.segmentDuration s) (Page.analyzing s)
        (Page.error s) v (Page.analysisProgress s) (Page.generatingImages s)
        (Page.generatingVideo s) (Page.generatedImages s)
        (Page.imageProgress s) (Page.generatedVideo s) (Page.videoStatus s) (Page.audioUrl s)
        (Page.activeTab s)
  | SetAnalysisProgress v =>
      Page.mk (Page.file s) (Page.segmentDuration s) (Page.analyzing s)
        (Page.error s) (Page.analyses s) v (Page.generatingImages s)
        (Page.generatingVideo s) (Page.generatedImages s)
        (Page.imageProgress s) (Page.generatedVideo s) (Page.videoStatus s) (Page.audioUrl s)
        (Page.activeTab s)
  | SetGeneratingImages v =>
      Page.mk (Page.file s) (Page.segmentDuration s) (Page.analyzing s)
        (Page.error s) (Page.analyses s) (Page.analysisProgress s) v
        (Page.generatingVideo s) (Page.generatedImages s)
        (Page.imageProgress s) (Page.generatedVideo s) (Page.videoStatus s) (Page.audioUrl s)
        (Page.activeTab s)
  | SetGeneratingVideo v =>
      Page.mk (Page.file s) (Page.segmentDuration s) (Page.analyzing s)
        (Page.error s) (Page.analyses s) (Page.analysisProgress s)
        (Page.generatingImages s) v (Page.generatedImages s)
        (Page.imageProgress s) (Page.generatedVideo s) (Page.videoStatus s)
        (Page.audioUrl s) (Page.activeTab s)
  | SetGeneratedImages v =>
      Page.mk (Page.file s) (Page.segmentDuration s) (Page.analyzing s)
        (Page.error s) (Page.analyses s) (Page.analysisProgress s)
        (Page.generatingImages s) (Page.generatingVideo s) v
        (Page.imageProgress s) (Page.generatedVideo s) (Page.videoStatus s)
        (Page.audioUrl s) (Page.activeTab s)
  | SetImageProgress v =>
      Page.mk (Page.file s) (Page.segmentDuration s) (Page.analyzing s)
        (Page.error s) (Page.analyses s) (Page.analysisProgress s)
        (Page.generatingImages s) (Page.generatingVideo s)
        (Page.generatedImages s) v (Page.generatedVideo s)
        (Page.videoStatus s) (Page.audioUrl s) (Page.activeTab s)
  | SetGeneratedVideo v =>
      Page.mk (Page.file s) (Page.segmentDuration s) (Page.analyzing s)
        (Page.error s) (Page.analyses s) (Page.analysisProgress s)
        (Page.generatingImages s) (Page.generatingVideo s)
        (Page.generatedImages s) (Page.imageProgress s) v
        (Page.videoStatus s) (Page.audioUrl s) (Page.activeTab s)
  | SetVideoStatus v =>
      Page.mk (Page.file s) (Page.segmentDuration s) (Page.analyzing s)
        (Page.error s) (Page.analyses s) (Page.analysisProgress s)
        (Page.generatingImages s) (Page.generatingVideo s)
        (Page.generatedImages s) (Page.imageProgress s)
        (Page.generatedVideo s) v (Page.audioUrl s) (Page.activeTab s)
  | SetAudioUrl v =>
      Page.mk (Page.file s) (Page.segmentDuration s) (Page.analyzing s)
        (Page.error s) (Page.analyses s) (Page.analysisProgress s)
        (Page.generatingImages s) (Page.generatingVideo s)
        (Page.generatedImages s) (Page.imageProgress s)
        (Page.generatedVideo s) (Page.videoStatus s) v (Page.activeTab s)
  | SetActiveTab v =>
      Page.mk (Page.file s) (Page.segmentDuration s) (Page.analyzing s)
        (Page.error s) (Page.analyses s) (Page.analysisProgress s)
        (Page.generatingImages s) (Page.generatingVideo s)
        (Page.generatedImages s) (Page.imageProgress s)
        (Page.generatedVideo s) (Page.videoStatus s) (Page.audioUrl s) v
  end.

(** The state after a sequence of setter calls. *)
Definition after (us : list Update) (s : Page.t) : Page.t :=
  fold_left (fun st u => update u st) us s.

(** [handleFileUpload]: [selectedFile] is [event.target.files?.[0]],
    [objectUrl] what [createAudioFileUrl] returns for it. *)
Definition handleFileUpload (selectedFile : option string)
    (objectUrl : string) : list Update :=
  match selectedFile with
  | None => []
  | Some f =>
      [SetFile (Some f); SetAudioUrl (Some objectUrl); SetError (Some JNull);
       SetAnalyses []; SetGeneratedImages []; SetGeneratedVideo None;
       SetActiveTab TabAnalysis]
  end.

(** The setter calls the progress callback of [handleAnalyzeAudio] makes
    during a run of [analyzeAudioFile]. *)
Fixpoint analysisCallbacks (t : list Event) : list Update :=
  match t with
  | [] => []
  | EvProgress progress total :: rest =>
      SetAnalysisProgress (Some (progress, total)) :: analysisCallbacks rest
  | _ :: rest => analysisCallbacks rest
  end.

(** The setter calls the two callbacks of [handleGenerateMedia] make during
    a run of [executeFullGenerationFlow]. *)
Fixpoint mediaCallbacks (t : list FlowEvent) : list Update :=
  match t with
  | [] => []
  | FlowEffect (EvProgress progress total) :: rest =>
      SetImageProgress (Some (progress, total))
      :: (if Nat.eqb progress total then [SetGeneratingImages false] else [])
      ++ mediaCallbacks rest
  | FlowVideoProgress status :: rest =>
      SetVideoStatus status :: mediaCallbacks rest
  | _ :: rest => mediaCallbacks rest
  end.

Section PageHandlers.

Variable Number_toString : Q -> string.
Variable import_meta_env : string -> option string.
Variable JSON_parse : string -> Result Json.

(** [handleAnalyzeAudio].  [split] is what the segmentation of the selected
    file with the current segment duration yields, [replies] the answers
    of the text model. *)
Definition handleAnalyzeAudio (split : Result (list AudioSegment.t))
    (replies : nat -> Result string * Result string) (state : Page.t)
    : list Update :=
  match Page.file state with
  | None => []
  | Some _ =>
      let run := analyzeAudioFile JSON_parse replies split true in
      [SetAnalyzing true; SetError (Some JNull); SetAnalyses []]
      ++ analysisCallbacks (fst run)
      ++ match snd run with
         | Returned results => [SetAnalyses results; SetActiveTab TabAnalysis]
         | Threw err => [SetError (messageOf err)]
         end
      ++ [SetAnalyzing false; SetAnalysisProgress None]
  end.

(** [handleGenerateMedia].  [objectUrl] is what [createAudioFileUrl]
    returns inside the flow. *)
Definition handleGenerateMedia (services : nat -> Service.t)
    (videoService : Service.t) (objectUrl : string) (state : Page.t)
    : list Update :=
  match Page.file state, Page.analyses state with
  | None, _ => []
  | Some _, [] => []
  | Some _, _ :: _ =>
      let run :=
        executeFullGenerationFlow Number_toString import_meta_env services
          videoService objectUrl (Page.analyses state) true true in
      [SetGeneratingImages true; SetGeneratingVideo true;
       SetError (Some JNull)]
      ++ mediaCallbacks (fst run)
      ++ match snd run with
         | Returned videoResponse =>
             [SetGeneratedVideo (Some videoResponse); SetActiveTab TabVideo]
         | Threw err => [SetError (messageOf err)]
         end
      ++ [SetGeneratingImages false; SetGeneratingVideo false;
          SetImageProgress None; SetVideoStatus EmptyString]
  end.

(** What the user can make the page do, with what the outside world
    answers while it does it. *)
Inductive Action : Type :=
| FileUpload (selectedFile : option string) (objectUrl : string)
| AnalyzeAudio (split : Result (list AudioSegment.t))
    (replies : nat -> Result string * Result string)
| GenerateMedia (services : nat -> Service.t) (videoService : Service.t)
    (objectUrl : string)
| ChangeSegmentDuration (value : Q)
| SelectTab (tab : Tab).

(** The setter calls of one action, in order. *)
Definition updatesOf (a : Action) (state : Page.t) : list Update :=
  match a with
  | FileUpload selectedFile objectUrl => handleFileUpload selectedFile objectUrl
  | AnalyzeAudio split replies => handleAnalyzeAudio split replies state
  | GenerateMedia services videoService objectUrl =>
      handleGenerateMedia services videoService objectUrl state
  | ChangeSegmentDuration value => [SetSegmentDuration value]
  | SelectTab tab => [SetActiveTab tab]
  end.

(** The states of the page between two actions, each action running to its
    end before the next one starts. *)
Inductive settled : Page.t -> Prop :=
| settled_initial : settled Page.initial
| settled_after (s : Page.t) (a : Action) :
    settled s -> settled (after (updatesOf a s) s).

(** The states the page goes through: those between actions and those in
    the middle of one, after any number of its setter calls. *)
Definition visible (s' : Page.t) : Prop :=
  exists s a n, settled s /\ s' = after (firstn n (updatesOf a s)) s.

End PageHandlers.

(** No busy indicator is on. *)
Definition idle (s : Page.t) : Prop :=
  Page.analyzing s = false /\ Page.analysisProgress s = None /\
  Page.generatingImages s = false /\ Page.generatingVideo s = false /\
  Page.imageProgress s = None /\ Page.videoStatus s = EmptyString.

(** A setter call that stores no generated image and no video that is not
    completed. *)
Definition storesNothingUnfinished (u : Update) : Prop :=
  match u with
  | SetGeneratedImages l => l = []
  | SetGeneratedVideo (Some r) => LumaResponse.state r = completed
  | _ => True
  end.

(** The page holds no generated image and no video that is not completed. *)
Definition holdsNothingUnfinished (s : Page.t) : Prop :=
  Page.generatedImages s = [] /\
  match Page.generatedVideo s with
  | Some r => LumaResponse.state r = completed
  | None => True
  end.

(** A setter call that leaves the busy indicators of the analysis, or
    those of the generation, alone. *)
Definition keepsAnalysisFlags (u : Update) : Prop :=
  match u with
  | SetAnalyzing _ | SetAnalysisProgress _ => False
  | _ => True
  end.

Definition keepsGenerationFlags (u : Update) : Prop :=
  match u with
  | SetGeneratingImages _ | SetGeneratingVideo _
  | SetImageProgress _ | SetVideoStatus _ => False
  | _ => True
  end.

(** A session on the page: a file is chosen, analysed into three segments,
    and the media are generated. *)
Module DemoPage.

Definition chosen : Page.t :=
  after (handleFileUpload (Some "song.mp3") "blob:audio") Page.initial.

Definition analysed : Page.t :=
  after (handleAnalyzeAudio MiniJson.parse (Returned DemoFile.segments)
           DemoFile.allGood chosen) chosen.

Definition generated : Page.t :=
  after (handleGenerateMedia wholeNumberToString DemoService.env
           DemoFlow.allComplete (DemoService.completesAfter 0) "blob:audio"
           analysed) analysed.

End DemoPage.

(* ===================================================================== *)
(** ** vite.config.ts and server/api.ts: the upstream paths *)
(* ===================================================================== *)

(** The text [s] without its first [n] characters. *)
Fixpoint dropChars (n : nat) (s : string) : string :=
  match n, s with
  | O, _ => s
  | S n', String _ rest => dropChars n' rest
  | S _, EmptyString => EmptyString
  end.

(** [s.replace(pattern, replacement)] with a string pattern: the first
    occurrence is replaced. *)
Fixpoint String_replace (pattern replacement s : string) : string :=
  if String.prefix pattern s
  then (replacement ++ dropChars (String.length pattern) s)%string
  else match s with
       | EmptyString => EmptyString
       | String c rest => String c (String_replace pattern replacement rest)
       end.

(** [s.split(sep)] with a one-character separator. *)
Fixpoint String_split (sep : ascii) (s : string) : list string :=
  match s with
  | EmptyString => [EmptyString]
  | String c rest =>
      if Ascii.eqb c sep then EmptyString :: String_split sep rest
      else match String_split sep rest with
           | head :: tail => String c head :: tail
           | [] => [String c EmptyString]
           end
  end.

(** vite.config.ts: [rewrite] of the development proxy. *)
Definition viteRewrite (path : string) : string :=
  let trimmedPath := String_replace "/api/luma" "" path in
  ("/v1/images/generations" ++ trimmedPath)%string.

(** server/api.ts: the [pathRewrite] table of the [/api/luma] relay,
    [{ '^/api/luma': '/dream-machine/v1/generations' }]. *)
Definition pathRewriteTable (path : string) : string :=
  if String.prefix "/api/luma" path
  then ("/dream-machine/v1/generations" ++ dropChars 9 path)%string
  else path.

(** server/api.ts: the [pathRewrite] function of the [/api/luma/:id]
    relay; [id] is [path.split('/').pop()]. *)
Definition pathRewrite (path : string) : string :=
  let id := last (String_split "/" path) EmptyString in
  ("/dream-machine/v1/generations/" ++ id)%string.

(* ===================================================================== *)
(** ** Theorems *)
(* ===================================================================== *)

(* --------------------------------------------------------------------- *)
(** *** Doubles: whole numbers are exact *)
(* --------------------------------------------------------------------- *)

(** Rounding depends on the number only, not on the fraction denoting it. *)
Lemma round_comp (x y : Q) : x == y -> Double.round x = Double.round y.
Proof.
  intro H. unfold Double.round. rewrite (Qred_complete _ _ H). reflexivity.
Qed.

Lemma Qred_whole (z : Z) : Qred (inject_Z z) = inject_Z z.
Proof.
  unfold Qred, inject_Z.
  pose proof (Z.ggcd_gcd z 1) as Hg.
  pose proof (Z.ggcd_correct_divisors z 1) as Hd.
  destruct (Z.ggcd z 1) as [g [r1 r2]]. cbn [fst snd] in *.
  rewrite Z.gcd_1_r in Hg. subst g. destruct Hd as [H1 H2].
  rewrite Z.mul_1_l in H1, H2. subst. reflexivity.
Qed.

Lemma nearestEven_whole (r : Q) (k : Z) : r == inject_Z k -> Double.nearestEven r = k.
Proof.
  intro H. unfold Double.nearestEven.
  rewrite (Qfloor_comp _ _ H), Qfloor_Z.
  assert (Hlt : Qcompare (r - inject_Z k) (1 # 2) = Lt)
    by (apply Qlt_alt; setoid_replace (r - inject_Z k) with 0
          by (rewrite H; ring); reflexivity).
  rewrite Hlt. reflexivity.
Qed.

Lemma pow2_nonpos (q : Z) :
  (q <= 0)%Z -> Double.pow2 q * inject_Z (2 ^ (- q)) == 1.
Proof.
  intro Hq. unfold Double.pow2.
  destruct (0 <=? q)%Z eqn:E.
  - apply Z.leb_le in E. assert (q = 0%Z) by lia. subst q. reflexivity.
  - assert (Hp : (0 < 2 ^ (- q))%Z) by (apply Z.pow_pos_nonneg; lia).
    field. intro H0.
    assert (2 ^ (- q) = 0)%Z by (apply inject_Z_injective; exact H0). lia.
Qed.

(** A whole number below [2^53] is a double. *)
Lemma round_whole (z : Z) :
  (0 <= z < 2 ^ 53)%Z -> Double.round (inject_Z z) = inject_Z z.
Proof.
  intros [H0 H53].
  destruct (Z.eq_dec z 0) as [-> | Hnz]; [reflexivity |].
  assert (Hpos : (0 < z)%Z) by lia.
  unfold Double.round. rewrite Qred_whole. cbv zeta.
  assert (Hne : Qeq_bool (inject_Z z) 0 = false).
  { destruct (Qeq_bool (inject_Z z) 0) eqn:E; [| reflexivity].
    apply Qeq_bool_iff in E. unfold Qeq in E. cbn [Qnum Qden inject_Z] in E.
    lia. }
  rewrite Hne.
  assert (Ha : Qabs (inject_Z z) = inject_Z z).
  { unfold Qabs, inject_Z. rewrite Z.abs_eq by lia. reflexivity. }
  rewrite Ha.
  pose proof (Z.log2_spec z Hpos) as [Hlo Hhi].
  pose proof (Z.log2_nonneg z) as He0.
  assert (He : (Z.log2 z < 53)%Z) by (apply Z.log2_lt_pow2; lia).
  set (e := Z.log2 z) in *.
  assert (Hb : Double.binade (inject_Z z) = e).
  { unfold Double.binade. cbn [Qnum Qden inject_Z]. change (Z.log2 1) with 0%Z.
    rewrite Z.sub_0_r. fold e.
    assert (Hle : Qle_bool (Double.pow2 e) (inject_Z z) = true).
    { apply Qle_bool_iff. unfold Double.pow2.
      destruct (0 <=? e)%Z eqn:E; [| apply Z.leb_gt in E; lia].
      rewrite <- Zle_Qle. exact Hlo. }
    rewrite Hle. reflexivity. }
  rewrite Hb. rewrite Z.max_l by lia.
  set (q := (e - 52)%Z).
  pose proof (pow2_nonpos q ltac:(lia)) as Hp.
  assert (Hpp : (0 < 2 ^ (- q))%Z) by (apply Z.pow_pos_nonneg; lia).
  assert (Hq : inject_Z z / Double.pow2 q == inject_Z (z * 2 ^ (- q))).
  { rewrite inject_Z_mult.
    assert (Hn0 : ~ Double.pow2 q == 0).
    { intro E. rewrite E in Hp. lra. }
    apply Qmult_inj_r with (z := Double.pow2 q); [exact Hn0 |].
    rewrite Qmult_comm, Qmult_div_r by exact Hn0.
    rewrite <- Qmult_assoc, (Qmult_comm (inject_Z (2 ^ (- q)))), Hp. ring. }
  rewrite (nearestEven_whole _ _ Hq).
  destruct (Qlt_le_dec (inject_Z z) 0) as [Hneg | _].
  { exfalso. unfold Qlt in Hneg. cbn [Qnum Qden inject_Z] in Hneg. lia. }
  rewrite <- (Qred_whole z). apply Qred_complete.
  rewrite inject_Z_mult, <- Qmult_assoc, (Qmult_comm _ (Double.pow2 q)), Hp. ring.
Qed.

Lemma add_whole (a b : Z) :
  (0 <= a + b < 2 ^ 53)%Z ->
  Double.add (inject_Z a) (inject_Z b) = inject_Z (a + b).
Proof.
  intro H. unfold Double.add.
  rewrite (round_comp _ (inject_Z (a + b))) by (rewrite inject_Z_plus; reflexivity).
  apply round_whole. exact H.
Qed.

Lemma sub_whole (a b : Z) :
  (0 <= a - b < 2 ^ 53)%Z ->
  Double.sub (inject_Z a) (inject_Z b) = inject_Z (a - b).
Proof.
  intro H. unfold Double.sub.
  rewrite (round_comp _ (inject_Z (a - b))).
  - apply round_whole. exact H.
  - unfold Z.sub, Qminus. rewrite inject_Z_plus, inject_Z_opp. reflexivity.
Qed.

Lemma mul_whole (a b : Z) :
  (0 <= a * b < 2 ^ 53)%Z ->
  Double.mul (inject_Z a) (inject_Z b) = inject_Z (a * b).
Proof.
  intro H. unfold Double.mul.
  rewrite (round_comp _ (inject_Z (a * b))) by (rewrite inject_Z_mult; reflexivity).
  apply round_whole. exact H.
Qed.

Lemma sub_comp (a a' b b' : Q) : a == a' -> b == b' -> Double.sub a b = Double.sub a' b'.
Proof. intros Ha Hb. apply round_comp. rewrite Ha, Hb. reflexivity. Qed.

(* --------------------------------------------------------------------- *)
(** *** Segmentation *)
(* --------------------------------------------------------------------- *)

Section Segmentation.

Variable audioBuffer : AudioBuffer.t.
Variable D : Q.
Hypothesis D_pos : 0 < D.

Let T := AudioBuffer.duration audioBuffer.

Lemma Qceiling_spec (x : Q) (z : Z) :
  inject_Z (z - 1) < x -> x <= inject_Z z -> Qceiling x = z.
Proof.
  intros Hlo Hhi.
  pose proof (Qle_ceiling x) as H1.
  pose proof (Qceiling_lt x) as H2.
  assert (Qceiling x <= z)%Z.
  { apply Qceiling_resp_le in Hhi. rewrite Qceiling_Z in Hhi. exact Hhi. }
  assert (z - 1 < Qceiling x)%Z.
  { rewrite Zlt_Qlt. eapply Qlt_le_trans; eauto. }
  lia.
Qed.

Lemma inject_minus1 (z : Z) : inject_Z (z - 1) == inject_Z z - 1.
Proof. unfold Z.sub. rewrite inject_Z_plus. simpl. ring. Qed.

Lemma inject_succ (i : nat) :
  inject_Z (Z.of_nat (S i)) == inject_Z (Z.of_nat i) + 1.
Proof. rewrite Nat2Z.inj_succ. unfold Z.succ. rewrite inject_Z_plus. reflexivity. Qed.

Lemma div_shift (x : Q) : (x - D) / D == x / D - 1.
Proof. field. intro H. rewrite H in D_pos. discriminate. Qed.

Lemma div_le (x z : Q) : x / D <= z <-> x <= z * D.
Proof.
  split; intro H.
  - assert (E : x == (x / D) * D) by (field; intro E; rewrite E in D_pos; discriminate).
    rewrite E. apply Qmult_le_compat_r; [exact H | apply Qlt_le_weak; exact D_pos].
  - apply Qle_shift_div_r; assumption.
Qed.

Lemma div_lt (x z : Q) : z < x / D <-> z * D < x.
Proof.
  split; intro H.
  - assert (E : x == (x / D) * D) by (field; intro E; rewrite E in D_pos; discriminate).
    rewrite E. apply Qmult_lt_compat_r; assumption.
  - apply Qlt_shift_div_l; assumption.
Qed.

Lemma div_ge (x z : Q) : z <= x / D <-> z * D <= x.
Proof.
  split; intro H.
  - assert (E : x == (x / D) * D) by (field; intro E; rewrite E in D_pos; discriminate).
    rewrite E. apply Qmult_le_compat_r; [exact H | apply Qlt_le_weak; exact D_pos].
  - apply Qle_shift_div_l; assumption.
Qed.

Local Abbreviation remaining := (remainingIterations T D).

Lemma remaining_done (s : Q) : T <= s -> remaining s = 0%nat.
Proof.
  intro H. unfold remainingIterations.
  assert (Hc : (Qceiling ((T - s) / D) <= 0)%Z).
  { rewrite <- (Qceiling_Z 0). apply Qceiling_resp_le.
    apply div_le. change (inject_Z 0) with 0. lra. }
  lia.
Qed.

Lemma remaining_step (s : Q) :
  s < T -> remaining s = S (remaining (s + D)).
Proof.
  intro H. unfold remainingIterations.
  set (c := Qceiling ((T - s) / D)).
  assert (Hpos : (0 < c)%Z).
  { rewrite Zlt_Qlt. eapply Qlt_le_trans; [| apply Qle_ceiling].
    apply div_lt. change (inject_Z 0) with 0. lra. }
  assert (Hnext : Qceiling ((T - (s + D)) / D) = (c - 1)%Z).
  { apply Qceiling_spec.
    - assert (E : (T - (s + D)) / D == (T - s) / D - 1).
      { rewrite <- div_shift. apply Qdiv_comp; [ring | reflexivity]. }
      rewrite E. rewrite (inject_minus1 (c - 1)), (inject_minus1 c).
      pose proof (Qceiling_lt ((T - s) / D)) as H1. fold c in H1.
      rewrite inject_minus1 in H1. lra.
    - assert (E : (T - (s + D)) / D == (T - s) / D - 1).
      { rewrite <- div_shift. apply Qdiv_comp; [ring | reflexivity]. }
      rewrite E. rewrite (inject_minus1 c).
      pose proof (Qle_ceiling ((T - s) / D)) as H1. fold c in H1. lra. }
  rewrite Hnext. lia.
Qed.

Notation "# i" := (inject_Z (Z.of_nat i)) (at level 5, format "# i").

Lemma count_remaining : segmentCount T D = remaining 0.
Proof.
  unfold segmentCount, remainingIterations. f_equal. apply Qceiling_comp.
  apply Qdiv_comp; [ring | reflexivity].
Qed.

Lemma mul_le_mono (a b : Q) : a <= b -> a * D <= b * D.
Proof. intro H. apply Qmult_le_compat_r; [exact H | apply Qlt_le_weak, D_pos]. Qed.

Lemma nat_le_inject (i j : nat) : (i <= j)%nat -> #i <= #j.
Proof. intro H. rewrite <- Zle_Qle. lia. Qed.

Hypothesis T_pos : 0 < T.

Lemma ceiling_pos : (0 < Qceiling (T / D))%Z.
Proof.
  rewrite Zlt_Qlt. eapply Qlt_le_trans; [| apply Qle_ceiling].
  apply div_lt. change (inject_Z 0) with 0. lra.
Qed.

Lemma count_pos : (1 <= segmentCount T D)%nat.
Proof. unfold segmentCount. pose proof ceiling_pos. lia. Qed.

Lemma count_inject : #(segmentCount T D) == inject_Z (Qceiling (T / D)).
Proof. unfold segmentCount. pose proof ceiling_pos. rewrite Z2Nat.id by lia. reflexivity. Qed.

(** Every window but the last ends before the audio does. *)
Lemma below_count (i : nat) : (i < segmentCount T D)%nat -> #i * D < T.
Proof.
  intro H. apply div_lt.
  eapply Qle_lt_trans; [| apply Qceiling_lt].
  rewrite <- Zle_Qle. unfold segmentCount in H. pose proof ceiling_pos. lia.
Qed.

(** The last window reaches the end of the audio. *)
Lemma count_reaches : T <= #(segmentCount T D) * D.
Proof. rewrite count_inject. apply div_le. apply Qle_ceiling. Qed.

Lemma rem_nonzero_floor :
  ~ rem T D == 0 -> Qceiling (T / D) = (Qfloor (T / D) + 1)%Z.
Proof.
  intro Hne. apply Qceiling_spec.
  - replace (Qfloor (T / D) + 1 - 1)%Z with (Qfloor (T / D)) by lia.
    apply div_lt.
    pose proof (Qfloor_le (T / D)) as Hle. apply div_ge in Hle.
    unfold rem in Hne.
    destruct (Qlt_le_dec (inject_Z (Qfloor (T / D)) * D) T) as [Hlt | Hge];
      [exact Hlt |].
    exfalso. apply Hne. lra.
  - apply Qlt_le_weak, Qlt_floor.
Qed.

Lemma rem_zero_floor :
  rem T D == 0 -> Qceiling (T / D) = Qfloor (T / D).
Proof.
  intro H0. unfold rem in H0.
  assert (E : T / D == inject_Z (Qfloor (T / D))).
  { assert (ET : T == inject_Z (Qfloor (T / D)) * D) by lra.
    rewrite ET at 1. field. intro E0. rewrite E0 in D_pos. discriminate. }
  rewrite (Qceiling_comp _ _ E). apply Qceiling_Z.
Qed.

(** Length of the last window, in the two cases of the remainder. *)
Lemma last_length :
  T - #(segmentCount T D - 1) * D == lastLength T D.
Proof.
  assert (Hn : #(segmentCount T D - 1) == inject_Z (Qceiling (T / D)) - 1).
  { pose proof count_pos. rewrite <- count_inject.
    replace (segmentCount T D) with (S (segmentCount T D - 1)) at 2 by lia.
    rewrite inject_succ. ring. }
  rewrite Hn. unfold lastLength.
  destruct (Qeq_bool (rem T D) 0) eqn:Hr.
  - apply Qeq_bool_iff in Hr. rewrite (rem_zero_floor Hr).
    unfold rem in Hr. lra.
  - assert (Hne : ~ rem T D == 0).
    { intro H0. apply Qeq_bool_iff in H0. congruence. }
    rewrite (rem_nonzero_floor Hne). unfold rem.
    rewrite inject_Z_plus. change (inject_Z 1) with 1. ring.
Qed.

(** The index of the window that holds the instant [t]. *)
Lemma window_index (t : Q) :
  0 <= t -> t < T ->
  exists i : nat,
    (i < segmentCount T D)%nat /\ #i * D <= t /\ t < #(S i) * D.
Proof.
  intros H0 Ht.
  assert (Hf : (0 <= Qfloor (t / D))%Z).
  { rewrite <- (Qfloor_Z 0). apply Qfloor_resp_le.
    apply Qle_shift_div_l; [exact D_pos |]. change (inject_Z 0) with 0. lra. }
  exists (Z.to_nat (Qfloor (t / D))).
  assert (Ei : #(Z.to_nat (Qfloor (t / D))) == inject_Z (Qfloor (t / D))).
  { rewrite Z2Nat.id by lia. reflexivity. }
  assert (Hlo : #(Z.to_nat (Qfloor (t / D))) * D <= t).
  { rewrite Ei. apply div_ge. apply Qfloor_le. }
  split; [| split].
  - assert (Hlt : inject_Z (Qfloor (t / D)) < inject_Z (Qceiling (T / D))).
    { eapply Qlt_le_trans; [| apply Qle_ceiling].
      apply div_lt. rewrite <- Ei. lra. }
    rewrite <- Zlt_Qlt in Hlt. unfold segmentCount. lia.
  - exact Hlo.
  - rewrite inject_succ, Ei.
    pose proof (Qlt_floor (t / D)) as Hup.
    rewrite inject_Z_plus in Hup. change (inject_Z 1) with 1 in Hup.
    assert (Hd : t / D < inject_Z (Qfloor (t / D)) + 1) by exact Hup.
    assert (Et : t == (t / D) * D)
      by (field; intro E0; rewrite E0 in D_pos; discriminate).
    rewrite Et at 1. apply Qmult_lt_compat_r; assumption.
Qed.

End Segmentation.

Section WholeSeconds.

Variable notSupported : Thrown.
Variable audioBuffer : AudioBuffer.t.
Variables d r : Z.

Local Abbreviation T := (AudioBuffer.duration audioBuffer).
Local Abbreviation rate := (AudioBuffer.sampleRate audioBuffer).
Local Abbreviation D := (inject_Z d).
Local Abbreviation n := (segmentCount T D).
Local Abbreviation start i := (inject_Z (Z.of_nat i * d)).
Local Abbreviation lastFrames :=
  (ToUint 32 (Double.mul (Double.sub T (start (n - 1))) rate)).

Hypothesis d_pos : (1 <= d)%Z.
Hypothesis r_pos : (1 <= r)%Z.
Hypothesis rate_whole : rate = inject_Z r.
Hypothesis T_pos : 0 < T.
Hypothesis below_2_53 : (T + D) * rate <= inject_Z (2 ^ 53).
Hypothesis below_2_32 : (d * r < 2 ^ 32)%Z.
Hypothesis last_accepted : lastFrames <> 0%Z.

Lemma whole_D_pos : 0 < D.
Proof. change 0 with (inject_Z 0). rewrite <- Zlt_Qlt. lia. Qed.

Lemma start_scaled (i : nat) : inject_Z (Z.of_nat i) * D = start i.
Proof. reflexivity. Qed.

Lemma remaining_comp (s s' : Q) :
  s == s' -> remainingIterations T D s = remainingIterations T D s'.
Proof.
  intro H. unfold remainingIterations. f_equal. apply Qceiling_comp.
  rewrite H. reflexivity.
Qed.

(** Below the end of the audio, whole seconds and whole frames stay below
    [2^53]. *)
Lemma below_end (a : Z) : inject_Z a < T -> ((a + d) * r < 2 ^ 53)%Z.
Proof.
  intro H. rewrite Zlt_Qlt. eapply Qlt_le_trans; [| exact below_2_53].
  rewrite rate_whole, inject_Z_mult, inject_Z_plus.
  apply Qmult_lt_compat_r.
  - change 0 with (inject_Z 0). rewrite <- Zlt_Qlt. lia.
  - lra.
Qed.

Lemma start_step (i : nat) :
  start i < T -> Double.add (start i) D = start (S i).
Proof.
  intro H. pose proof (below_end _ H) as Hb.
  rewrite add_whole by nia. f_equal. lia.
Qed.

Lemma start_index (i : nat) :
  start i < T ->
  Math_floor (Double.mul (start i) rate) = (Z.of_nat i * (d * r))%Z.
Proof.
  intro H. pose proof (below_end _ H) as Hb.
  rewrite rate_whole, mul_whole by nia.
  unfold Math_floor. rewrite Qfloor_Z. lia.
Qed.

Lemma ToUint_whole (k : Z) : (0 <= k < 2 ^ 32)%Z -> ToUint 32 (inject_Z k) = k.
Proof.
  intro H. unfold ToUint, Math_trunc.
  destruct (Qlt_le_dec (inject_Z k) 0) as [Hneg | _].
  - exfalso. unfold Qlt in Hneg. cbn [Qnum Qden inject_Z] in Hneg. lia.
  - rewrite Qfloor_Z. apply Z.mod_small. exact H.
Qed.

Lemma below_count_start (i : nat) : (i < n)%nat -> start i < T.
Proof. intro H. exact (below_count audioBuffer D whole_D_pos T_pos i H). Qed.

Lemma start_below_count (i : nat) : start i < T -> (i < n)%nat.
Proof.
  intro H. destruct (Nat.lt_ge_cases i n) as [Hlt | Hge]; [exact Hlt |].
  exfalso.
  pose proof (count_reaches audioBuffer D whole_D_pos T_pos) as Hr.
  pose proof (mul_le_mono D whole_D_pos _ _ (nat_le_inject _ _ Hge)) as Hm.
  rewrite start_scaled in Hm.
  assert (T <= start i) by (eapply Qle_trans; [exact Hr | exact Hm]).
  lra.
Qed.

(** The frames [createBuffer] gives the segment at position [i]. *)
Local Abbreviation frames i :=
  (ToUint 32 (Double.mul (Double.sub (Qmin (start (S i)) T) (start i)) rate)).

Lemma frames_full (i : nat) : (S i < n)%nat -> frames i = (d * r)%Z.
Proof.
  intro H. pose proof (below_count_start _ H) as Hlt.
  pose proof (below_end _ Hlt) as Hb.
  rewrite (sub_comp _ (start (S i)) _ (start i)); [| | reflexivity].
  - rewrite sub_whole by nia.
    replace (Z.of_nat (S i) * d - Z.of_nat i * d)%Z with d by lia.
    rewrite rate_whole, mul_whole by nia.
    apply ToUint_whole. nia.
  - apply Q.min_l. apply Qlt_le_weak. exact Hlt.
Qed.

Lemma frames_last : frames (n - 1) = lastFrames.
Proof.
  pose proof (count_pos audioBuffer D whole_D_pos T_pos) as Hn.
  rewrite (sub_comp _ T _ (start (n - 1))); [reflexivity | | reflexivity].
  apply Q.min_r. replace (S (n - 1)) with n by lia.
  exact (count_reaches audioBuffer D whole_D_pos T_pos).
Qed.

Lemma frames_accepted (i : nat) :
  (i < n)%nat ->
  frames i = (if (S i <? n)%nat then (d * r)%Z else lastFrames) /\
  frames i <> 0%Z.
Proof.
  intro H. destruct (S i <? n)%nat eqn:E.
  - apply Nat.ltb_lt in E. rewrite (frames_full i E). split; [reflexivity | nia].
  - apply Nat.ltb_ge in E. replace i with (n - 1)%nat by lia.
    rewrite frames_last. split; [reflexivity | exact last_accepted].
Qed.

(** From the start of segment [i] on, the loop pushes the segments at the
    positions [i], [i + 1], ... up to the last. *)
Lemma splitLoop_whole (fuel : nat) :
  forall (i : nat) (acc : list AudioSegment.t),
    (remainingIterations T D (start i) < fuel)%nat ->
    exists xs,
      splitLoop fuel notSupported audioBuffer D (start i) acc
      = Some (Returned (acc ++ xs)) /\
      List.length xs = remainingIterations T D (start i) /\
      forall (j : nat) (seg : AudioSegment.t),
        nth_error xs j = Some seg ->
        seg = wholeSegment audioBuffer d r n lastFrames (i + j).
Proof.
  induction fuel as [| fuel IH]; intros i acc Hfuel; [lia |].
  cbn [splitLoop].
  destruct (Qlt_le_dec (start i) T) as [Hlt | Hge].
  - rewrite (remaining_step audioBuffer D whole_D_pos (start i) Hlt)
      in Hfuel |- *.
    rewrite (remaining_comp (start i + D) (start (S i))) in Hfuel |- *
      by (rewrite <- inject_Z_plus; apply inject_Z_injective; lia).
    pose proof (start_below_count i Hlt) as Hi.
    destruct (frames_accepted i Hi) as [Hfr Hnz].
    rewrite (start_step i Hlt), (start_index i Hlt).
    unfold createBuffer, Math_min. cbv zeta.
    apply Z.eqb_neq in Hnz. rewrite Hnz, Hfr.
    match goal with
    | |- context [splitLoop fuel _ _ _ _ (acc ++ [?sg])] =>
        destruct (IH (S i) (acc ++ [sg])) as (xs & Hrun & Hlen & Hnth);
        [lia |]; exists (sg :: xs)
    end.
    split; [rewrite Hrun, <- app_assoc; reflexivity |].
    split; [cbn [List.length]; rewrite Hlen; reflexivity |].
    intros [| j] seg Hj.
    + injection Hj as <-. rewrite Nat.add_0_r. reflexivity.
    + cbn [nth_error] in Hj. rewrite (Hnth j seg Hj). f_equal. lia.
  - rewrite (remaining_done audioBuffer D whole_D_pos (start i) Hge).
    exists []. split; [rewrite app_nil_r; reflexivity |].
    split; [reflexivity |].
    intros [| j] seg Hj; discriminate Hj.
Qed.

(** Cut every whole number of seconds, the audio falls into [ceil(T/D)]
    segments, the one at position [i] being [wholeSegment ... i]. *)
Lemma split_whole_seconds (fuel : nat) :
  (n < fuel)%nat ->
  exists segments,
    splitAudioIntoSegments fuel notSupported audioBuffer D
    = Some (Returned segments) /\
    List.length segments = n /\
    forall (i : nat) (seg : AudioSegment.t),
      nth_error segments i = Some seg ->
      seg = wholeSegment audioBuffer d r n lastFrames i.
Proof.
  intro Hfuel.
  assert (Hn : n = remainingIterations T D (start 0)).
  { rewrite (count_remaining audioBuffer D). apply remaining_comp. reflexivity. }
  destruct (splitLoop_whole fuel 0 []) as (xs & Hrun & Hlen & Hnth);
    [lia |].
  exists xs. split; [exact Hrun |]. split; [lia |]. exact Hnth.
Qed.

End WholeSeconds.

(** C1, where the code departs from it.  With the default segment
    duration of 30 seconds, audio decoded to 1,323,001 frames per channel
    at 44,100 frames per second lasts a little more than 30 seconds, so
    [ceil(T/D) = 2]; the length computed for the second segment,
    [(T - 30) * 44100] in doubles, lies below one frame, [createBuffer]
    refuses it, and the call is rejected: no segment is returned.  With
    3,633,840 frames ([T] the double 82.4) and [D] the double 10.3, eight additions of [D]
    stay below [T] although [ceil(T/D) = 8]; the loop enters a ninth
    iteration, whose segment has no frame, and the call is rejected as
    well. *)
Theorem split_rejects_a_segment_below_one_frame
    (notSupported : Thrown) (fuel : nat) :
  let audioBuffer := AudioBuffer.decoded 1323001 44100 2 in
  let T := AudioBuffer.duration audioBuffer in
  let audioBuffer' := AudioBuffer.decoded 3633840 44100 2 in
  let T' := AudioBuffer.duration audioBuffer' in
  let D' := Double.round (103 # 10) in
  (0 < T /\ segmentCount T 30 = 2%nat /\
   splitAudioIntoSegments (2 + fuel) notSupported audioBuffer 30
   = Some (Threw notSupported)) /\
  (T' = Double.round (824 # 10) /\ segmentCount T' D' = 8%nat /\
   Nat.iter 8 (fun startTime => Double.add startTime D') 0 < T' /\
   splitAudioIntoSegments (9 + fuel) notSupported audioBuffer' D'
   = Some (Threw notSupported)).
Proof.
  cbv zeta. split.
  - split; [reflexivity |]. split; vm_compute; reflexivity.
  - split; [vm_compute; reflexivity |].
    split; [vm_compute; reflexivity |].
    split; vm_compute; reflexivity.
Qed.

(* --------------------------------------------------------------------- *)
(** *** Segment analysis *)
(* --------------------------------------------------------------------- *)

Lemma matchBraces_shape (text span : string) :
  matchBraces text = Some span -> exists rest, span = String "{" rest.
Proof.
  unfold matchBraces. intro H.
  destruct (afterFirstOpen text) as [rest |]; [| discriminate].
  destruct (uptoLastClose rest) as [body |]; [| discriminate].
  injection H as <-. exists body. reflexivity.
Qed.

Ltac run_eff :=
  cbn [bind lift ret throw emit try_catch trace outcome fst snd app].

Section AnalyzerFacts.

Variable JSON_parse : string -> Result Json.
Variable segment : AudioSegment.t.

Let t0 := AudioSegment.startTime segment.
Let t1 := AudioSegment.endTime segment.

(** What the analyzer does when the first response has no brace span. *)
Lemma analyze_no_span (text : string) (reply2 : Result string) :
  matchBraces text = None ->
  analyzeAudioSegment JSON_parse (Returned text) reply2 segment =
    ([EvModel (AnalysisPrompt t0 t1);
      EvConsole LvError parseErrorLabel (Some (JsError jsonNotFound))],
     Threw (JsError analysisFailed)).
Proof.
  intro H. unfold analyzeAudioSegment. run_eff. rewrite H. reflexivity.
Qed.

(** ... when [JSON.parse] rejects the span. *)
Lemma analyze_bad_json (text span : string) (e : Thrown) (reply2 : Result string) :
  matchBraces text = Some span ->
  JSON_parse span = Threw e ->
  analyzeAudioSegment JSON_parse (Returned text) reply2 segment =
    ([EvModel (AnalysisPrompt t0 t1);
      EvConsole LvError parseErrorLabel (Some e)],
     Threw (JsError analysisFailed)).
Proof.
  intros H1 H2. unfold analyzeAudioSegment. run_eff. rewrite H1.
  run_eff. rewrite H2. reflexivity.
Qed.

(** ... when one of the three fields is missing or falsy. *)
Lemma analyze_missing_field (text span : string)
    (ms : list (string * Json)) (reply2 : Result string) :
  matchBraces text = Some span ->
  JSON_parse span = Returned (JObj ms) ->
  truthy (lookup_last "story" ms) = false \/
  truthy (lookup_last "visual" ms) = false \/
  truthy (lookup_last "emotion" ms) = false ->
  analyzeAudioSegment JSON_parse (Returned text) reply2 segment =
    ([EvModel (AnalysisPrompt t0 t1);
      EvConsole LvError parseErrorLabel (Some (JsError infoMissing))],
     Threw (JsError analysisFailed)).
Proof.
  intros H1 H2 Hf. unfold analyzeAudioSegment. run_eff. rewrite H1.
  run_eff. rewrite H2. cbn [prop]. run_eff.
  destruct (truthy (lookup_last "story" ms)) eqn:Es; [| reflexivity].
  run_eff.
  destruct (truthy (lookup_last "visual" ms)) eqn:Ev; [| reflexivity].
  run_eff.
  destruct (truthy (lookup_last "emotion" ms)) eqn:Ee; [| reflexivity].
  destruct Hf as [Hf | [Hf | Hf]]; discriminate Hf.
Qed.

Section PrimaryOk.

Variables (text span : string) (ms : list (string * Json)).
Hypothesis Hspan : matchBraces text = Some span.
Hypothesis Hparse : JSON_parse span = Returned (JObj ms).
Hypothesis Hstory : truthy (lookup_last "story" ms) = true.
Hypothesis Hvisual : truthy (lookup_last "visual" ms) = true.
Hypothesis Hemotion : truthy (lookup_last "emotion" ms) = true.

(** The second response parses to an object: the analysis is returned,
    with the object's [imagePrompt] or the empty string. *)
Lemma analyze_prompt_object (promptText : string)
    (ms2 : list (string * Json)) :
  JSON_parse (promptSource promptText) = Returned (JObj ms2) ->
  analyzeAudioSegment JSON_parse (Returned text) (Returned promptText)
    segment =
    ([EvModel (AnalysisPrompt t0 t1);
      EvModel (PromptGenerationPrompt t0 t1 (JObj ms))],
     Returned
       (SegmentAnalysis.mk t0 t1
          (lookup_last "story" ms) (lookup_last "visual" ms)
          (lookup_last "emotion" ms)
          (or_else (lookup_last "imagePrompt" ms2) (Some (JStr ""))))).
Proof.
  intro H2. unfold analyzeAudioSegment. run_eff. rewrite Hspan.
  run_eff. rewrite Hparse. cbn [prop]. run_eff. rewrite Hstory. run_eff.
  rewrite Hvisual. run_eff. rewrite Hemotion. run_eff.
  rewrite H2. reflexivity.
Qed.

(** The second call throws: the analysis fails. *)
Lemma analyze_prompt_call_throws (e : Thrown) :
  analyzeAudioSegment JSON_parse (Returned text) (Threw e) segment =
    ([EvModel (AnalysisPrompt t0 t1);
      EvModel (PromptGenerationPrompt t0 t1 (JObj ms));
      EvConsole LvError parseErrorLabel (Some e)],
     Threw (JsError analysisFailed)).
Proof.
  unfold analyzeAudioSegment. run_eff. rewrite Hspan.
  run_eff. rewrite Hparse. cbn [prop]. run_eff. rewrite Hstory. run_eff.
  rewrite Hvisual. run_eff. rewrite Hemotion. reflexivity.
Qed.

End PrimaryOk.

End AnalyzerFacts.

(** C4.  When the first response contains no brace span, or its span is not
    valid JSON, or the parsed object lacks (or has a falsy value for) one of
    [story], [visual], [emotion], [analyzeAudioSegment] throws: it logs the
    malformed-response error it raised, makes no second model call and
    returns no result, partial or otherwise. *)
Theorem analysis_rejects_malformed_response
    (JSON_parse : string -> Result Json) (segment : AudioSegment.t)
    (text : string) (reply2 : Result string) (cause : Thrown) :
  Malformed JSON_parse text cause ->
  analyzeAudioSegment JSON_parse (Returned text) reply2 segment =
    ([EvModel (AnalysisPrompt (AudioSegment.startTime segment)
                 (AudioSegment.endTime segment));
      EvConsole LvError parseErrorLabel (Some cause)],
     Threw (JsError analysisFailed)).
Proof.
  intros [Hnone | span e Hspan Hparse | span ms Hspan Hparse Hfalsy].
  - apply analyze_no_span; assumption.
  - eapply analyze_bad_json; eassumption.
  - eapply analyze_missing_field; eassumption.
Qed.

(** Witness for C4: a response object without [emotion]. *)
Lemma analysis_rejects_malformed_response_witness :
  outcome (analyzeAudioSegment MiniJson.parse (Returned Demo.noEmotionText)
             (Returned "{}") Demo.segment)
  = Threw (JsError analysisFailed).
Proof.
  rewrite (analysis_rejects_malformed_response MiniJson.parse Demo.segment
             Demo.noEmotionText (Returned "{}") (JsError infoMissing)).
  - reflexivity.
  - eapply FieldMissing.
    + vm_compute. reflexivity.
    + vm_compute. reflexivity.
    + right. right. vm_compute. reflexivity.
Defined.

(** C3, as stated, fails: with a well-formed first response and a second
    model call that throws, the analysis does not return. *)
Lemma analysis_prompt_call_throws_counterexample :
  ~ exists a : SegmentAnalysis.t,
      outcome (analyzeAudioSegment MiniJson.parse (Returned Demo.analysisText)
                 (Threw (JsError "503 Service Unavailable")) Demo.segment)
      = Returned a /\
      SegmentAnalysis.imagePrompt a = Some (JStr "").
Proof.
  intros (a & Hrun & _). vm_compute in Hrun. discriminate Hrun.
Qed.

(** C3, amended.  Let the first response be well formed ([story], [visual],
    [emotion] parsed and truthy).  If the second response text contains no
    brace span, or its span parses to an object whose [imagePrompt] is
    missing or falsy, [analyzeAudioSegment] returns the parsed
    [story]/[visual]/[emotion] with [imagePrompt] equal to the empty string.
    If the second model call throws, the whole analysis fails with the
    generic error. *)
Theorem analysis_prompt_soft_fail
    (JSON_parse : string -> Result Json) (segment : AudioSegment.t)
    (text span : string) (ms : list (string * Json)) :
  matchBraces text = Some span ->
  JSON_parse span = Returned (JObj ms) ->
  truthy (lookup_last "story" ms) = true ->
  truthy (lookup_last "visual" ms) = true ->
  truthy (lookup_last "emotion" ms) = true ->
  JSON_parse "{}" = Returned (JObj []) ->
  let degraded :=
    SegmentAnalysis.mk (AudioSegment.startTime segment)
      (AudioSegment.endTime segment)
      (lookup_last "story" ms) (lookup_last "visual" ms)
      (lookup_last "emotion" ms) (Some (JStr "")) in
  (forall promptText,
     matchBraces promptText = None ->
     outcome (analyzeAudioSegment JSON_parse (Returned text)
                (Returned promptText) segment) = Returned degraded) /\
  (forall promptText span2 ms2,
     matchBraces promptText = Some span2 ->
     JSON_parse span2 = Returned (JObj ms2) ->
     truthy (lookup_last "imagePrompt" ms2) = false ->
     outcome (analyzeAudioSegment JSON_parse (Returned text)
                (Returned promptText) segment) = Returned degraded) /\
  (forall e,
     outcome (analyzeAudioSegment JSON_parse (Returned text) (Threw e) segment)
     = Threw (JsError analysisFailed)).
Proof.
  intros Hspan Hparse Hs Hv He Hempty degraded.
  split; [| split].
  - intros promptText Hnone.
    rewrite (analyze_prompt_object JSON_parse segment text span ms
               Hspan Hparse Hs Hv He promptText []).
    + reflexivity.
    + unfold promptSource. rewrite Hnone. exact Hempty.
  - intros promptText span2 ms2 Hspan2 Hparse2 Hfalsy.
    rewrite (analyze_prompt_object JSON_parse segment text span ms
               Hspan Hparse Hs Hv He promptText ms2).
    + cbn [outcome snd]. unfold or_else. rewrite Hfalsy. reflexivity.
    + unfold promptSource. rewrite Hspan2.
      destruct (matchBraces_shape _ _ Hspan2) as [rest ->].
      cbn [String.eqb]. exact Hparse2.
  - intro e.
    rewrite (analyze_prompt_call_throws JSON_parse segment text span ms
               Hspan Hparse Hs Hv He e).
    reflexivity.
Qed.

(** Witness for the amended C3: a second response without any JSON. *)
Lemma analysis_prompt_soft_fail_witness :
  outcome (analyzeAudioSegment MiniJson.parse (Returned Demo.analysisText)
             (Returned "Sorry, I cannot help with that.") Demo.segment)
  = Returned
      (SegmentAnalysis.mk 0 30 (Some (JStr "a night train"))
         (Some (JStr "deep blue")) (Some (JStr "longing")) (Some (JStr ""))).
Proof.
  refine (proj1 (analysis_prompt_soft_fail MiniJson.parse Demo.segment
                   Demo.analysisText _ Demo.analysisMembers
                   _ _ _ _ _ _) _ _).
  - vm_compute. reflexivity.
  - vm_compute. reflexivity.
  - reflexivity.
  - reflexivity.
  - reflexivity.
  - vm_compute. reflexivity.
  - vm_compute. reflexivity.
Defined.

(* --------------------------------------------------------------------- *)
(** *** Polling *)
(* --------------------------------------------------------------------- *)

Lemma timeline_app (a b : list Event) :
  timeline (a ++ b) = timeline a ++ timeline b.
Proof.
  induction a as [| ev a IH]; [reflexivity |].
  destruct ev; cbn [timeline app]; rewrite IH; reflexivity.
Qed.

Lemma trace_bind {A B} (m : Eff A) (k : A -> Eff B) :
  fst (bind m k) =
  fst m ++ match snd m with Returned a => fst (k a) | Threw _ => [] end.
Proof.
  unfold bind. destruct (snd m); cbn [fst]; [reflexivity |].
  rewrite app_nil_r. reflexivity.
Qed.

Lemma outcome_bind {A B} (m : Eff A) (k : A -> Eff B) :
  snd (bind m k) =
  match snd m with Returned a => snd (k a) | Threw e => Threw e end.
Proof. unfold bind. destruct (snd m); reflexivity. Qed.

Lemma trace_try_catch {A} (m : Eff A) (h : Thrown -> Eff A) :
  fst (try_catch m h) =
  fst m ++ match snd m with Returned _ => [] | Threw e => fst (h e) end.
Proof.
  unfold try_catch. destruct (snd m); cbn [fst]; [| reflexivity].
  rewrite app_nil_r. reflexivity.
Qed.

Lemma outcome_try_catch {A} (m : Eff A) (h : Thrown -> Eff A) :
  snd (try_catch m h) =
  match snd m with Returned a => Returned a | Threw e => snd (h e) end.
Proof. unfold try_catch. destruct (snd m); reflexivity. Qed.

(** Case analysis on every [match] of the goal, then evaluation. *)
Ltac crush_cases :=
  unfold bind, try_catch, lift, ret, throw, emit;
  repeat (cbn [fst snd app timeline posts req_method negb andb];
          match goal with
          | |- context [match ?x with _ => _ end] => destruct x eqn:?
          | |- context [if ?x then _ else _] => destruct x eqn:?
          end);
  cbn [fst snd app timeline posts req_method negb andb];
  try reflexivity.

(** Working out the failure reason of a rejected request touches neither
    the network nor the timer, and always yields a value. *)
Lemma errorMessageOf_timeline (m : string) (response : Response.t) :
  timeline (fst (errorMessageOf m response)) = [].
Proof. unfold errorMessageOf. crush_cases. Qed.

Lemma withStatus_nonempty (m : string) (response : Response.t) :
  String.eqb (withStatus m response) "" = false.
Proof. unfold withStatus. destruct m; reflexivity. Qed.

(** It always yields a value, and a truthy one when the initial message is
    not empty. *)
Lemma errorMessageOf_returns (m : string) (response : Response.t) :
  exists v,
    snd (errorMessageOf m response) = Returned v /\
    (String.eqb m "" = false -> truthy v = true).
Proof.
  unfold errorMessageOf, or_else.
  assert (Hws : truthy (Some (JStr (withStatus m response))) = true).
  { cbn [truthy]. rewrite withStatus_nonempty. reflexivity. }
  unfold bind, try_catch, lift, ret, throw, emit.
  destruct (Response.json response) as [errorData | e]; cbn [fst snd];
    [| eexists; split; [reflexivity | intros _; exact Hws]].
  destruct (prop (Some errorData) "detail") as [detail | e]; cbn [fst snd];
    [| eexists; split; [reflexivity | intros _; exact Hws]].
  destruct (strict_eq_str detail "Insufficient credits"); cbn [fst snd];
    [eexists; split; [reflexivity | intros _; reflexivity] |].
  destruct (prop (Some errorData) "message") as [message | e]; cbn [fst snd];
    [| eexists; split; [reflexivity | intros _; exact Hws]].
  eexists; split; [reflexivity |]. intro Hm.
  destruct (truthy detail) eqn:Ed; [exact Ed |].
  destruct (truthy message) eqn:Em; [exact Em |].
  cbn [truthy]. rewrite Hm. reflexivity.
Qed.

Section Polling.

Variable import_meta_env : string -> option string.
Variable service : Service.t.
Variable id : Value.

Local Abbreviation pollOnce' := (pollOnce import_meta_env service id).
Local Abbreviation pollLoop' := (pollLoop import_meta_env service id).

Lemma pollLoop_step (attempts : nat) :
  pollLoop' attempts =
  if lt_dec attempts maxAttempts then
    r <- pollOnce' attempts ;;
    match r with
    | Some response => ret response
    | None => emit (EvSleep pollingInterval) ;;; pollLoop' (S attempts)
    end
  else throw (JsError timedOut).
Proof.
  rewrite (pollLoop_equation_1 import_meta_env service id attempts).
  destruct (lt_dec attempts maxAttempts);
    [rewrite pollLoop_clause_1_equation_1
    | rewrite pollLoop_clause_1_equation_2]; reflexivity.
Qed.

(** One pass through the loop body sends exactly one status query and
    never waits. *)
Lemma pollOnce_timeline (attempts : nat) :
  timeline (fst (pollOnce' attempts)) = [Query].
Proof.
  unfold pollOnce. crush_cases;
    rewrite ?timeline_app, ?errorMessageOf_timeline; reflexivity.
Qed.

Lemma pollOnce_running (attempts : nat) :
  stillRunning (Service.poll service attempts) = true ->
  snd (pollOnce' attempts) = Returned None.
Proof.
  intro H. unfold stillRunning in H.
  destruct (Service.poll service attempts) as [response | e] eqn:Hr;
    [| discriminate].
  destruct (Response.ok response) eqn:Hok; [| discriminate].
  destruct (Response.json response) as [status | e] eqn:Hj; [| discriminate].
  destruct (prop (Some status) "state") as [st | e] eqn:Est; [| discriminate].
  cbn [andb] in H. apply andb_prop in H. destruct H as [Hc Hf].
  apply negb_true_iff in Hc, Hf.
  unfold pollOnce. rewrite Hr. unfold bind, lift, emit, ret.
  cbn [fst snd]. rewrite Hok, Hj. cbn [fst snd negb]. rewrite Est.
  cbn [fst snd]. rewrite Hc, Hf. reflexivity.
Qed.

Lemma pollOnce_completed (attempts : nat) (ms : list (string * Json)) :
  reports (Service.poll service attempts) "completed" ms ->
  snd (pollOnce' attempts) = Returned (Some (completedJob ms)).
Proof.
  intros (response & Hr & Hok & Hj & Hst). unfold pollOnce.
  rewrite Hr. unfold bind, lift, emit, ret. cbn [fst snd].
  rewrite Hok, Hj. cbn [fst snd negb prop]. rewrite Hst.
  cbn [strict_eq_str String.eqb Ascii.eqb Bool.eqb fst snd].
  reflexivity.
Qed.

Lemma pollOnce_failed (attempts : nat) (ms : list (string * Json)) :
  reports (Service.poll service attempts) "failed" ms ->
  snd (pollOnce' attempts) = Returned (Some (failedJob ms)).
Proof.
  intros (response & Hr & Hok & Hj & Hst). unfold pollOnce.
  rewrite Hr. unfold bind, lift, emit, ret. cbn [fst snd].
  rewrite Hok, Hj. cbn [fst snd negb prop]. rewrite Hst.
  cbn [strict_eq_str String.eqb Ascii.eqb Bool.eqb fst snd].
  reflexivity.
Qed.

(** The loop from [attempts] on: it queries, waits the polling interval,
    queries again, ... and either stops right after a query or, having
    used all attempts, throws the timeout error. *)
Lemma pollLoop_shape (n : nat) :
  forall attempts : nat,
    (attempts + n = maxAttempts)%nat ->
    exists k : nat,
      (k < n)%nat /\
        timeline (fst (pollLoop' attempts)) = rounds k ++ [Query]
      \/
      k = n /\
        timeline (fst (pollLoop' attempts)) = rounds n /\
        snd (pollLoop' attempts) = Threw (JsError timedOut).
Proof.
  induction n as [| n IH]; intros attempts Hsum; rewrite pollLoop_step.
  - destruct (lt_dec attempts maxAttempts) as [Hlt | _]; [lia |].
    exists 0%nat. right. repeat split; reflexivity.
  - destruct (lt_dec attempts maxAttempts) as [_ | Hge]; [| lia].
    rewrite trace_bind, outcome_bind, timeline_app, pollOnce_timeline.
    destruct (snd (pollOnce' attempts)) as [[response | ] | e].
    + exists 0%nat. left. split; [lia | reflexivity].
    + destruct (IH (S attempts)) as (k & [[Hk Ht] | (Hk & Ht & Ho)]); [lia | |].
      * exists (S k). left. split; [lia |].
        rewrite trace_bind. cbn [emit fst snd app timeline rounds].
        rewrite Ht. reflexivity.
      * exists (S k). right. split; [lia |]. subst k. split.
        -- rewrite trace_bind. cbn [emit fst snd app timeline rounds].
           rewrite Ht. reflexivity.
        -- rewrite outcome_bind. cbn [emit snd]. exact Ho.
    + exists 0%nat. left. split; [lia | reflexivity].
Qed.

(** While the replies say the job is still running, the loop keeps
    going round. *)
Lemma pollLoop_skip (k : nat) :
  forall attempts : nat,
    (attempts + k <= maxAttempts)%nat ->
    (forall a, (attempts <= a < attempts + k)%nat ->
               stillRunning (Service.poll service a) = true) ->
    timeline (fst (pollLoop' attempts))
      = rounds k ++ timeline (fst (pollLoop' (attempts + k))) /\
    snd (pollLoop' attempts) = snd (pollLoop' (attempts + k)).
Proof.
  induction k as [| k IH]; intros attempts Hle Hrun.
  - rewrite Nat.add_0_r. split; reflexivity.
  - rewrite (pollLoop_step attempts).
    destruct (lt_dec attempts maxAttempts) as [_ | Hge]; [| lia].
    rewrite trace_bind, outcome_bind, timeline_app, pollOnce_timeline.
    rewrite (pollOnce_running attempts) by (apply Hrun; lia).
    rewrite trace_bind, outcome_bind. cbn [emit fst snd app timeline rounds].
    destruct (IH (S attempts)) as [Ht Ho]; [lia | intros a Ha; apply Hrun; lia |].
    replace (attempts + S k)%nat with (S attempts + k)%nat by lia.
    rewrite Ht, Ho. split; reflexivity.
Qed.

(** A query that gets a final answer ends the loop on the spot. *)
Lemma pollLoop_returns (attempts : nat) (response : LumaResponse.t) :
  (attempts < maxAttempts)%nat ->
  snd (pollOnce' attempts) = Returned (Some response) ->
  timeline (fst (pollLoop' attempts)) = [Query] /\
  snd (pollLoop' attempts) = Returned response.
Proof.
  intros Hlt Hr. rewrite pollLoop_step.
  destruct (lt_dec attempts maxAttempts) as [_ | Hge]; [| lia].
  rewrite trace_bind, outcome_bind, timeline_app, pollOnce_timeline, Hr.
  split; reflexivity.
Qed.

(** Still running for [k] queries, then a final answer. *)
Lemma poll_final_answer (k : nat) (response : LumaResponse.t) :
  (k < maxAttempts)%nat ->
  (forall a, (a < k)%nat -> stillRunning (Service.poll service a) = true) ->
  snd (pollOnce' k) = Returned (Some response) ->
  snd (pollGenerationStatus import_meta_env service id) = Returned response /\
  timeline (fst (pollGenerationStatus import_meta_env service id))
    = rounds k ++ [Query].
Proof.
  intros Hk Hrun Hans. unfold pollGenerationStatus.
  destruct (pollLoop_skip k 0) as [Ht Ho];
    [cbn; lia | intros a Ha; apply Hrun; lia |].
  cbn [Nat.add] in Ht, Ho.
  destruct (pollLoop_returns k response Hk Hans) as [Ht' Ho'].
  rewrite Ht, Ho, Ht', Ho'. split; reflexivity.
Qed.

(** Still running at every one of the queries: the timeout. *)
Lemma poll_timeout :
  (forall a, (a < maxAttempts)%nat ->
             stillRunning (Service.poll service a) = true) ->
  snd (pollGenerationStatus import_meta_env service id)
    = Threw (JsError timedOut) /\
  timeline (fst (pollGenerationStatus import_meta_env service id))
    = rounds maxAttempts.
Proof.
  intro Hrun. unfold pollGenerationStatus.
  destruct (pollLoop_skip maxAttempts 0) as [Ht Ho];
    [cbn; lia | intros a Ha; apply Hrun; lia |].
  cbn [Nat.add] in Ht, Ho. rewrite Ht, Ho.
  rewrite (pollLoop_step maxAttempts).
  destruct (lt_dec maxAttempts maxAttempts) as [Hlt | _]; [lia |].
  cbn [throw fst snd timeline]. rewrite app_nil_r. split; reflexivity.
Qed.

End Polling.

(** C5.  [pollGenerationStatus] has 30 attempts and a polling interval of
    2000 ms.  Every run is a sequence of status queries separated by one
    wait of that interval each, and it either stops right after one of at
    most 30 queries, or makes exactly 30 queries, each followed by the wait,
    and throws the timeout error: there is never a 31st query.  If the
    replies report the job as still running until one reports it
    ['completed'], that query ends the run and the job is returned with its
    asset URLs; likewise a reply reporting ['failed'] ends the run at once
    and the job is returned with the failure reason; if all 30 replies
    report the job as still running, the run throws the timeout error. *)
Theorem poll_stops_at_ceiling
    (import_meta_env : string -> option string) (service : Service.t)
    (id : Value) :
  let run := pollGenerationStatus import_meta_env service id in
  maxAttempts = 30%nat /\ pollingInterval = 2000%Z /\
  (exists k : nat,
     (k < maxAttempts)%nat /\ timeline (trace run) = rounds k ++ [Query]
     \/
     k = maxAttempts /\ timeline (trace run) = rounds maxAttempts /\
       outcome run = Threw (JsError timedOut)) /\
  (forall k ms,
     (k < maxAttempts)%nat ->
     (forall a, (a < k)%nat -> stillRunning (Service.poll service a) = true) ->
     reports (Service.poll service k) "completed" ms ->
     outcome run = Returned (completedJob ms) /\
     timeline (trace run) = rounds k ++ [Query]) /\
  (forall k ms,
     (k < maxAttempts)%nat ->
     (forall a, (a < k)%nat -> stillRunning (Service.poll service a) = true) ->
     reports (Service.poll service k) "failed" ms ->
     outcome run = Returned (failedJob ms) /\
     timeline (trace run) = rounds k ++ [Query]) /\
  ((forall a, (a < maxAttempts)%nat ->
              stillRunning (Service.poll service a) = true) ->
   outcome run = Threw (JsError timedOut) /\
   timeline (trace run) = rounds maxAttempts).
Proof.
  intro run. unfold run, pollGenerationStatus, trace, outcome.
  split; [reflexivity |]. split; [reflexivity |].
  split; [| split; [| split]].
  - apply (pollLoop_shape import_meta_env service id maxAttempts 0).
    reflexivity.
  - intros k ms Hk Hrun Hrep.
    apply (poll_final_answer import_meta_env service id k (completedJob ms) Hk Hrun).
    apply pollOnce_completed. exact Hrep.
  - intros k ms Hk Hrun Hrep.
    apply (poll_final_answer import_meta_env service id k (failedJob ms) Hk Hrun).
    apply pollOnce_failed. exact Hrep.
  - intro Hrun. apply (poll_timeout import_meta_env service id Hrun).
Qed.

(** Witness for C5: two replies say ['processing'], the third says
    ['completed']. *)
Lemma poll_stops_at_ceiling_witness :
  outcome (pollGenerationStatus DemoService.env
             (DemoService.completesAfter 2) (Some (JStr "gen-1")))
  = Returned
      (completedJob (DemoService.statusMembers "completed" DemoService.imageAssets))
  /\
  timeline (trace (pollGenerationStatus DemoService.env
                     (DemoService.completesAfter 2) (Some (JStr "gen-1"))))
  = [Query; Wait 2000; Query; Wait 2000; Query].
Proof.
  destruct (poll_stops_at_ceiling DemoService.env
              (DemoService.completesAfter 2) (Some (JStr "gen-1")))
    as (_ & _ & _ & Hdone & _ & _).
  apply (Hdone 2%nat).
  - unfold maxAttempts. lia.
  - intros a Ha.
    destruct a as [| [| a]]; [reflexivity | reflexivity | lia].
  - eexists. split; [reflexivity |]. split; [reflexivity |].
    split; reflexivity.
Defined.

(* --------------------------------------------------------------------- *)
(** *** Image jobs *)
(* --------------------------------------------------------------------- *)

(** The failure reason the code computes is the one written out by cases. *)
Lemma errorMessageOf_spec (m : string) (response : Response.t) :
  snd (errorMessageOf m response) = Returned (specifiedReason m response).
Proof.
  unfold errorMessageOf, specifiedReason, or_else.
  unfold bind, try_catch, lift, ret, throw, emit.
  destruct (Response.json response) as [[| b | q | str | items | ms] | e];
    cbn [fst snd prop strict_eq_str truthy]; try reflexivity.
  destruct (strict_eq_str (lookup_last "detail" ms) "Insufficient credits");
    cbn [fst snd]; [reflexivity |].
  destruct (truthy (lookup_last "detail" ms)); [reflexivity |].
  destruct (truthy (lookup_last "message" ms)); reflexivity.
Qed.

Section ImageJob.

Variable import_meta_env : string -> option string.
Variable service : Service.t.
Variable options : ImageGenerationOptions.t.

Local Abbreviation job := (generateLumaImage import_meta_env service options).

(** [fetch] rejects: the [catch] block turns the error into a result. *)
Lemma image_transport_error (e : Thrown) :
  Service.create service = Threw e ->
  snd job = Returned (failedWith "unknown" (Some (JStr (messageOr e unknownError)))).
Proof.
  intro H. unfold generateLumaImage.
  rewrite outcome_try_catch, outcome_bind. cbn [emit snd].
  rewrite outcome_bind, H. reflexivity.
Qed.

(** The creation request is answered with a non-success status. *)
Lemma image_rejected (response : Response.t) :
  Service.create service = Returned response ->
  Response.ok response = false ->
  snd job = Returned (failedWith "error" (specifiedReason imageRequestFailed response)).
Proof.
  intros H Hok. unfold generateLumaImage.
  rewrite outcome_try_catch, outcome_bind. cbn [emit snd].
  rewrite outcome_bind, H. cbn [lift snd]. rewrite Hok. cbn [negb].
  rewrite outcome_bind, errorMessageOf_spec. reflexivity.
Qed.

(** The creation request is accepted: the result is that of the polling,
    with its timeout turned into a result by the [catch] block. *)
Lemma image_accepted (response : Response.t) (gs : list (string * Json)) :
  Service.create service = Returned response ->
  Response.ok response = true ->
  Response.json response = Returned (JObj gs) ->
  snd job =
    match snd (pollGenerationStatus import_meta_env service
                 (lookup_last "id" gs)) with
    | Returned r => Returned r
    | Threw e =>
        Returned (failedWith "unknown" (Some (JStr (messageOr e unknownError))))
    end.
Proof.
  intros H Hok Hj. unfold generateLumaImage.
  rewrite outcome_try_catch, outcome_bind. cbn [emit snd].
  rewrite outcome_bind, H. cbn [lift snd]. rewrite Hok. cbn [negb].
  rewrite outcome_bind, Hj. cbn [lift snd].
  rewrite outcome_bind. cbn [emit snd].
  rewrite outcome_bind. cbn [lift snd prop].
  destruct (snd (pollGenerationStatus _ _ _)); reflexivity.
Qed.

(** Whatever the service does, [generateLumaImage] returns. *)
Lemma image_never_throws :
  exists r, snd job = Returned r.
Proof.
  unfold generateLumaImage. rewrite outcome_try_catch.
  match goal with
  | |- context [match snd ?m with _ => _ end] => destruct (snd m) as [r | e]
  end.
  - exists r. reflexivity.
  - eexists. rewrite outcome_bind. cbn [emit snd ret]. reflexivity.
Qed.

End ImageJob.

(** C6, as stated, fails: a creation request answered with status 500 and
    the body [{}] (no [detail], no [message]) gives the generic message
    without the HTTP status in it. *)
Lemma creation_failure_reason_counterexample :
  ~ exists (r : LumaResponse.t) (reason : string),
      outcome (generateLumaImage DemoService.env DemoService.rejects500
                 DemoService.options) = Returned r /\
      LumaResponse.failure_reason r = Some (JStr reason) /\
      includes "500" reason = true.
Proof.
  intros (r & reason & Hrun & Hreason & Hinc).
  vm_compute in Hrun. injection Hrun as <-.
  cbn [LumaResponse.failure_reason] in Hreason. injection Hreason as <-.
  vm_compute in Hinc. discriminate Hinc.
Qed.

(** C6, amended.  When the creation request is answered with a non-success
    status, [generateLumaImage] returns (does not throw) a failed job with
    id ['error'] whose failure reason is: the insufficient-credits message
    when the body's [detail] equals ['Insufficient credits']; otherwise the
    body's [detail], otherwise its [message], when truthy; otherwise the
    generic message, without the status; the generic message followed by
    the status and status text when reading the reason fails, that is when
    the body cannot be read as JSON or is the JSON value [null].
    When [fetch] itself rejects, the surrounding [catch] returns a failed
    job with id ['unknown'] and the error's message as the reason. *)
Theorem creation_failure_reason
    (import_meta_env : string -> option string) (service : Service.t)
    (options : ImageGenerationOptions.t) :
  (forall response,
     Service.create service = Returned response ->
     Response.ok response = false ->
     outcome (generateLumaImage import_meta_env service options)
     = Returned (failedWith "error"
                   (specifiedReason imageRequestFailed response))) /\
  (forall response,
     Service.create service = Returned response ->
     Response.ok response = false ->
     (Response.json response = Returned JNull \/
      exists e, Response.json response = Threw e) ->
     outcome (generateLumaImage import_meta_env service options)
     = Returned (failedWith "error"
                   (Some (JStr (withStatus imageRequestFailed response))))) /\
  (forall response ms,
     Service.create service = Returned response ->
     Response.ok response = false ->
     Response.json response = Returned (JObj ms) ->
     truthy (lookup_last "detail" ms) = false ->
     truthy (lookup_last "message" ms) = false ->
     outcome (generateLumaImage import_meta_env service options)
     = Returned (failedWith "error" (Some (JStr imageRequestFailed)))) /\
  (forall e,
     Service.create service = Threw e ->
     outcome (generateLumaImage import_meta_env service options)
     = Returned (failedWith "unknown"
                   (Some (JStr (messageOr e unknownError))))).
Proof.
  split; [| split; [| split]].
  - intros response H Hok. apply image_rejected; assumption.
  - intros response H Hok Hbody. unfold outcome.
    rewrite (image_rejected import_meta_env service options response H Hok).
    unfold specifiedReason.
    destruct Hbody as [-> | [e ->]]; reflexivity.
  - intros response ms H Hok Hbody Hdetail Hmessage. unfold outcome.
    rewrite (image_rejected import_meta_env service options response H Hok).
    unfold specifiedReason. rewrite Hbody, Hdetail, Hmessage.
    destruct (lookup_last "detail" ms) as [[| | | d | |] |];
      try reflexivity.
    cbn [strict_eq_str]. cbn [truthy] in Hdetail.
    destruct (String.eqb d "") eqn:E; [| discriminate Hdetail].
    apply String.eqb_eq in E. subst d. reflexivity.
  - intros e H. apply image_transport_error; assumption.
Qed.

(** Witness for the amended C6: status 500 with the body [{}]. *)
Lemma creation_failure_reason_witness :
  outcome (generateLumaImage DemoService.env DemoService.rejects500
             DemoService.options)
  = Returned (failedWith "error" (Some (JStr imageRequestFailed))).
Proof.
  apply (proj1 (creation_failure_reason DemoService.env DemoService.rejects500
                  DemoService.options)
           (Response.mk 500 "Internal Server Error" (Returned (JObj [])))).
  - reflexivity.
  - reflexivity.
Defined.

(** C10, as stated, fails: when the service declares the job failed and
    gives no reason, the returned result has no failure reason. *)
Lemma image_job_failure_reason_counterexample :
  ~ exists r : LumaResponse.t,
      outcome (generateLumaImage DemoService.env DemoService.failsWithoutReason
                 DemoService.options) = Returned r /\
      LumaResponse.state r = failed /\
      truthy (LumaResponse.failure_reason r) = true.
Proof.
  intros (r & Hrun & _ & Hreason).
  vm_compute in Hrun. injection Hrun as <-.
  vm_compute in Hreason. discriminate Hreason.
Qed.

(** C10, amended.  [generateLumaImage] never throws.  A rejection of
    [fetch] gives a failed result whose reason is the error's message (or
    the unknown-error text when the thrown value is not an [Error]); a
    non-success creation response gives a failed result with a non-empty
    reason; the timeout thrown by [pollGenerationStatus] gives a failed
    result whose reason is the timeout message; a job the service declares
    failed gives a failed result whose reason is whatever [failure_reason]
    the status carried. *)
Theorem image_job_never_throws
    (import_meta_env : string -> option string) (service : Service.t)
    (options : ImageGenerationOptions.t) :
  exists r : LumaResponse.t,
    outcome (generateLumaImage import_meta_env service options) = Returned r /\
    (forall e,
       Service.create service = Threw e ->
       r = failedWith "unknown" (Some (JStr (messageOr e unknownError)))) /\
    (forall response,
       Service.create service = Returned response ->
       Response.ok response = false ->
       LumaResponse.state r = failed /\
       truthy (LumaResponse.failure_reason r) = true) /\
    (forall response gs,
       Service.create service = Returned response ->
       Response.ok response = true ->
       Response.json response = Returned (JObj gs) ->
       ((forall a, (a < maxAttempts)%nat ->
                   stillRunning (Service.poll service a) = true) ->
        r = failedWith "unknown" (Some (JStr timedOut))) /\
       (forall k ms,
          (k < maxAttempts)%nat ->
          (forall a, (a < k)%nat ->
                     stillRunning (Service.poll service a) = true) ->
          reports (Service.poll service k) "failed" ms ->
          r = failedJob ms)).
Proof.
  destruct (image_never_throws import_meta_env service options) as [r Hr].
  exists r. unfold outcome. split; [exact Hr |].
  split; [| split].
  - intros e H.
    rewrite (image_transport_error import_meta_env service options e H) in Hr.
    injection Hr as <-. reflexivity.
  - intros response H Hok.
    rewrite (image_rejected import_meta_env service options response H Hok) in Hr.
    injection Hr as <-. split; [reflexivity |].
    cbn [failedWith LumaResponse.failure_reason].
    destruct (errorMessageOf_returns imageRequestFailed response)
      as (v & Hv & Htruthy).
    rewrite errorMessageOf_spec in Hv. injection Hv as <-.
    apply Htruthy. reflexivity.
  - intros response gs H Hok Hj.
    rewrite (image_accepted import_meta_env service options response gs H Hok Hj)
      in Hr.
    split.
    + intro Hrun.
      destruct (poll_timeout import_meta_env service (lookup_last "id" gs) Hrun)
        as [Ho _].
      rewrite Ho in Hr. injection Hr as <-. reflexivity.
    + intros k ms Hk Hrun Hrep.
      destruct (poll_final_answer import_meta_env service (lookup_last "id" gs)
                  k (failedJob ms) Hk Hrun) as [Ho _];
        [apply pollOnce_failed; exact Hrep |].
      rewrite Ho in Hr. injection Hr as <-. reflexivity.
Qed.

(** Witness for the amended C10: the job never leaves ['processing'], the
    polling times out, and the caller gets a failed result. *)
Lemma image_job_never_throws_witness :
  outcome (generateLumaImage DemoService.env DemoService.neverFinishes
             DemoService.options)
  = Returned (failedWith "unknown" (Some (JStr timedOut))).
Proof.
  destruct (image_job_never_throws DemoService.env DemoService.neverFinishes
              DemoService.options) as (r & Hr & _ & _ & Hacc).
  rewrite Hr. f_equal.
  refine (proj1 (Hacc _ _ _ _ _) _).
  - reflexivity.
  - reflexivity.
  - reflexivity.
  - intros a _. reflexivity.
Defined.

(* --------------------------------------------------------------------- *)
(** *** Video assembly *)
(* --------------------------------------------------------------------- *)

Lemma posts_app (a b : list Event) : posts (a ++ b) = posts a ++ posts b.
Proof.
  induction a as [| ev a IH]; [reflexivity |].
  destruct ev as [r | | | | |]; cbn [posts app]; try exact IH.
  destruct (req_method r); rewrite IH; reflexivity.
Qed.

Lemma errorMessageOf_posts (m : string) (response : Response.t) :
  posts (fst (errorMessageOf m response)) = [].
Proof. unfold errorMessageOf. crush_cases. Qed.

Section VideoJob.

Variable import_meta_env : string -> option string.
Variable service : Service.t.

(** Status queries are not creation requests. *)
Lemma pollOnce_posts (id : Value) (attempts : nat) :
  posts (fst (pollOnce import_meta_env service id attempts)) = [].
Proof.
  unfold pollOnce. crush_cases;
    rewrite ?posts_app, ?errorMessageOf_posts; reflexivity.
Qed.

Lemma pollLoop_posts (id : Value) (n : nat) :
  forall attempts : nat,
    (attempts + n = maxAttempts)%nat ->
    posts (fst (pollLoop import_meta_env service id attempts)) = [].
Proof.
  induction n as [| n IH]; intros attempts Hsum; rewrite pollLoop_step.
  - destruct (lt_dec attempts maxAttempts) as [Hlt | _]; [lia | reflexivity].
  - destruct (lt_dec attempts maxAttempts) as [_ | Hge]; [| lia].
    rewrite trace_bind, posts_app, pollOnce_posts.
    destruct (snd (pollOnce import_meta_env service id attempts))
      as [[response | ] | e]; try reflexivity.
    rewrite trace_bind. cbn [emit fst snd app posts].
    apply IH. lia.
Qed.

Lemma poll_posts (id : Value) :
  posts (fst (pollGenerationStatus import_meta_env service id)) = [].
Proof. apply (pollLoop_posts id maxAttempts 0). reflexivity. Qed.

(** [generateLumaVideo] sends exactly one creation request. *)
Lemma video_posts (options : VideoGenerationOptions.t) :
  posts (fst (generateLumaVideo import_meta_env service options))
  = [mkRequest POST UrlCreate (authorization import_meta_env)
       (Some (JObj (requestBody options)))].
Proof.
  unfold generateLumaVideo. crush_cases;
    rewrite ?posts_app, ?poll_posts, ?errorMessageOf_posts; reflexivity.
Qed.

Lemma video_never_throws (options : VideoGenerationOptions.t) :
  exists r, snd (generateLumaVideo import_meta_env service options) = Returned r.
Proof.
  unfold generateLumaVideo. rewrite outcome_try_catch.
  match goal with
  | |- context [match snd ?m with _ => _ end] => destruct (snd m) as [r | e]
  end.
  - exists r. reflexivity.
  - eexists. rewrite outcome_bind. cbn [emit snd ret]. reflexivity.
Qed.

End VideoJob.

Lemma filter_none {A : Type} (f : A -> bool) (l : list A) :
  (forall x, In x l -> f x = false) -> filter f l = [].
Proof.
  induction l as [| x l IH]; intro H; [reflexivity |].
  cbn [filter]. rewrite (H x (or_introl eq_refl)).
  apply IH. intros y Hy. apply H. right. exact Hy.
Qed.

Lemma filter_some {A : Type} (f : A -> bool) (l : list A) :
  (exists x, In x l /\ f x = true) -> filter f l <> [].
Proof.
  intros (x & Hin & Hf) Hnil.
  assert (Hx : In x (filter f l)) by (apply filter_In; split; assumption).
  rewrite Hnil in Hx. exact Hx.
Qed.

(** A successful image contributes exactly one keyframe: its URL, timed at
    the start of its segment. *)
Lemma keyframe_successful (img : GeneratedMedia.t) (index : nat) :
  successful img = true ->
  exists url,
    LumaResponse.imageUrl (GeneratedMedia.imageResponse img) = Some url /\
    keyframe img index =
      [(("frame" ++ nat_to_string index)%string,
        JObj [("type", JStr "image"); ("url", url);
              ("timing", JNum (GeneratedMedia.startTime img))])].
Proof.
  unfold successful, keyframe. intro H. apply andb_prop in H. destruct H as [_ Hu].
  destruct (LumaResponse.imageUrl (GeneratedMedia.imageResponse img)) as [url |];
    [| discriminate Hu].
  exists url. rewrite Hu. split; reflexivity.
Qed.

Lemma keyframes_length (l : list GeneratedMedia.t) :
  forall index : nat,
    (forall img, In img l -> successful img = true) ->
    List.length (List.concat (mapIndexed keyframe index l)) = List.length l.
Proof.
  induction l as [| img l IH]; intros index H; [reflexivity |].
  cbn [mapIndexed List.concat]. rewrite length_app.
  destruct (keyframe_successful img index (H img (or_introl eq_refl)))
    as (url & _ & Hk).
  rewrite Hk, IH; [reflexivity |].
  intros y Hy. apply H. right. exact Hy.
Qed.

Section VideoAssembly.

Variable import_meta_env : string -> option string.
Variable service : Service.t.
Variable generatedImages : list GeneratedMedia.t.
Variable audioUrl : option string.
Variable overallPrompt : option string.

Local Abbreviation assembly :=
  (createVideoFromImages import_meta_env service generatedImages audioUrl
     overallPrompt).
Local Abbreviation successfulImages := (filter successful generatedImages).

Lemma assembly_without_images :
  successfulImages = [] ->
  assembly = ([], Threw (JsError noValidImages)).
Proof.
  intro H. unfold createVideoFromImages. rewrite H. reflexivity.
Qed.

Lemma assembly_posts :
  successfulImages <> [] ->
  posts (fst assembly)
  = [videoRequest import_meta_env successfulImages audioUrl overallPrompt].
Proof.
  intro H. unfold createVideoFromImages.
  destruct successfulImages as [| img rest] eqn:E; [contradiction |].
  cbn [List.length Nat.eqb].
  rewrite trace_bind, posts_app.
  match goal with
  | |- context [Qlt_le_dec ?a ?b] => destruct (Qlt_le_dec a b)
  end; cbn [emit ret fst snd posts app]; apply video_posts.
Qed.

Lemma assembly_returns :
  successfulImages <> [] ->
  exists r, snd assembly = Returned r.
Proof.
  intro H. unfold createVideoFromImages.
  destruct successfulImages as [| img rest] eqn:E; [contradiction |].
  cbn [List.length Nat.eqb].
  rewrite outcome_bind.
  match goal with
  | |- context [Qlt_le_dec ?a ?b] => destruct (Qlt_le_dec a b)
  end; cbn [emit ret fst snd]; apply video_never_throws.
Qed.

(** With fewer successes than half of the images, the warning is the first
    thing the assembly does. *)
Lemma assembly_warns :
  successfulImages <> [] ->
  (2 * List.length successfulImages < List.length generatedImages)%nat ->
  exists rest,
    fst assembly
    = EvConsole LvWarn
        (degradedWarning (List.length successfulImages)
           (List.length generatedImages)) None :: rest.
Proof.
  intros H Hhalf. unfold createVideoFromImages.
  destruct successfulImages as [| img rest] eqn:E; [contradiction |].
  cbn [Nat.eqb]. remember (List.length (img :: rest)) as n eqn:En.
  destruct n as [| n]; [discriminate En |]. cbn [Nat.eqb].
  rewrite trace_bind.
  match goal with
  | |- context [Qlt_le_dec ?a ?b] => destruct (Qlt_le_dec a b) as [Hlt | Hge]
  end.
  - cbn [emit fst snd app]. eexists. reflexivity.
  - exfalso. unfold Qle, Qmult, inject_Z in Hge. cbn in Hge. lia.
Qed.

End VideoAssembly.

(** C7.  If no generated image has state ['completed'] together with a
    truthy image URL, [createVideoFromImages] throws and does nothing else:
    no video job is submitted.  If at least one has, it returns, and it
    submits exactly one video job, whose keyframes are those of the
    successful images only, one per successful image, in order. *)
Theorem video_needs_a_successful_image
    (import_meta_env : string -> option string) (service : Service.t)
    (generatedImages : list GeneratedMedia.t)
    (audioUrl overallPrompt : option string) :
  let run :=
    createVideoFromImages import_meta_env service generatedImages audioUrl
      overallPrompt in
  let successfulImages := filter successful generatedImages in
  ((forall img, In img generatedImages -> successful img = false) ->
   run = ([], Threw (JsError noValidImages))) /\
  ((exists img, In img generatedImages /\ successful img = true) ->
   (exists r, outcome run = Returned r) /\
   posts (trace run)
   = [videoRequest import_meta_env successfulImages audioUrl overallPrompt] /\
   List.length (List.concat (mapIndexed keyframe 0 successfulImages))
   = List.length successfulImages).
Proof.
  intros run successfulImages. split.
  - intro Hnone. apply assembly_without_images. apply filter_none. exact Hnone.
  - intro Hsome. apply filter_some in Hsome. split; [| split].
    + apply assembly_returns. exact Hsome.
    + apply assembly_posts. exact Hsome.
    + apply keyframes_length. intros img Hin.
      apply filter_In in Hin. exact (proj2 Hin).
Qed.

(** Witness for C7: ten images, none of them successful. *)
Lemma video_needs_a_successful_image_witness :
  createVideoFromImages DemoService.env (DemoService.completesAfter 0)
    (DemoImages.images 0 10) None None
  = ([], Threw (JsError noValidImages)).
Proof.
  apply (proj1 (video_needs_a_successful_image DemoService.env
                  (DemoService.completesAfter 0) (DemoImages.images 0 10)
                  None None)).
  intros img Hin. cbn in Hin.
  repeat (destruct Hin as [<- | Hin]; [reflexivity |]).
  destruct Hin.
Defined.

(** C8, as amended.  When at least one image succeeded but more than half
    of them failed, [createVideoFromImages] first writes the
    degraded-quality warning to the console ([console.warn]) and then still
    submits the one video job built from the successful images.  The
    warning goes to the console only: what the caller receives is the
    outcome of that video job and nothing else. *)
Theorem degraded_video_warns_and_submits
    (import_meta_env : string -> option string) (service : Service.t)
    (generatedImages : list GeneratedMedia.t)
    (audioUrl overallPrompt : option string) :
  let run :=
    createVideoFromImages import_meta_env service generatedImages audioUrl
      overallPrompt in
  let successfulImages := filter successful generatedImages in
  let failedCount :=
    (List.length generatedImages - List.length successfulImages)%nat in
  (1 <= List.length successfulImages)%nat ->
  (List.length generatedImages < 2 * failedCount)%nat ->
  (exists rest,
     trace run
     = EvConsole LvWarn
         (degradedWarning (List.length successfulImages)
            (List.length generatedImages)) None :: rest) /\
  posts (trace run)
  = [videoRequest import_meta_env successfulImages audioUrl overallPrompt] /\
  (exists r, outcome run = Returned r) /\
  outcome run
  = outcome (generateLumaVideo import_meta_env service
               (VideoGenerationOptions.mk (str_or overallPrompt defaultPrompt)
                  (List.concat (mapIndexed keyframe 0 successfulImages))
                  (Some "ray-2") audioUrl)).
Proof.
  intros run successfulImages failedCount Hone Hhalf.
  assert (Hne : successfulImages <> []).
  { intro E. rewrite E in Hone. cbn in Hone. lia. }
  split; [| split; [| split]].
  - apply assembly_warns; [exact Hne |]. unfold failedCount in Hhalf.
    fold successfulImages. lia.
  - apply assembly_posts. exact Hne.
  - apply assembly_returns. exact Hne.
  - subst run. unfold outcome, createVideoFromImages. fold successfulImages.
    destruct (Nat.eqb (List.length successfulImages) 0) eqn:E.
    + apply Nat.eqb_eq in E. lia.
    + rewrite outcome_bind.
      match goal with
      | |- context [Qlt_le_dec ?a ?b] => destruct (Qlt_le_dec a b)
      end; reflexivity.
Qed.

(** Witness for C8: four successful images out of ten; the warning reports
    that 60% failed. *)
Lemma degraded_video_warns_and_submits_witness :
  exists rest,
    trace (createVideoFromImages DemoService.env (DemoService.completesAfter 0)
             (DemoImages.images 4 10) None None)
    = EvConsole LvWarn
        "警告: 生成された画像の60%が失敗しました。動画の品質が低下する可能性があります。"
        None :: rest.
Proof.
  refine (proj1 (degraded_video_warns_and_submits DemoService.env
                   (DemoService.completesAfter 0) (DemoImages.images 4 10)
                   None None _ _)).
  - vm_compute. lia.
  - vm_compute. lia.
Defined.

(** C8 as stated does not hold: the warning is not observable by the
    caller.  With four successful images out of ten the warning is written
    to the console; with the same four images alone it is not.  The caller
    receives the same result in both cases, so nothing it can observe of
    that result tells the degraded run from the other. *)
Lemma degraded_warning_not_signalled_counterexample :
  ~ exists observe : Result LumaResponse.t -> bool,
      observe
        (outcome (createVideoFromImages DemoService.env
                    (DemoService.completesAfter 0) (DemoImages.images 4 10)
                    None None)) = true /\
      observe
        (outcome (createVideoFromImages DemoService.env
                    (DemoService.completesAfter 0) (DemoImages.images 4 4)
                    None None)) = false.
Proof.
  intros (observe & Hdegraded & Hclean).
  assert (E : outcome (createVideoFromImages DemoService.env
                         (DemoService.completesAfter 0)
                         (DemoImages.images 4 10) None None)
              = outcome (createVideoFromImages DemoService.env
                           (DemoService.completesAfter 0)
                           (DemoImages.images 4 4) None None))
    by (vm_compute; reflexivity).
  rewrite E in Hdegraded. rewrite Hdegraded in Hclean. discriminate Hclean.
Qed.

(* --------------------------------------------------------------------- *)
(** *** Batched image generation *)
(* --------------------------------------------------------------------- *)

Section Batches.

Variable import_meta_env : string -> option string.
Variable services : nat -> Service.t.

Local Abbreviation job i a :=
  (generateLumaImage import_meta_env (services i) (imageOptions a)).

Lemma batchLoop_step (analyses : list SegmentAnalysis.t) (onProgress : bool)
    (i : nat) (results : list GeneratedMedia.t) (errors : list (nat * Thrown)) :
  batchLoop import_meta_env services analyses onProgress i results errors =
  if lt_dec i (List.length analyses) then
    let batch := slice analyses i (i + batchSize) in
    let batchPromises :=
      mapIndexed (fun analysis index =>
                    batchPromise import_meta_env services i index analysis)
        0 batch in
    let batchResults := map (fun p => fst (snd p)) batchPromises in
    emit (EvConcurrent (map fst batchPromises)) ;;;
    (if onProgress
     then emit (EvProgress (Nat.min (i + batchSize) (List.length analyses))
                  (List.length analyses))
     else ret tt) ;;;
    batchLoop import_meta_env services analyses onProgress (i + batchSize)
      (results ++ batchResults)
      (errors ++ List.concat (map (fun p => snd (snd p)) batchPromises))
  else ret (results, errors).
Proof.
  rewrite (batchLoop_equation_1 import_meta_env services analyses onProgress
             i results errors).
  destruct (lt_dec i (List.length analyses));
    [rewrite batchLoop_clause_1_equation_1
    | rewrite batchLoop_clause_1_equation_2]; reflexivity.
Qed.

(** A job that returns [r] fulfils its batch promise with the entry for
    [r]; nothing is pushed onto [errors]. *)
Lemma batchPromise_returned (i index : nat) (a : SegmentAnalysis.t)
    (r : LumaResponse.t) :
  snd (job (i + index)%nat a) = Returned r ->
  batchPromise import_meta_env services i index a
  = (fst (job (i + index)%nat a),
     (GeneratedMedia.mk (i + index) (SegmentAnalysis.startTime a)
        (SegmentAnalysis.endTime a) r, [])).
Proof. intro H. unfold batchPromise. rewrite H. reflexivity. Qed.

End Batches.

(** The final sort does not move the entries of a list that is already in
    ascending [segmentIndex] order. *)
Lemma insertByIndex_least (x : GeneratedMedia.t) (l : list GeneratedMedia.t) :
  (forall y, In y l ->
     (GeneratedMedia.segmentIndex x <= GeneratedMedia.segmentIndex y)%nat) ->
  insertByIndex x l = x :: l.
Proof.
  destruct l as [| y rest]; intro H; [reflexivity |].
  cbn [insertByIndex].
  assert (Hxy := H y (or_introl eq_refl)).
  destruct (Z.leb_spec (Z.of_nat (GeneratedMedia.segmentIndex x)
                        - Z.of_nat (GeneratedMedia.segmentIndex y)) 0);
    [reflexivity | lia].
Qed.

Lemma sortByIndex_sorted (l : list GeneratedMedia.t) :
  StronglySorted
    (fun a b => (GeneratedMedia.segmentIndex a
                 <= GeneratedMedia.segmentIndex b)%nat) l ->
  sortByIndex l = l.
Proof.
  induction 1 as [| x l Hs IH Hx]; [reflexivity |].
  cbn [sortByIndex]. rewrite IH. apply insertByIndex_least.
  intros y Hy. rewrite Forall_forall in Hx. exact (Hx y Hy).
Qed.

Ltac batch_round :=
  rewrite batchLoop_step;
  match goal with
  | |- context [lt_dec ?a ?b] =>
      let Hn := fresh "Hn" in
      destruct (lt_dec a b) as [_ | Hn]; [| cbn in Hn; lia]
  end;
  cbv zeta; unfold batchSize, slice;
  cbn [Nat.add Nat.sub firstn skipn mapIndexed map List.length Nat.min].

Ltac cases_in H :=
  unfold bind, try_catch, lift, ret, throw, emit in H;
  repeat (cbn [fst snd negb andb] in H;
          match type of H with
          | context [match ?x with _ => _ end] => destruct x eqn:?
          | context [if ?x then _ else _] => destruct x eqn:?
          end);
  cbn [fst snd negb andb] in H.

Section TerminalStates.

Variable import_meta_env : string -> option string.
Variable service : Service.t.

Lemma pollOnce_terminal (id : Value) (attempts : nat) (r : LumaResponse.t) :
  snd (pollOnce import_meta_env service id attempts) = Returned (Some r) ->
  terminal (LumaResponse.state r).
Proof.
  unfold pollOnce, terminal. intro H. cases_in H;
    try discriminate H; injection H as <-; cbn; auto.
Qed.

Lemma pollLoop_terminal (id : Value) (n : nat) :
  forall (attempts : nat) (r : LumaResponse.t),
    (attempts + n = maxAttempts)%nat ->
    snd (pollLoop import_meta_env service id attempts) = Returned r ->
    terminal (LumaResponse.state r).
Proof.
  induction n as [| n IH]; intros attempts r Hsum; rewrite pollLoop_step.
  - destruct (lt_dec attempts maxAttempts) as [Hlt | _]; [lia | discriminate].
  - destruct (lt_dec attempts maxAttempts) as [_ | Hge]; [| lia].
    rewrite outcome_bind.
    destruct (snd (pollOnce import_meta_env service id attempts))
      as [[response | ] | e] eqn:Hone; cbn [ret snd].
    + intro H. injection H as <-. exact (pollOnce_terminal _ _ _ Hone).
    + rewrite outcome_bind. cbn [emit snd]. apply IH. lia.
    + discriminate.
Qed.

(** Every result of [generateLumaImage] is in a terminal state. *)
Lemma image_job_terminal (options : ImageGenerationOptions.t)
    (r : LumaResponse.t) :
  snd (generateLumaImage import_meta_env service options) = Returned r ->
  terminal (LumaResponse.state r).
Proof.
  unfold generateLumaImage. rewrite outcome_try_catch.
  match goal with
  | |- context [match snd ?m with _ => _ end] =>
      destruct (snd m) as [r' | e] eqn:Hbody
  end.
  - intro H. injection H as <-.
    rewrite outcome_bind in Hbody. cbn [emit snd] in Hbody.
    rewrite outcome_bind in Hbody.
    destruct (snd (lift (Service.create service))) as [response | e];
      [| discriminate Hbody].
    destruct (negb (Response.ok response)).
    + rewrite outcome_bind in Hbody.
      destruct (snd (errorMessageOf imageRequestFailed response));
        [| discriminate Hbody].
      injection Hbody as <-. right. reflexivity.
    + rewrite outcome_bind in Hbody.
      destruct (snd (lift (Response.json response))) as [generation | e];
        [| discriminate Hbody].
      rewrite outcome_bind in Hbody. cbn [emit snd] in Hbody.
      rewrite outcome_bind in Hbody.
      destruct (snd (lift (prop (Some generation) "id"))) as [gid | e];
        [| discriminate Hbody].
      exact (pollLoop_terminal gid maxAttempts 0 _ eq_refl Hbody).
  - rewrite outcome_bind. cbn [emit ret snd]. intro H. injection H as <-.
    right. reflexivity.
Qed.

End TerminalStates.

Section SevenImages.

Variable import_meta_env : string -> option string.
Variable services : nat -> Service.t.
Variables a0 a1 a2 a3 a4 a5 a6 : SegmentAnalysis.t.
Variables r0 r1 r2 r3 r4 r5 r6 : LumaResponse.t.

Local Abbreviation job i a :=
  (generateLumaImage import_meta_env (services i) (imageOptions a)).
Local Abbreviation entry i a r :=
  (GeneratedMedia.mk i (SegmentAnalysis.startTime a)
     (SegmentAnalysis.endTime a) r).

Hypothesis H0 : snd (job 0%nat a0) = Returned r0.
Hypothesis H1 : snd (job 1%nat a1) = Returned r1.
Hypothesis H2 : snd (job 2%nat a2) = Returned r2.
Hypothesis H3 : snd (job 3%nat a3) = Returned r3.
Hypothesis H4 : snd (job 4%nat a4) = Returned r4.
Hypothesis H5 : snd (job 5%nat a5) = Returned r5.
Hypothesis H6 : snd (job 6%nat a6) = Returned r6.

(** The run on seven analyses, once each job's result is named. *)
Lemma seven_images_run (onProgress : bool) :
  generateImagesInParallel import_meta_env services
    [a0; a1; a2; a3; a4; a5; a6] onProgress
  = ([EvConcurrent [fst (job 0%nat a0); fst (job 1%nat a1); fst (job 2%nat a2)]]
     ++ progressReport onProgress 3 7
     ++ [EvConcurrent [fst (job 3%nat a3); fst (job 4%nat a4); fst (job 5%nat a5)]]
     ++ progressReport onProgress 6 7
     ++ [EvConcurrent [fst (job 6%nat a6)]]
     ++ progressReport onProgress 7 7,
     Returned
       [entry 0%nat a0 r0; entry 1%nat a1 r1; entry 2%nat a2 r2;
        entry 3%nat a3 r3; entry 4%nat a4 r4; entry 5%nat a5 r5;
        entry 6%nat a6 r6]).
Proof.
  unfold generateImagesInParallel.
  batch_round.
  rewrite (batchPromise_returned import_meta_env services 0 0 a0 r0 H0),
    (batchPromise_returned import_meta_env services 0 1 a1 r1 H1),
    (batchPromise_returned import_meta_env services 0 2 a2 r2 H2).
  batch_round.
  rewrite (batchPromise_returned import_meta_env services 3 0 a3 r3 H3),
    (batchPromise_returned import_meta_env services 3 1 a4 r4 H4),
    (batchPromise_returned import_meta_env services 3 2 a5 r5 H5).
  batch_round.
  rewrite (batchPromise_returned import_meta_env services 6 0 a6 r6 H6).
  rewrite batchLoop_step.
  match goal with
  | |- context [lt_dec ?a ?b] =>
      destruct (lt_dec a b) as [Hlt | _]; [cbn in Hlt; lia |]
  end.
  destruct onProgress;
    cbn [bind emit ret fst snd app map List.concat List.length Nat.ltb Nat.leb
           Nat.add progressReport];
    (rewrite sortByIndex_sorted; [reflexivity |]);
    repeat (constructor; [| repeat (constructor; [cbn; lia |]); constructor]);
    constructor.
Qed.

End SevenImages.

(** C2.  For seven analyses, [generateImagesInParallel] runs the image jobs
    in three concurrent groups, of the jobs 0-2, 3-5 and 6, in that order;
    a group (and the progress report after it, when a callback was passed)
    is complete before the next one is started, and every job of a group
    has then reached a terminal state.  The result has seven entries in
    ascending [segmentIndex] order 0..6, each with the times of the analysis
    at that position.  If the job of index 4 fails, entry 4 is in state
    [failed]; if moreover all the other jobs complete, all the other
    entries are in state [completed]. *)
Theorem seven_images_in_three_groups
    (import_meta_env : string -> option string) (services : nat -> Service.t)
    (a0 a1 a2 a3 a4 a5 a6 : SegmentAnalysis.t) (onProgress : bool) :
  let analyses := [a0; a1; a2; a3; a4; a5; a6] in
  let job i a :=
    generateLumaImage import_meta_env (services i) (imageOptions a) in
  let run :=
    generateImagesInParallel import_meta_env services analyses onProgress in
  trace run
  = [EvConcurrent [trace (job 0%nat a0); trace (job 1%nat a1); trace (job 2%nat a2)]]
    ++ progressReport onProgress 3 7
    ++ [EvConcurrent [trace (job 3%nat a3); trace (job 4%nat a4); trace (job 5%nat a5)]]
    ++ progressReport onProgress 6 7
    ++ [EvConcurrent [trace (job 6%nat a6)]]
    ++ progressReport onProgress 7 7 /\
  groupSizes (trace run) = [3; 3; 1]%nat /\
  exists results : list GeneratedMedia.t,
    outcome run = Returned results /\
    List.length results = 7%nat /\
    map GeneratedMedia.segmentIndex results = [0; 1; 2; 3; 4; 5; 6]%nat /\
    map GeneratedMedia.startTime results
      = map SegmentAnalysis.startTime analyses /\
    map GeneratedMedia.endTime results
      = map SegmentAnalysis.endTime analyses /\
    Forall (fun m => terminal (LumaResponse.state (GeneratedMedia.imageResponse m)))
      results /\
    (settledState (job 4%nat a4) = failed ->
     (exists m4, nth_error results 4 = Some m4 /\
        LumaResponse.state (GeneratedMedia.imageResponse m4) = failed) /\
     ((forall i a,
         In (i, a) [(0, a0); (1, a1); (2, a2); (3, a3); (5, a5); (6, a6)]%nat ->
         settledState (job i a) = completed) ->
      map (fun m => LumaResponse.state (GeneratedMedia.imageResponse m)) results
      = [completed; completed; completed; completed; failed;
         completed; completed])).
Proof.
  intros analyses job run.
  destruct (image_never_throws import_meta_env (services 0%nat) (imageOptions a0)) as [r0 H0].
  destruct (image_never_throws import_meta_env (services 1%nat) (imageOptions a1)) as [r1 H1].
  destruct (image_never_throws import_meta_env (services 2%nat) (imageOptions a2)) as [r2 H2].
  destruct (image_never_throws import_meta_env (services 3%nat) (imageOptions a3)) as [r3 H3].
  destruct (image_never_throws import_meta_env (services 4%nat) (imageOptions a4)) as [r4 H4].
  destruct (image_never_throws import_meta_env (services 5%nat) (imageOptions a5)) as [r5 H5].
  destruct (image_never_throws import_meta_env (services 6%nat) (imageOptions a6)) as [r6 H6].
  unfold run, analyses, trace, outcome.
  rewrite (seven_images_run import_meta_env services a0 a1 a2 a3 a4 a5 a6
             r0 r1 r2 r3 r4 r5 r6 H0 H1 H2 H3 H4 H5 H6 onProgress).
  cbn [fst snd]. split; [reflexivity |].
  split; [destruct onProgress; reflexivity |].
  eexists. split; [reflexivity |].
  split; [reflexivity |]. split; [reflexivity |].
  split; [reflexivity |]. split; [reflexivity |].
  split.
  - repeat (constructor;
            [cbn [GeneratedMedia.imageResponse];
             eapply image_job_terminal; eassumption |]).
    constructor.
  - unfold settledState, job. rewrite H4. intro Hfailed. split.
    + eexists. split; [reflexivity | exact Hfailed].
    + intro Hothers. cbn [map GeneratedMedia.imageResponse].
      pose proof (Hothers 0%nat a0) as E0. rewrite H0 in E0.
      pose proof (Hothers 1%nat a1) as E1. rewrite H1 in E1.
      pose proof (Hothers 2%nat a2) as E2. rewrite H2 in E2.
      pose proof (Hothers 3%nat a3) as E3. rewrite H3 in E3.
      pose proof (Hothers 5%nat a5) as E5. rewrite H5 in E5.
      pose proof (Hothers 6%nat a6) as E6. rewrite H6 in E6.
      rewrite E0, E1, E2, E3, Hfailed, E5, E6; cbn [In]; auto 10.
Qed.

(** Witness for C2: seven analyses, the job of index 4 rejected by the
    service, the others completed. *)
Lemma seven_images_in_three_groups_witness :
  exists results : list GeneratedMedia.t,
    outcome (generateImagesInParallel DemoService.env DemoBatch.services
               (map DemoBatch.analysis (seq 0 7)) true)
    = Returned results /\
    map (fun m => LumaResponse.state (GeneratedMedia.imageResponse m)) results
    = [completed; completed; completed; completed; failed;
       completed; completed].
Proof.
  destruct (seven_images_in_three_groups DemoService.env DemoBatch.services
              (DemoBatch.analysis 0) (DemoBatch.analysis 1)
              (DemoBatch.analysis 2) (DemoBatch.analysis 3)
              (DemoBatch.analysis 4) (DemoBatch.analysis 5)
              (DemoBatch.analysis 6) true)
    as (_ & _ & results & Hrun & _ & _ & _ & _ & _ & Hstates).
  exists results. split; [exact Hrun |].
  refine (proj2 (Hstates _) _).
  - reflexivity.
  - intros i a Hin. cbn [In] in Hin.
    repeat (destruct Hin as [Hin | Hin];
            [injection Hin as <- <-; reflexivity |]).
    destruct Hin.
Defined.

(* --------------------------------------------------------------------- *)
(** *** The credential *)
(* --------------------------------------------------------------------- *)

(** [generateLumaImage] sends exactly one creation request. *)
Lemma image_posts (import_meta_env : string -> option string)
    (service : Service.t) (options : ImageGenerationOptions.t) :
  posts (fst (generateLumaImage import_meta_env service options))
  = [imageRequest import_meta_env options].
Proof.
  unfold generateLumaImage, imageRequest. crush_cases;
    rewrite ?posts_app, ?poll_posts, ?errorMessageOf_posts; reflexivity.
Qed.

(** C9 does not hold of the code.  Whenever the build environment defines
    [VITE_LUMA_API_KEY] (the variable vite.config.ts takes the upstream
    credential from), the creation request built by the browser code
    carries [Bearer <key>] itself, the very value the development proxy
    attaches; and the server relay, when its own [LUMA_API_KEY] is not set,
    forwards the browser's header unchanged. *)
Theorem browser_request_carries_credential
    (process_env : string -> option string) (key : string)
    (service : Service.t) (options : ImageGenerationOptions.t) :
  process_env "VITE_LUMA_API_KEY" = Some key ->
  key <> "" ->
  let sent :=
    posts (trace (generateLumaImage (clientEnv process_env) service options)) in
  (exists request,
     sent = [request] /\
     req_authorization request = ("Bearer " ++ key)%string /\
     getHeader "Authorization" (viteProxyHeaders process_env)
       = Some (req_authorization request) /\
     (process_env "LUMA_API_KEY" = None ->
      getHeader "Authorization" (onProxyReq process_env (headersOf request))
        = Some (req_authorization request))).
Proof.
  intros Hkey Hne sent. unfold sent, trace. rewrite image_posts.
  eexists. split; [reflexivity |].
  assert (Hauth : authorization (clientEnv process_env) = ("Bearer " ++ key)%string).
  { unfold authorization, clientEnv. cbn [String.prefix].
    rewrite Hkey. reflexivity. }
  cbn [imageRequest req_authorization]. rewrite Hauth.
  split; [reflexivity |]. split.
  - unfold viteProxyHeaders. rewrite Hkey. cbn [str_or getHeader].
    destruct (String.eqb_spec key ""); [contradiction | reflexivity].
  - intro Hnone. unfold onProxyReq, headersOf. rewrite Hnone.
    cbn [imageRequest req_authorization]. rewrite Hauth. reflexivity.
Qed.

(** The failing input of C9: the key configured as vite.config.ts expects. *)
Lemma browser_request_carries_credential_witness :
  exists request,
    posts (trace (generateLumaImage (clientEnv DemoRelay.process_env)
                    DemoService.neverFinishes DemoService.options))
    = [request] /\
    req_authorization request = "Bearer luma-0123456789".
Proof.
  destruct (browser_request_carries_credential DemoRelay.process_env
              DemoRelay.key DemoService.neverFinishes DemoService.options)
    as (request & Hsent & Hauth & _).
  - reflexivity.
  - discriminate.
  - exists request. split; [exact Hsent | exact Hauth].
Defined.

(* ===================================================================== *)
(** ** Further properties *)
(* ===================================================================== *)

(* --------------------------------------------------------------------- *)
(** *** Polling: what it touches, and how request errors end it *)
(* --------------------------------------------------------------------- *)

Lemma errorMessageOf_pollEvents (auth : string) (id : Value) (m : string)
    (response : Response.t) :
  Forall (pollEvent auth id) (fst (errorMessageOf m response)).
Proof.
  unfold errorMessageOf. crush_cases; repeat constructor.
Qed.

Section PollingEffects.

Variable import_meta_env : string -> option string.
Variable service : Service.t.
Variable id : Value.

Local Abbreviation auth := (authorization import_meta_env).

Lemma pollOnce_pollEvents (attempts : nat) :
  Forall (pollEvent auth id) (fst (pollOnce import_meta_env service id attempts)).
Proof.
  unfold pollOnce. crush_cases;
    repeat first
      [ apply Forall_nil
      | apply Forall_cons; [cbn; auto |]
      | apply Forall_app; split
      | apply errorMessageOf_pollEvents ].
Qed.

Lemma pollLoop_pollEvents (n : nat) :
  forall attempts : nat,
    (attempts + n = maxAttempts)%nat ->
    Forall (pollEvent auth id)
      (fst (pollLoop import_meta_env service id attempts)).
Proof.
  induction n as [| n IH]; intros attempts Hsum; rewrite pollLoop_step.
  - destruct (lt_dec attempts maxAttempts) as [Hlt | _]; [lia | constructor].
  - destruct (lt_dec attempts maxAttempts) as [_ | Hge]; [| lia].
    rewrite trace_bind. apply Forall_app. split; [apply pollOnce_pollEvents |].
    destruct (snd (pollOnce import_meta_env service id attempts))
      as [[response | ] | e]; [apply Forall_nil | | apply Forall_nil].
    rewrite trace_bind. cbn [emit fst snd app].
    apply Forall_cons; [reflexivity |]. apply IH. lia.
Qed.

(** The loop at query [k] when the loop body throws. *)
Lemma pollLoop_throws (k : nat) (e : Thrown) :
  (k < maxAttempts)%nat ->
  snd (pollOnce import_meta_env service id k) = Threw e ->
  timeline (fst (pollLoop import_meta_env service id k)) = [Query] /\
  snd (pollLoop import_meta_env service id k) = Threw e.
Proof.
  intros Hk He. rewrite pollLoop_step.
  destruct (lt_dec k maxAttempts) as [_ | Hge]; [| lia].
  rewrite trace_bind, outcome_bind, timeline_app, pollOnce_timeline, He.
  split; reflexivity.
Qed.

Lemma pollOnce_http_error (k : nat) (response : Response.t) :
  Service.poll service k = Returned response ->
  Response.ok response = false ->
  snd (pollOnce import_meta_env service id k)
  = Returned (Some (LumaResponse.mk id failed None None
                      (specifiedReason statusFetchFailed response))).
Proof.
  intros Hr Hok. unfold pollOnce.
  rewrite outcome_bind. cbn [emit snd]. rewrite outcome_bind, Hr.
  cbn [lift snd]. rewrite Hok. cbn [negb].
  rewrite outcome_bind, errorMessageOf_spec. reflexivity.
Qed.

Lemma pollOnce_fetch_rejects (k : nat) (e : Thrown) :
  Service.poll service k = Threw e ->
  snd (pollOnce import_meta_env service id k) = Threw e.
Proof.
  intro Hr. unfold pollOnce.
  rewrite outcome_bind. cbn [emit snd]. rewrite outcome_bind, Hr. reflexivity.
Qed.

Lemma pollOnce_body_unreadable (k : nat) (response : Response.t) (e : Thrown) :
  Service.poll service k = Returned response ->
  Response.ok response = true ->
  Response.json response = Threw e ->
  snd (pollOnce import_meta_env service id k) = Threw e.
Proof.
  intros Hr Hok Hj. unfold pollOnce.
  rewrite outcome_bind. cbn [emit snd]. rewrite outcome_bind, Hr.
  cbn [lift snd]. rewrite Hok. cbn [negb].
  rewrite outcome_bind, Hj. reflexivity.
Qed.

End PollingEffects.

(** X1.  Whatever the service answers, [pollGenerationStatus] does nothing
    but: send a [GET] status query for the job it was asked about, with the
    client's authorization header and no body; wait for the polling
    interval; write to the console at level log or error.  It never sends a
    creation request and never asks about another job. *)
Theorem polling_touches_only_its_job
    (import_meta_env : string -> option string) (service : Service.t)
    (id : Value) :
  Forall (pollEvent (authorization import_meta_env) id)
    (trace (pollGenerationStatus import_meta_env service id)).
Proof.
  unfold trace, pollGenerationStatus.
  apply (pollLoop_pollEvents import_meta_env service id maxAttempts 0).
  reflexivity.
Qed.

(** X2.  Let the first [k] status replies report a running job.  If reply
    [k] is a response with a non-success status, polling stops there and
    returns a failed result that carries the polled id and the failure
    reason worked out from the response.  If the query [k] is rejected by
    [fetch], or its success response has a body that is not JSON, polling
    stops there and throws that error.  In all three cases no further query
    is made. *)
Theorem polling_ends_on_request_error
    (import_meta_env : string -> option string) (service : Service.t)
    (id : Value) (k : nat) :
  (k < maxAttempts)%nat ->
  (forall a, (a < k)%nat -> stillRunning (Service.poll service a) = true) ->
  let run := pollGenerationStatus import_meta_env service id in
  (forall response,
     Service.poll service k = Returned response ->
     Response.ok response = false ->
     outcome run
     = Returned (LumaResponse.mk id failed None None
                   (specifiedReason statusFetchFailed response)) /\
     timeline (trace run) = rounds k ++ [Query]) /\
  (forall e,
     Service.poll service k = Threw e ->
     outcome run = Threw e /\ timeline (trace run) = rounds k ++ [Query]) /\
  (forall response e,
     Service.poll service k = Returned response ->
     Response.ok response = true ->
     Response.json response = Threw e ->
     outcome run = Threw e /\ timeline (trace run) = rounds k ++ [Query]).
Proof.
  intros Hk Hrun run. unfold run, outcome, trace, pollGenerationStatus.
  destruct (pollLoop_skip import_meta_env service id k 0) as [Ht Ho];
    [cbn; lia | intros a Ha; apply Hrun; lia |].
  cbn [Nat.add] in Ht, Ho. rewrite Ht, Ho.
  split; [| split].
  - intros response Hr Hok.
    destruct (pollLoop_returns import_meta_env service id k _ Hk
                (pollOnce_http_error import_meta_env service id k response Hr Hok))
      as [Ht' Ho'].
    rewrite Ht', Ho'. split; reflexivity.
  - intros e Hr.
    destruct (pollLoop_throws import_meta_env service id k e Hk
                (pollOnce_fetch_rejects import_meta_env service id k e Hr))
      as [Ht' Ho'].
    rewrite Ht', Ho'. split; reflexivity.
  - intros response e Hr Hok Hj.
    destruct (pollLoop_throws import_meta_env service id k e Hk
                (pollOnce_body_unreadable import_meta_env service id k
                   response e Hr Hok Hj))
      as [Ht' Ho'].
    rewrite Ht', Ho'. split; reflexivity.
Qed.

(** Witness for X2: the creation is accepted but the first status query is
    answered with status 500. *)
Lemma polling_ends_on_request_error_witness :
  outcome (pollGenerationStatus DemoService.env DemoPolling.statusUnavailable
             (Some (JStr "gen-1")))
  = Returned (LumaResponse.mk (Some (JStr "gen-1")) failed None None
                (Some (JStr statusFetchFailed))).
Proof.
  refine (proj1 (proj1 (polling_ends_on_request_error DemoService.env
                          DemoPolling.statusUnavailable (Some (JStr "gen-1"))
                          0 _ _)
                   (Response.mk 500 "Internal Server Error" (Returned (JObj [])))
                   _ _)).
  - unfold maxAttempts. lia.
  - intros a Ha. lia.
  - reflexivity.
  - reflexivity.
Defined.

(* --------------------------------------------------------------------- *)
(** *** Video jobs *)
(* --------------------------------------------------------------------- *)

Section VideoOutcome.

Variable import_meta_env : string -> option string.
Variable service : Service.t.
Variable options : VideoGenerationOptions.t.

Local Abbreviation videoJob :=
  (generateLumaVideo import_meta_env service options).

Lemma video_transport_error (e : Thrown) :
  Service.create service = Threw e ->
  snd videoJob
  = Returned (failedWith "unknown" (Some (JStr (messageOr e unknownError)))).
Proof.
  intro H. unfold generateLumaVideo.
  rewrite outcome_try_catch, outcome_bind. cbn [emit snd].
  rewrite outcome_bind. cbn [emit snd].
  rewrite outcome_bind, H. reflexivity.
Qed.

Lemma video_rejected (response : Response.t) :
  Service.create service = Returned response ->
  Response.ok response = false ->
  snd videoJob
  = Returned (failedWith "error" (specifiedReason videoRequestFailed response)).
Proof.
  intros H Hok. unfold generateLumaVideo.
  rewrite outcome_try_catch, outcome_bind. cbn [emit snd].
  rewrite outcome_bind. cbn [emit snd].
  rewrite outcome_bind, H. cbn [lift snd]. rewrite Hok. cbn [negb].
  rewrite outcome_bind, errorMessageOf_spec. reflexivity.
Qed.

Lemma video_accepted (response : Response.t) (gs : list (string * Json)) :
  Service.create service = Returned response ->
  Response.ok response = true ->
  Response.json response = Returned (JObj gs) ->
  snd videoJob =
    match snd (pollGenerationStatus import_meta_env service
                 (lookup_last "id" gs)) with
    | Returned r => Returned r
    | Threw e =>
        Returned (failedWith "unknown" (Some (JStr (messageOr e unknownError))))
    end.
Proof.
  intros H Hok Hj. unfold generateLumaVideo.
  rewrite outcome_try_catch, outcome_bind. cbn [emit snd].
  rewrite outcome_bind. cbn [emit snd].
  rewrite outcome_bind, H. cbn [lift snd]. rewrite Hok. cbn [negb].
  rewrite outcome_bind, Hj. cbn [lift snd].
  rewrite outcome_bind. cbn [emit snd].
  rewrite outcome_bind. cbn [lift snd prop].
  destruct (snd (pollGenerationStatus _ _ _)); reflexivity.
Qed.

(** After an accepted creation whose response names the job [gid], the
    result is what polling for [gid] ends with: the job it returns, or the
    error it throws, turned into a failed result by the [catch]. *)
Lemma video_polled (response : Response.t) (generation : Json)
    (gid : Value) :
  Service.create service = Returned response ->
  Response.ok response = true ->
  Response.json response = Returned generation ->
  prop (Some generation) "id" = Returned gid ->
  snd videoJob =
    match snd (pollGenerationStatus import_meta_env service gid) with
    | Returned r => Returned r
    | Threw e =>
        Returned (failedWith "unknown" (Some (JStr (messageOr e unknownError))))
    end.
Proof.
  intros H Hok Hj Hid. unfold generateLumaVideo.
  rewrite outcome_try_catch, outcome_bind. cbn [emit snd].
  rewrite outcome_bind. cbn [emit snd].
  rewrite outcome_bind, H. cbn [lift snd]. rewrite Hok. cbn [negb].
  rewrite outcome_bind, Hj. cbn [lift snd].
  rewrite outcome_bind. cbn [emit snd].
  rewrite outcome_bind. cbn [lift snd]. rewrite Hid.
  destruct (snd (pollGenerationStatus _ _ _)); reflexivity.
Qed.

(** The creation response cannot be read, or has no readable [id]. *)
Lemma video_unreadable (response : Response.t) (e : Thrown) :
  Service.create service = Returned response ->
  Response.ok response = true ->
  (Response.json response = Threw e \/
   exists generation,
     Response.json response = Returned generation /\
     prop (Some generation) "id" = Threw e) ->
  snd videoJob
  = Returned (failedWith "unknown" (Some (JStr (messageOr e unknownError)))).
Proof.
  intros H Hok Hbody. unfold generateLumaVideo.
  rewrite outcome_try_catch, outcome_bind. cbn [emit snd].
  rewrite outcome_bind. cbn [emit snd].
  rewrite outcome_bind, H. cbn [lift snd]. rewrite Hok. cbn [negb].
  rewrite outcome_bind.
  destruct Hbody as [Hj | (generation & Hj & Hid)]; rewrite Hj; cbn [lift snd];
    [reflexivity |].
  rewrite outcome_bind. cbn [emit snd].
  rewrite outcome_bind. cbn [lift snd]. rewrite Hid. reflexivity.
Qed.

(** Every result of [generateLumaVideo] is in a terminal state. *)
Lemma video_job_terminal (r : LumaResponse.t) :
  snd videoJob = Returned r -> terminal (LumaResponse.state r).
Proof.
  unfold generateLumaVideo. rewrite outcome_try_catch.
  match goal with
  | |- context [match snd ?m with _ => _ end] =>
      destruct (snd m) as [r' | e] eqn:Hbody
  end.
  - intro H. injection H as <-.
    rewrite outcome_bind in Hbody. cbn [emit snd] in Hbody.
    rewrite outcome_bind in Hbody. cbn [emit snd] in Hbody.
    rewrite outcome_bind in Hbody.
    destruct (snd (lift (Service.create service))) as [response | e];
      [| discriminate Hbody].
    destruct (negb (Response.ok response)).
    + rewrite outcome_bind in Hbody.
      destruct (snd (errorMessageOf videoRequestFailed response));
        [| discriminate Hbody].
      injection Hbody as <-. right. reflexivity.
    + rewrite outcome_bind in Hbody.
      destruct (snd (lift (Response.json response))) as [generation | e];
        [| discriminate Hbody].
      rewrite outcome_bind in Hbody. cbn [emit snd] in Hbody.
      rewrite outcome_bind in Hbody.
      destruct (snd (lift (prop (Some generation) "id"))) as [gid | e];
        [| discriminate Hbody].
      exact (pollLoop_terminal import_meta_env service gid maxAttempts 0 _
               eq_refl Hbody).
  - rewrite outcome_bind. cbn [emit ret snd]. intro H. injection H as <-.
    right. reflexivity.
Qed.

End VideoOutcome.

(** X3.  [generateLumaVideo] never throws and its result is always in a
    terminal state.  A rejection of [fetch] gives a failed result with id
    ['unknown'] and the error's message; a non-success creation response
    gives a failed result with id ['error'] and the reason worked out from
    the response, with the video request's generic message; a success
    response that cannot be read, or has no readable [id], gives a failed
    result with id ['unknown'] and the message of the error raised.  After
    an accepted creation the result is whatever polling for the job it
    names ends with: the job polling returns, completed or failed, passed
    through unchanged, or, when polling throws (a request error, the
    timeout), a failed result with id ['unknown'] and that error's
    message. *)
Theorem video_job_outcomes
    (import_meta_env : string -> option string) (service : Service.t)
    (options : VideoGenerationOptions.t) :
  exists r : LumaResponse.t,
    outcome (generateLumaVideo import_meta_env service options) = Returned r /\
    terminal (LumaResponse.state r) /\
    (forall e,
       Service.create service = Threw e ->
       r = failedWith "unknown" (Some (JStr (messageOr e unknownError)))) /\
    (forall response,
       Service.create service = Returned response ->
       Response.ok response = false ->
       r = failedWith "error" (specifiedReason videoRequestFailed response)) /\
    (forall response e,
       Service.create service = Returned response ->
       Response.ok response = true ->
       (Response.json response = Threw e \/
        exists generation,
          Response.json response = Returned generation /\
          prop (Some generation) "id" = Threw e) ->
       r = failedWith "unknown" (Some (JStr (messageOr e unknownError)))) /\
    (forall response generation gid,
       Service.create service = Returned response ->
       Response.ok response = true ->
       Response.json response = Returned generation ->
       prop (Some generation) "id" = Returned gid ->
       let polling := pollGenerationStatus import_meta_env service gid in
       (forall job, outcome polling = Returned job -> r = job) /\
       (forall e,
          outcome polling = Threw e ->
          r = failedWith "unknown" (Some (JStr (messageOr e unknownError)))) /\
       ((forall a, (a < maxAttempts)%nat ->
                   stillRunning (Service.poll service a) = true) ->
        r = failedWith "unknown" (Some (JStr timedOut))) /\
       (forall k ms,
          (k < maxAttempts)%nat ->
          (forall a, (a < k)%nat ->
                     stillRunning (Service.poll service a) = true) ->
          (reports (Service.poll service k) "completed" ms ->
           r = completedJob ms) /\
          (reports (Service.poll service k) "failed" ms ->
           r = failedJob ms))).
Proof.
  destruct (video_never_throws import_meta_env service options) as [r Hr].
  exists r. unfold outcome. split; [exact Hr |].
  split; [exact (video_job_terminal import_meta_env service options r Hr) |].
  split; [| split; [| split]].
  - intros e H.
    rewrite (video_transport_error import_meta_env service options e H) in Hr.
    injection Hr as <-. reflexivity.
  - intros response H Hok.
    rewrite (video_rejected import_meta_env service options response H Hok) in Hr.
    injection Hr as <-. reflexivity.
  - intros response e H Hok Hbody.
    rewrite (video_unreadable import_meta_env service options response e H Hok
               Hbody) in Hr.
    injection Hr as <-. reflexivity.
  - intros response generation gid H Hok Hj Hid.
    rewrite (video_polled import_meta_env service options response generation
               gid H Hok Hj Hid) in Hr.
    split; [| split; [| split]].
    + intros job Hjob. rewrite Hjob in Hr. injection Hr as <-. reflexivity.
    + intros e He. rewrite He in Hr. injection Hr as <-. reflexivity.
    + intro Hrun.
      destruct (poll_timeout import_meta_env service gid Hrun) as [Ho _].
      rewrite Ho in Hr. injection Hr as <-. reflexivity.
    + intros k ms Hk Hrun. split; intro Hrep.
      * destruct (poll_final_answer import_meta_env service gid
                    k (completedJob ms) Hk Hrun) as [Ho _];
          [apply pollOnce_completed; exact Hrep |].
        rewrite Ho in Hr. injection Hr as <-. reflexivity.
      * destruct (poll_final_answer import_meta_env service gid
                    k (failedJob ms) Hk Hrun) as [Ho _];
          [apply pollOnce_failed; exact Hrep |].
        rewrite Ho in Hr. injection Hr as <-. reflexivity.
Qed.

(** Witness for X3: a video job accepted and completed at the first status
    query. *)
Lemma video_job_outcomes_witness :
  outcome (generateLumaVideo DemoService.env (DemoService.completesAfter 0)
             (VideoGenerationOptions.mk defaultPrompt [] None None))
  = Returned
      (completedJob (DemoService.statusMembers "completed" DemoService.imageAssets)).
Proof.
  destruct (video_job_outcomes DemoService.env (DemoService.completesAfter 0)
              (VideoGenerationOptions.mk defaultPrompt [] None None))
    as (r & Hr & _ & _ & _ & _ & Hacc).
  rewrite Hr. f_equal.
  refine (proj1 (proj2 (proj2 (proj2 (Hacc _ _ _ _ _ _ _))) 0%nat _ _ _) _).
  - reflexivity.
  - reflexivity.
  - reflexivity.
  - reflexivity.
  - unfold maxAttempts. lia.
  - intros a Ha. lia.
  - eexists. split; [reflexivity |]. split; [reflexivity |].
    split; reflexivity.
Defined.

(* --------------------------------------------------------------------- *)
(** *** Batched image generation, for any number of analyses *)
(* --------------------------------------------------------------------- *)

Lemma mapIndexed_map {A B C : Type} (g : B -> C) (f : A -> nat -> B)
    (l : list A) :
  forall k, map g (mapIndexed f k l) = mapIndexed (fun a idx => g (f a idx)) k l.
Proof.
  induction l as [| a l IH]; intro k; [reflexivity |].
  cbn [mapIndexed map]. rewrite IH. reflexivity.
Qed.

Lemma mapIndexed_ext {A B : Type} (f g : A -> nat -> B) (l : list A) :
  (forall a idx, f a idx = g a idx) ->
  forall k, mapIndexed f k l = mapIndexed g k l.
Proof.
  intro H. induction l as [| a l IH]; intro k; [reflexivity |].
  cbn [mapIndexed]. rewrite H, IH. reflexivity.
Qed.

Lemma mapIndexed_shift {A B : Type} (f : A -> nat -> B) (i : nat)
    (l : list A) :
  forall k,
    mapIndexed (fun a idx => f a (i + idx)%nat) k l = mapIndexed f (i + k) l.
Proof.
  induction l as [| a l IH]; intro k; [reflexivity |].
  cbn [mapIndexed]. rewrite IH. rewrite Nat.add_succ_r. reflexivity.
Qed.

Lemma mapIndexed_app {A B : Type} (f : A -> nat -> B) (l1 l2 : list A) :
  forall k,
    mapIndexed f k (l1 ++ l2)
    = mapIndexed f k l1 ++ mapIndexed f (k + List.length l1) l2.
Proof.
  induction l1 as [| a l1 IH]; intro k.
  - cbn. rewrite Nat.add_0_r. reflexivity.
  - cbn [mapIndexed app List.length]. rewrite IH.
    rewrite Nat.add_succ_r. reflexivity.
Qed.

Lemma mapIndexed_length {A B : Type} (f : A -> nat -> B) (l : list A) :
  forall k, List.length (mapIndexed f k l) = List.length l.
Proof.
  induction l as [| a l IH]; intro k; [reflexivity |].
  cbn [mapIndexed List.length]. rewrite IH. reflexivity.
Qed.

Lemma mapIndexed_nth {A B : Type} (f : A -> nat -> B) (l : list A) :
  forall k i,
    nth_error (mapIndexed f k l) i
    = option_map (fun a => f a (k + i)%nat) (nth_error l i).
Proof.
  induction l as [| a l IH]; intros k i.
  - destruct i; reflexivity.
  - destruct i as [| i]; cbn [mapIndexed nth_error option_map].
    + rewrite Nat.add_0_r. reflexivity.
    + rewrite IH. rewrite Nat.add_succ_r. reflexivity.
Qed.

Lemma groupsOf_small (n : nat) :
  (1 <= n <= batchSize)%nat -> groupsOf n = [n].
Proof.
  unfold batchSize. intro H.
  destruct n as [| [| [| [| n]]]]; try lia; reflexivity.
Qed.

Lemma groupsOf_step (n : nat) :
  (batchSize <= n)%nat -> groupsOf n = batchSize :: groupsOf (n - batchSize).
Proof.
  unfold groupsOf, batchSize. intro H.
  assert (Hd : (n / 3 = S ((n - 3) / 3))%nat).
  { replace n with ((n - 3) + 1 * 3)%nat at 1 by lia.
    rewrite Nat.div_add by lia. lia. }
  assert (Hm : (n mod 3 = (n - 3) mod 3)%nat).
  { replace n with ((n - 3) + 1 * 3)%nat at 1 by lia.
    apply Nat.Div0.mod_add. }
  rewrite Hd, Hm. reflexivity.
Qed.

Section AnyBatch.

Variable import_meta_env : string -> option string.
Variable services : nat -> Service.t.
Variable analyses : list SegmentAnalysis.t.
Variable onProgress : bool.

Local Abbreviation job idx a :=
  (generateLumaImage import_meta_env (services idx) (imageOptions a)).
Local Abbreviation entry :=
  (fun (a : SegmentAnalysis.t) (idx : nat) =>
     GeneratedMedia.mk idx (SegmentAnalysis.startTime a)
       (SegmentAnalysis.endTime a) (recordedResponse idx (job idx a))).
Local Abbreviation total := (List.length analyses).

Lemma batchPromise_entry (i index : nat) (a : SegmentAnalysis.t) :
  snd (batchPromise import_meta_env services i index a)
  = (entry a (i + index)%nat, []).
Proof.
  unfold batchPromise, recordedResponse.
  destruct (image_never_throws import_meta_env (services (i + index)%nat)
              (imageOptions a)) as [r Hr].
  rewrite Hr. reflexivity.
Qed.

Lemma concat_nils {A B : Type} (l : list A) :
  List.concat (map (fun _ : A => @nil B) l) = [].
Proof. induction l as [| a l IH]; [reflexivity | exact IH]. Qed.

(** The loop from [i] on adds the entries of the analyses from position
    [i] on, pushes nothing onto [errors], runs the groups of what is left
    and writes no warning. *)
Lemma batchLoop_spec (m : nat) :
  forall (i : nat) (results : list GeneratedMedia.t)
         (errors : list (nat * Thrown)),
    (total - i <= m)%nat ->
    let run :=
      batchLoop import_meta_env services analyses onProgress i results errors in
    snd run
    = Returned (results ++ mapIndexed entry i (skipn i analyses), errors) /\
    groupSizes (fst run) = groupsOf (total - i) /\
    warnings (fst run) = [] /\
    posts (fst run) = [].
Proof.
  induction m as [| m IH]; intros i results errors Hm run; unfold run;
    rewrite batchLoop_step.
  - destruct (lt_dec i total) as [Hlt | Hge]; [lia |].
    rewrite skipn_all2 by lia. cbn [mapIndexed ret fst snd].
    rewrite app_nil_r. replace (total - i)%nat with 0%nat by lia.
    repeat split; reflexivity.
  - destruct (lt_dec i total) as [Hlt | Hge].
    + assert (Hbs : batchSize = 3%nat) by reflexivity.
      cbv zeta. unfold slice.
      replace (i + batchSize - i)%nat with batchSize by lia.
      set (rest := skipn i analyses).
      set (batch := firstn batchSize rest).
      assert (Hrest : List.length rest = (total - i)%nat)
        by (unfold rest; apply length_skipn).
      assert (Hbatch : List.length batch = Nat.min batchSize (total - i))
        by (unfold batch; rewrite length_firstn, Hrest; reflexivity).
      assert (Hresults :
                map (fun p => fst (snd p))
                  (mapIndexed (fun analysis index =>
                                 batchPromise import_meta_env services i index
                                   analysis) 0 batch)
                = mapIndexed entry i batch).
      { rewrite mapIndexed_map.
        rewrite (mapIndexed_ext _ (fun a idx => entry a (i + idx)%nat))
          by (intros a idx; rewrite batchPromise_entry; reflexivity).
        rewrite (mapIndexed_shift entry i batch 0), Nat.add_0_r. reflexivity. }
      assert (Herrors :
                List.concat
                  (map (fun p => snd (snd p))
                     (mapIndexed (fun analysis index =>
                                    batchPromise import_meta_env services i
                                      index analysis) 0 batch))
                = []).
      { rewrite mapIndexed_map.
        rewrite (mapIndexed_ext _ (fun _ _ => @nil (nat * Thrown)))
          by (intros a idx; rewrite batchPromise_entry; reflexivity).
        clear. generalize 0%nat. induction batch as [| a l IHl]; intro k;
          [reflexivity | cbn; apply IHl]. }
      rewrite Hresults, Herrors, app_nil_r.
      destruct (IH (i + batchSize)%nat (results ++ mapIndexed entry i batch)
                  errors) as (Ho & Hg & Hw & Hp); [lia |].
      assert (Hsplit :
                (results ++ mapIndexed entry i batch)
                ++ mapIndexed entry (i + batchSize)
                     (skipn (i + batchSize) analyses)
                = results ++ mapIndexed entry i rest).
      { rewrite <- app_assoc. f_equal.
        transitivity (mapIndexed entry i (batch ++ skipn batchSize rest));
          [| unfold batch; rewrite firstn_skipn; reflexivity].
        rewrite mapIndexed_app. f_equal.
        unfold rest. rewrite skipn_skipn.
        replace (batchSize + i)%nat with (i + batchSize)%nat by lia.
        destruct (le_lt_dec batchSize (total - i)) as [Hfull | Hshort].
        - rewrite Hbatch, Nat.min_l by lia. reflexivity.
        - rewrite skipn_all2 by lia. reflexivity. }
      assert (Hgroups :
                List.length batch :: groupsOf (total - (i + batchSize))
                = groupsOf (total - i)).
      { rewrite Hbatch.
        destruct (le_lt_dec batchSize (total - i)) as [Hfull | Hshort].
        - rewrite Nat.min_l by lia. rewrite (groupsOf_step (total - i)) by lia.
          f_equal. f_equal. lia.
        - rewrite Nat.min_r by lia.
          rewrite (groupsOf_small (total - i)) by lia.
          replace (total - (i + batchSize))%nat with 0%nat by lia.
          reflexivity. }
      rewrite !outcome_bind, !trace_bind. cbn [emit snd fst].
      destruct onProgress;
        cbn [emit ret fst snd app groupSizes warnings posts];
        rewrite Ho, Hg, Hw, Hp, Hsplit, length_map, mapIndexed_length, Hgroups;
        repeat split; reflexivity.
    + rewrite skipn_all2 by lia. cbn [mapIndexed ret fst snd].
      rewrite app_nil_r. replace (total - i)%nat with 0%nat by lia.
      repeat split; reflexivity.
Qed.

Lemma entries_sorted (l : list SegmentAnalysis.t) :
  forall k,
    StronglySorted
      (fun a b => (GeneratedMedia.segmentIndex a
                   <= GeneratedMedia.segmentIndex b)%nat)
      (mapIndexed entry k l) /\
    Forall (fun b => (k <= GeneratedMedia.segmentIndex b)%nat)
      (mapIndexed entry k l).
Proof.
  induction l as [| a l IH]; intro k; [split; constructor |].
  destruct (IH (S k)) as [Hs Hf]. cbn [mapIndexed]. split.
  - constructor; [exact Hs |].
    eapply Forall_impl; [| exact Hf]. intros b Hb. cbv beta in Hb.
    cbn [GeneratedMedia.segmentIndex]. lia.
  - constructor; [cbn [GeneratedMedia.segmentIndex]; lia |].
    eapply Forall_impl; [| exact Hf]. intros b Hb. cbv beta in Hb |- *. lia.
Qed.

(** The whole run. *)
Lemma any_batch_run :
  let run :=
    generateImagesInParallel import_meta_env services analyses onProgress in
  snd run = Returned (mapIndexed entry 0 analyses) /\
  groupSizes (fst run) = groupsOf total /\
  warnings (fst run) = [] /\
  posts (fst run) = [].
Proof.
  intro run. unfold run, generateImagesInParallel.
  destruct (batchLoop_spec total 0 [] []) as (Ho & Hg & Hw & Hp); [lia |].
  rewrite Nat.sub_0_r in Hg. cbn [skipn app] in Ho.
  rewrite outcome_bind, trace_bind, Ho.
  cbn [List.length Nat.ltb Nat.leb ret fst snd bind app].
  rewrite app_nil_r.
  rewrite (sortByIndex_sorted _ (proj1 (entries_sorted analyses 0))).
  repeat split; assumption.
Qed.

End AnyBatch.

(** X4.  For every list of analyses and every behaviour of the service,
    [generateImagesInParallel] returns, with exactly one entry per
    analysis, in the input order: the entry at position [i] has
    [segmentIndex] [i], the times of the analysis at position [i], and the
    response that the image job for that analysis returned. *)
Theorem images_one_entry_per_analysis
    (import_meta_env : string -> option string) (services : nat -> Service.t)
    (analyses : list SegmentAnalysis.t) (onProgress : bool) :
  exists results : list GeneratedMedia.t,
    outcome (generateImagesInParallel import_meta_env services analyses
               onProgress) = Returned results /\
    List.length results = List.length analyses /\
    forall i a,
      nth_error analyses i = Some a ->
      exists r,
        outcome (generateLumaImage import_meta_env (services i)
                   (imageOptions a)) = Returned r /\
        nth_error results i
        = Some (GeneratedMedia.mk i (SegmentAnalysis.startTime a)
                  (SegmentAnalysis.endTime a) r).
Proof.
  destruct (any_batch_run import_meta_env services analyses onProgress)
    as (Ho & _).
  eexists. unfold outcome. split; [exact Ho |].
  split; [apply mapIndexed_length |].
  intros i a Ha.
  destruct (image_never_throws import_meta_env (services i) (imageOptions a))
    as [r Hr].
  exists r. split; [exact Hr |].
  rewrite mapIndexed_nth, Ha. cbn [option_map Nat.add].
  unfold recordedResponse. rewrite Hr. reflexivity.
Qed.

(** Witness for X4: the entry recorded for the rejected job of index 4. *)
Lemma images_one_entry_per_analysis_witness :
  exists results : list GeneratedMedia.t,
    outcome (generateImagesInParallel DemoService.env DemoBatch.services
               (map DemoBatch.analysis (seq 0 7)) false) = Returned results /\
    nth_error results 4
    = Some (GeneratedMedia.mk 4 120 150
              (failedWith "error" (Some (JStr imageRequestFailed)))).
Proof.
  destruct (images_one_entry_per_analysis DemoService.env DemoBatch.services
              (map DemoBatch.analysis (seq 0 7)) false)
    as (results & Hrun & _ & Hentries).
  exists results. split; [exact Hrun |].
  destruct (Hentries 4%nat (DemoBatch.analysis 4) eq_refl) as (r & Hr & Hnth).
  vm_compute in Hr. injection Hr as <-. exact Hnth.
Defined.

(** X5.  However many analyses there are, the image jobs run in groups of
    three, followed by one smaller group when the number is not a multiple
    of three; no group is empty and none holds more than three jobs.  The
    failure summary ([console.warn]) is never written, because no image
    job's promise rejects. *)
Theorem image_groups_hold_at_most_three
    (import_meta_env : string -> option string) (services : nat -> Service.t)
    (analyses : list SegmentAnalysis.t) (onProgress : bool) :
  let run :=
    generateImagesInParallel import_meta_env services analyses onProgress in
  let n := List.length analyses in
  groupSizes (trace run)
  = repeat 3%nat (n / 3) ++ (if Nat.eqb (n mod 3) 0 then [] else [n mod 3]%nat) /\
  Forall (fun g => (1 <= g <= 3)%nat) (groupSizes (trace run)) /\
  list_sum (groupSizes (trace run)) = n /\
  warnings (trace run) = [].
Proof.
  intros run n.
  destruct (any_batch_run import_meta_env services analyses onProgress)
    as (_ & Hg & Hw & _).
  fold run in Hg, Hw. fold n in Hg. unfold trace. rewrite Hg.
  unfold groupsOf, batchSize.
  split; [reflexivity |]. split; [| split; [| exact Hw]].
  - apply Forall_app. split.
    + apply Forall_forall. intros g Hin. apply repeat_spec in Hin.
      subst g. lia.
    + destruct (Nat.eqb_spec (n mod 3) 0); constructor; [| constructor].
      pose proof (Nat.mod_upper_bound n 3 ltac:(lia)). lia.
  - rewrite list_sum_app.
    assert (Hrep : forall k, list_sum (repeat 3%nat k) = (3 * k)%nat).
    { induction k as [| k IH]; [reflexivity |].
      change (repeat 3%nat (S k)) with (3%nat :: repeat 3%nat k).
      change (list_sum (3%nat :: repeat 3%nat k))
        with (3 + list_sum (repeat 3%nat k))%nat.
      lia. }
    rewrite Hrep. pose proof (Nat.div_mod_eq n 3) as Hdm.
    destruct (Nat.eqb_spec (n mod 3) 0);
      [change (list_sum []) with 0%nat
      | change (list_sum [n mod 3]%nat) with (n mod 3 + 0)%nat]; lia.
Qed.

(* --------------------------------------------------------------------- *)
(** *** Video assembly: the warning and the keyframes *)
(* --------------------------------------------------------------------- *)

Lemma quiet_warnings (t : list Event) : Forall quiet t -> warnings t = [].
Proof.
  induction 1 as [| e t He Ht IH]; [reflexivity |].
  destruct e as [r | ms | lvl text err | done total | p | tasks];
    cbn [warnings]; try exact IH.
  destruct lvl; [exact IH | destruct He | exact IH].
Qed.

Lemma warnings_app (a b : list Event) :
  warnings (a ++ b) = warnings a ++ warnings b.
Proof.
  induction a as [| e a IH]; [reflexivity |].
  destruct e as [r | ms | lvl text err | done total | p | tasks];
    cbn [warnings app]; try exact IH.
  destruct lvl; cbn [app]; rewrite ?IH; reflexivity.
Qed.

Lemma pollEvent_quiet (auth : string) (id : Value) (t : list Event) :
  Forall (pollEvent auth id) t -> Forall quiet t.
Proof.
  apply Forall_impl. intros e He.
  destruct e as [r | ms | lvl text err | done total | p | tasks];
    try exact I. destruct lvl; [exact I | destruct He | exact I].
Qed.

Lemma errorMessageOf_quiet (m : string) (response : Response.t) :
  Forall quiet (fst (errorMessageOf m response)).
Proof.
  apply (pollEvent_quiet "" None). apply errorMessageOf_pollEvents.
Qed.

Lemma poll_quiet (import_meta_env : string -> option string)
    (service : Service.t) (id : Value) :
  Forall quiet (fst (pollGenerationStatus import_meta_env service id)).
Proof.
  eapply pollEvent_quiet.
  apply (pollLoop_pollEvents import_meta_env service id maxAttempts 0).
  reflexivity.
Qed.

Lemma video_quiet (import_meta_env : string -> option string)
    (service : Service.t) (options : VideoGenerationOptions.t) :
  Forall quiet (fst (generateLumaVideo import_meta_env service options)).
Proof.
  unfold generateLumaVideo. crush_cases;
    repeat first
      [ apply Forall_nil
      | apply Forall_cons; [exact I |]
      | apply Forall_app; split
      | apply errorMessageOf_quiet
      | apply poll_quiet ].
Qed.

(** The keyframes of a list of successful images, one by one. *)
Lemma keyframes_nth (l : list GeneratedMedia.t) :
  forall (k j : nat) (img : GeneratedMedia.t),
    (forall x, In x l -> successful x = true) ->
    nth_error l j = Some img ->
    exists url,
      LumaResponse.imageUrl (GeneratedMedia.imageResponse img) = Some url /\
      nth_error (List.concat (mapIndexed keyframe k l)) j
      = Some (("frame" ++ nat_to_string (k + j))%string,
              JObj [("type", JStr "image"); ("url", url);
                    ("timing", JNum (GeneratedMedia.startTime img))]).
Proof.
  induction l as [| x l IH]; intros k j img Hall Hj.
  - destruct j; discriminate Hj.
  - destruct (keyframe_successful x k (Hall x (or_introl eq_refl)))
      as (url & Hurl & Hk).
    cbn [mapIndexed List.concat]. rewrite Hk.
    destruct j as [| j].
    + injection Hj as <-. exists url. rewrite Nat.add_0_r.
      split; [exact Hurl | reflexivity].
    + cbn [nth_error] in Hj.
      destruct (IH (S k) j img (fun y Hy => Hall y (or_intror Hy)) Hj)
        as (url' & Hurl' & Hn).
      exists url'. split; [exact Hurl' |].
      cbn [app nth_error]. rewrite Hn, Nat.add_succ_r. reflexivity.
Qed.

(** X6.  Given at least one successful image, [createVideoFromImages]
    writes the degraded-quality warning exactly when fewer than half of the
    generated images are successful, and writes no other warning: with
    half or more successful there is none. *)
Theorem video_warning_exactly_below_half
    (import_meta_env : string -> option string) (service : Service.t)
    (generatedImages : list GeneratedMedia.t)
    (audioUrl overallPrompt : option string) :
  let run :=
    createVideoFromImages import_meta_env service generatedImages audioUrl
      overallPrompt in
  let succeeded := List.length (filter successful generatedImages) in
  let total := List.length generatedImages in
  (1 <= succeeded)%nat ->
  warnings (trace run)
  = if Nat.ltb (2 * succeeded) total
    then [degradedWarning succeeded total]
    else [].
Proof.
  intros run succeeded total Hone. unfold run, trace, createVideoFromImages.
  fold succeeded. fold total.
  destruct succeeded as [| s] eqn:Es; [lia |]. cbn [Nat.eqb].
  rewrite trace_bind, warnings_app.
  assert (Hvideo : forall o,
            warnings (fst (generateLumaVideo import_meta_env service o)) = [])
    by (intro o; apply quiet_warnings, video_quiet).
  match goal with
  | |- context [Qlt_le_dec ?a ?b] => destruct (Qlt_le_dec a b) as [Hlt | Hge]
  end; cbn [emit ret fst snd warnings app]; rewrite Hvideo.
  - assert (Hb : Nat.ltb (2 * S s) total = true).
    { apply Nat.ltb_lt. unfold Qlt, Qmult, inject_Z in Hlt. cbn in Hlt. lia. }
    rewrite Hb. reflexivity.
  - assert (Hb : Nat.ltb (2 * S s) total = false).
    { apply Nat.ltb_ge. unfold Qle, Qmult, inject_Z in Hge. cbn in Hge. lia. }
    rewrite Hb. reflexivity.
Qed.

(** Witness for X6: with 17 successful images out of 40 the warning says
    57%, the rounded double, where the exact quotient would round to 58%. *)
Lemma video_warning_exactly_below_half_witness :
  warnings (trace (createVideoFromImages DemoService.env
                     (DemoService.completesAfter 0) (DemoImages.images 17 40)
                     None None))
  = ["警告: 生成された画像の57%が失敗しました。動画の品質が低下する可能性があります。"].
Proof.
  pose proof (video_warning_exactly_below_half DemoService.env
                (DemoService.completesAfter 0) (DemoImages.images 17 40)
                None None) as H.
  cbv zeta in H. rewrite H; [| vm_compute; lia].
  vm_compute. reflexivity.
Defined.

(** X7.  Given at least one successful image, [createVideoFromImages]
    submits exactly one request, a [POST] to the creation endpoint whose
    body is the object with the members [prompt] (the caller's prompt, or
    the default prompt when none or an empty one is given), [model]
    (['ray-2']), [keyframes], and [audio] (an object holding the URL) when a
    non-empty audio URL is given.  The keyframes are those of the
    successful images in their order: the [j]-th is named [frame<j>] and
    holds the type ['image'], the image URL of the [j]-th successful image
    and, as timing, the start time of its segment. *)
Theorem video_keyframes_follow_successes
    (import_meta_env : string -> option string) (service : Service.t)
    (generatedImages : list GeneratedMedia.t)
    (audioUrl overallPrompt : option string) :
  let run :=
    createVideoFromImages import_meta_env service generatedImages audioUrl
      overallPrompt in
  let successfulImages := filter successful generatedImages in
  let prompt :=
    match overallPrompt with
    | Some p => if String.eqb p "" then defaultPrompt else p
    | None => defaultPrompt
    end in
  let audio :=
    match audioUrl with
    | Some url =>
        if String.eqb url "" then []
        else [("audio", JObj [("url", JStr url)])]
    | None => []
    end in
  (exists img, In img generatedImages /\ successful img = true) ->
  exists keyframes : list (string * Json),
    posts (trace run)
    = [mkRequest POST UrlCreate
         ("Bearer " ++ template (import_meta_env "VITE_LUMA_API_KEY"))
         (Some (JObj ([("prompt", JStr prompt); ("model", JStr "ray-2");
                       ("keyframes", JObj keyframes)] ++ audio)))] /\
    List.length keyframes = List.length successfulImages /\
    forall j img,
      nth_error successfulImages j = Some img ->
      exists url,
        LumaResponse.imageUrl (GeneratedMedia.imageResponse img) = Some url /\
        nth_error keyframes j
        = Some (("frame" ++ nat_to_string j)%string,
                JObj [("type", JStr "image"); ("url", url);
                      ("timing", JNum (GeneratedMedia.startTime img))]).
Proof.
  intros run successfulImages prompt audio Hsome.
  assert (Hall : forall x, In x successfulImages -> successful x = true)
    by (intros x Hx; apply filter_In in Hx; exact (proj2 Hx)).
  exists (List.concat (mapIndexed keyframe 0 successfulImages)).
  split; [| split].
  - subst run. unfold trace.
    rewrite (assembly_posts import_meta_env service generatedImages audioUrl
               overallPrompt (filter_some _ _ Hsome)).
    subst prompt audio. unfold videoRequest, requestBody, authorization.
    cbn [VideoGenerationOptions.prompt VideoGenerationOptions.model
         VideoGenerationOptions.keyframes VideoGenerationOptions.audioUrl].
    destruct overallPrompt as [p |]; reflexivity.
  - apply keyframes_length. exact Hall.
  - intros j img Hj. exact (keyframes_nth successfulImages 0 j img Hall Hj).
Qed.

(** Witness for X7: four successful images out of ten, no audio and no
    prompt given: the default prompt and four keyframes are sent. *)
Lemma video_keyframes_follow_successes_witness :
  exists keyframes : list (string * Json),
    posts (trace (createVideoFromImages DemoService.env
                    (DemoService.completesAfter 0) (DemoImages.images 4 10)
                    None None))
    = [mkRequest POST UrlCreate
         ("Bearer " ++ template (DemoService.env "VITE_LUMA_API_KEY"))
         (Some (JObj [("prompt", JStr defaultPrompt); ("model", JStr "ray-2");
                      ("keyframes", JObj keyframes)]))] /\
    List.length keyframes = 4%nat.
Proof.
  destruct (video_keyframes_follow_successes DemoService.env
              (DemoService.completesAfter 0) (DemoImages.images 4 10)
              None None)
    as (keyframes & Hposts & Hlen & _).
  - exists (DemoImages.image 4 0). split; [left; reflexivity | reflexivity].
  - exists keyframes. split; [exact Hposts | exact Hlen].
Defined.

(* --------------------------------------------------------------------- *)
(** *** The whole flow *)
(* --------------------------------------------------------------------- *)

Lemma mapIndexed_In {A B : Type} (f : A -> nat -> B) (l : list A) :
  forall (k : nat) (x : B),
    In x (mapIndexed f k l) ->
    exists i a, nth_error l i = Some a /\ x = f a (k + i)%nat.
Proof.
  induction l as [| a l IH]; intros k x Hin; [destruct Hin |].
  cbn [mapIndexed] in Hin. destruct Hin as [<- | Hin].
  - exists 0%nat, a. rewrite Nat.add_0_r. split; reflexivity.
  - destruct (IH (S k) x Hin) as (i & b & Hb & Hx).
    exists (S i), b. rewrite Nat.add_succ_r. split; assumption.
Qed.

Lemma flowEffects_app (a b : list FlowEvent) :
  flowEffects (a ++ b) = flowEffects a ++ flowEffects b.
Proof.
  induction a as [| e a IH]; [reflexivity |].
  destruct e; cbn [flowEffects app]; rewrite IH; reflexivity.
Qed.

Lemma notifications_app (a b : list FlowEvent) :
  notifications (a ++ b) = notifications a ++ notifications b.
Proof.
  induction a as [| e a IH]; [reflexivity |].
  destruct e; cbn [notifications app]; rewrite IH; reflexivity.
Qed.

Lemma flowEffects_effects (t : list Event) :
  flowEffects (map FlowEffect t) = t.
Proof.
  induction t as [| e t IH]; [reflexivity |].
  cbn [map flowEffects]. rewrite IH. reflexivity.
Qed.

Lemma notifications_effects (t : list Event) :
  notifications (map FlowEffect t) = [].
Proof. induction t as [| e t IH]; [reflexivity | exact IH]. Qed.

Section FlowFacts.

Variable Number_toString : Q -> string.
Variable import_meta_env : string -> option string.
Variable services : nat -> Service.t.
Variable videoService : Service.t.
Variable audioUrl : string.
Variable analyses : list SegmentAnalysis.t.
Variables onImageProgress onVideoProgress : bool.

Local Abbreviation flow :=
  (executeFullGenerationFlow Number_toString import_meta_env services
     videoService audioUrl analyses onImageProgress onVideoProgress).
Local Abbreviation imagesRun :=
  (generateImagesInParallel import_meta_env services analyses onImageProgress).
Local Abbreviation assemblyOf images :=
  (createVideoFromImages import_meta_env videoService images (Some audioUrl)
     (Some flowPrompt)).
Local Abbreviation said b msgs := (if b : bool then msgs else @nil string).

(** The flow, once the images are named: what is left is the assembly of
    the video and the check of its state. *)
Lemma flow_after_images (images : list GeneratedMedia.t) :
  snd imagesRun = Returned images ->
  snd flow =
    match snd (assemblyOf images) with
    | Returned videoResponse =>
        if State_eqb (LumaResponse.state videoResponse) failed
        then Threw (JsError
                      (videoFailedPrefix
                         ++ Value_toString Number_toString
                              (LumaResponse.failure_reason videoResponse))%string)
        else Returned videoResponse
    | Threw e => Threw e
    end /\
  flowEffects (fst flow) =
    fst imagesRun ++ fst (assemblyOf images)
    ++ match snd flow with
       | Returned _ => []
       | Threw e => [EvConsole LvError flowErrorLabel (Some e)]
       end /\
  notifications (fst flow) =
    said onVideoProgress [startingImages]
    ++ said onVideoProgress [startingVideo]
    ++ match snd flow with
       | Returned _ => said onVideoProgress [videoDone]
       | Threw _ => []
       end.
Proof.
  intro Himages.
  unfold executeFullGenerationFlow, flow_try, flow_bind, effects, notify.
  cbn [fst snd]. rewrite Himages. cbn [fst snd].
  destruct (snd (assemblyOf images)) as [videoResponse | e]; cbn [fst snd].
  - destruct (State_eqb (LumaResponse.state videoResponse) failed);
      cbn [fst snd];
      rewrite ?flowEffects_app, ?notifications_app,
        ?flowEffects_effects, ?notifications_effects;
      destruct onVideoProgress;
      cbn [flowEffects notifications app]; rewrite ?app_nil_r, <- ?app_assoc;
      repeat split; reflexivity.
  - rewrite ?flowEffects_app, ?notifications_app,
      ?flowEffects_effects, ?notifications_effects.
    destruct onVideoProgress;
      cbn [flowEffects notifications app]; rewrite ?app_nil_r, <- ?app_assoc;
      repeat split; reflexivity.
Qed.

End FlowFacts.

Lemma assembly_terminal (import_meta_env : string -> option string)
    (service : Service.t) (images : list GeneratedMedia.t)
    (audioUrl overallPrompt : option string) (r : LumaResponse.t) :
  snd (createVideoFromImages import_meta_env service images audioUrl
         overallPrompt) = Returned r ->
  terminal (LumaResponse.state r).
Proof.
  unfold createVideoFromImages.
  destruct (Nat.eqb (List.length (filter successful images)) 0);
    [discriminate |].
  rewrite outcome_bind.
  match goal with
  | |- context [Qlt_le_dec ?a ?b] => destruct (Qlt_le_dec a b)
  end; cbn [emit ret snd]; apply video_job_terminal.
Qed.

Lemma recorded_state (idx : nat) (job : Eff LumaResponse.t) :
  LumaResponse.state (recordedResponse idx job) = settledState job.
Proof.
  unfold recordedResponse, settledState. destruct (snd job); reflexivity.
Qed.

(** X8.  When [executeFullGenerationFlow] returns, the video it returns is
    in state [completed]: a failed (or unfinished) job is never handed to
    the caller as a result.  The completion message is then the last of the
    three messages passed to [onVideoProgress]. *)
Theorem flow_returns_only_completed_video
    (Number_toString : Q -> string)
    (import_meta_env : string -> option string)
    (services : nat -> Service.t) (videoService : Service.t)
    (audioUrl : string) (analyses : list SegmentAnalysis.t)
    (onImageProgress onVideoProgress : bool) (r : LumaResponse.t) :
  let flow :=
    executeFullGenerationFlow Number_toString import_meta_env services
      videoService audioUrl analyses onImageProgress onVideoProgress in
  snd flow = Returned r ->
  LumaResponse.state r = completed /\
  notifications (fst flow)
  = (if onVideoProgress then [startingImages; startingVideo; videoDone]
     else []).
Proof.
  intros flow Hr.
  destruct (any_batch_run import_meta_env services analyses onImageProgress)
    as (Himages & _).
  destruct (flow_after_images Number_toString import_meta_env services
              videoService audioUrl analyses onImageProgress onVideoProgress
              _ Himages) as (Ho & _ & Hn).
  fold flow in Ho, Hn. rewrite Hr in Hn. rewrite Hn. rewrite Hr in Ho.
  split; [| destruct onVideoProgress; reflexivity].
  match type of Ho with
  | _ = match snd ?m with _ => _ end => destruct (snd m) as [v | e] eqn:Hv
  end; [| discriminate Ho].
  destruct (State_eqb (LumaResponse.state v) failed) eqn:Hs; [discriminate Ho |].
  injection Ho as ->.
  destruct (assembly_terminal _ _ _ _ _ _ Hv) as [Hc | Hf]; [exact Hc |].
  rewrite Hf in Hs. discriminate Hs.
Qed.

(** Witness for X8: one analysis, image and video both completed. *)
Lemma flow_returns_only_completed_video_witness :
  LumaResponse.state
    (completedJob (DemoService.statusMembers "completed" DemoService.imageAssets))
  = completed.
Proof.
  refine (proj1 (flow_returns_only_completed_video wholeNumberToString
                   DemoService.env DemoFlow.allComplete
                   (DemoService.completesAfter 0) "blob:audio"
                   [DemoBatch.analysis 0] true true _ _)).
  vm_compute. reflexivity.
Defined.

(** X9.  If every image job ends in state [failed] (in particular if there
    is no analysis at all), [executeFullGenerationFlow] throws the error of
    [createVideoFromImages] for a missing image, after logging it; it never
    submits a video job and never reports completion. *)
Theorem flow_without_images_throws
    (Number_toString : Q -> string)
    (import_meta_env : string -> option string)
    (services : nat -> Service.t) (videoService : Service.t)
    (audioUrl : string) (analyses : list SegmentAnalysis.t)
    (onImageProgress onVideoProgress : bool) :
  let flow :=
    executeFullGenerationFlow Number_toString import_meta_env services
      videoService audioUrl analyses onImageProgress onVideoProgress in
  (forall i a,
     nth_error analyses i = Some a ->
     settledState (generateLumaImage import_meta_env (services i)
                     (imageOptions a)) = failed) ->
  snd flow = Threw (JsError noValidImages) /\
  posts (flowEffects (fst flow)) = [] /\
  notifications (fst flow)
  = (if onVideoProgress then [startingImages; startingVideo] else []) /\
  exists before,
    flowEffects (fst flow)
    = before ++ [EvConsole LvError flowErrorLabel (Some (JsError noValidImages))].
Proof.
  intros flow Hfail.
  destruct (any_batch_run import_meta_env services analyses onImageProgress)
    as (Himages & _ & _ & Hposts).
  destruct (flow_after_images Number_toString import_meta_env services
              videoService audioUrl analyses onImageProgress onVideoProgress
              _ Himages) as (Ho & He & Hn).
  fold flow in Ho, He, Hn.
  match type of Ho with
  | _ = match snd (createVideoFromImages _ _ ?imgs _ _) with _ => _ end =>
      assert (Hnone : forall img, In img imgs -> successful img = false)
  end.
  { intros img Hin. apply mapIndexed_In in Hin.
    destruct Hin as (i & a & Ha & ->). unfold successful.
    cbn [GeneratedMedia.imageResponse]. rewrite recorded_state.
    cbn [Nat.add]. rewrite (Hfail i a Ha). reflexivity. }
  rewrite (assembly_without_images import_meta_env videoService _ _ _
             (filter_none successful _ Hnone)) in Ho, He.
  cbn [fst snd] in Ho, He. rewrite Ho in He, Hn.
  split; [exact Ho |]. split; [| split].
  - rewrite He, posts_app, Hposts. reflexivity.
  - rewrite Hn. destruct onVideoProgress; reflexivity.
  - eexists. rewrite He. cbn [app]. reflexivity.
Qed.

(** Witness for X9: seven analyses whose image jobs are all rejected. *)
Lemma flow_without_images_throws_witness :
  snd (executeFullGenerationFlow wholeNumberToString DemoService.env
         DemoFlow.allRejected (DemoService.completesAfter 0) "blob:audio"
         (map DemoBatch.analysis (seq 0 7)) true true)
  = Threw (JsError noValidImages).
Proof.
  refine (proj1 (flow_without_images_throws wholeNumberToString
                   DemoService.env DemoFlow.allRejected
                   (DemoService.completesAfter 0) "blob:audio"
                   (map DemoBatch.analysis (seq 0 7)) true true _)).
  intros i a Ha.
  do 7 (destruct i as [| i]; [injection Ha as <-; reflexivity |]).
  destruct i; discriminate Ha.
Defined.

(** X10.  If the video job that the flow assembles from the generated
    images comes back in state [failed], the flow does not return it: it
    throws an error whose message is the fixed prefix followed by the
    failure reason as a template literal renders it (["undefined"] when the
    job carries none), and logs that error as its last effect. *)
Theorem flow_turns_failed_video_into_error
    (Number_toString : Q -> string)
    (import_meta_env : string -> option string)
    (services : nat -> Service.t) (videoService : Service.t)
    (audioUrl : string) (analyses : list SegmentAnalysis.t)
    (onImageProgress onVideoProgress : bool)
    (images : list GeneratedMedia.t) (video : LumaResponse.t) :
  let flow :=
    executeFullGenerationFlow Number_toString import_meta_env services
      videoService audioUrl analyses onImageProgress onVideoProgress in
  let error :=
    JsError (videoFailedPrefix
               ++ Value_toString Number_toString
                    (LumaResponse.failure_reason video))%string in
  outcome (generateImagesInParallel import_meta_env services analyses
             onImageProgress) = Returned images ->
  outcome (createVideoFromImages import_meta_env videoService images
             (Some audioUrl) (Some flowPrompt)) = Returned video ->
  LumaResponse.state video = failed ->
  snd flow = Threw error /\
  (exists before,
     flowEffects (fst flow)
     = before ++ [EvConsole LvError flowErrorLabel (Some error)]) /\
  ~ In videoDone (notifications (fst flow)).
Proof.
  intros flow error Himages Hvideo Hfailed. unfold outcome in *.
  destruct (flow_after_images Number_toString import_meta_env services
              videoService audioUrl analyses onImageProgress onVideoProgress
              _ Himages) as (Ho & He & Hn).
  fold flow in Ho, He, Hn.
  rewrite Hvideo, Hfailed in Ho. cbn [State_eqb] in Ho.
  rewrite Ho in He, Hn.
  split; [exact Ho |]. split.
  - eexists. rewrite He, app_assoc. reflexivity.
  - rewrite Hn. destruct onVideoProgress; cbn [app In].
    + intros [H | [H | []]]; discriminate H.
    + intros [].
Qed.

(** Witness for X10: the service declares the video job failed and gives
    no reason. *)
Lemma flow_turns_failed_video_into_error_witness :
  snd (executeFullGenerationFlow wholeNumberToString DemoService.env
         DemoFlow.allComplete DemoService.failsWithoutReason "blob:audio"
         [DemoBatch.analysis 0] false false)
  = Threw (JsError "動画生成に失敗しました: undefined").
Proof.
  refine (proj1 (flow_turns_failed_video_into_error wholeNumberToString
                   DemoService.env DemoFlow.allComplete
                   DemoService.failsWithoutReason "blob:audio"
                   [DemoBatch.analysis 0] false false _
                   (failedJob (DemoService.statusMembers "failed" []))
                   _ _ _)).
  - vm_compute. reflexivity.
  - vm_compute. reflexivity.
  - reflexivity.
Defined.

(* --------------------------------------------------------------------- *)
(** *** Segment analysis: all outcomes *)
(* --------------------------------------------------------------------- *)

Lemma or_else_truthy_or_default (v : Value) (d : Json) :
  or_else v (Some d) = Some d \/ truthy (or_else v (Some d)) = true.
Proof.
  unfold or_else. destruct (truthy v) eqn:E; [right; exact E | left; reflexivity].
Qed.

(** X11.  [analyzeAudioSegment] has three kinds of runs and no other.  If
    the first model call throws, that error leaves the function unchanged
    and unlogged.  If it returns an analysis, the segment's times are
    copied, [story], [visual] and [emotion] are truthy, [imagePrompt] is
    truthy or the empty string, and exactly two prompts were sent.
    Otherwise it throws the generic analysis-failed error, and the last
    thing it did was to log the error that caused it. *)
Theorem analysis_outcomes
    (JSON_parse : string -> Result Json) (reply1 reply2 : Result string)
    (segment : AudioSegment.t) :
  let run := analyzeAudioSegment JSON_parse reply1 reply2 segment in
  let t0 := AudioSegment.startTime segment in
  let t1 := AudioSegment.endTime segment in
  match reply1 with
  | Threw e => run = ([EvModel (AnalysisPrompt t0 t1)], Threw e)
  | Returned _ =>
      match outcome run with
      | Returned a =>
          SegmentAnalysis.startTime a = t0 /\
          SegmentAnalysis.endTime a = t1 /\
          truthy (SegmentAnalysis.story a) = true /\
          truthy (SegmentAnalysis.visual a) = true /\
          truthy (SegmentAnalysis.emotion a) = true /\
          (SegmentAnalysis.imagePrompt a = Some (JStr "") \/
           truthy (SegmentAnalysis.imagePrompt a) = true) /\
          exists analysis,
            trace run = [EvModel (AnalysisPrompt t0 t1);
                         EvModel (PromptGenerationPrompt t0 t1 analysis)]
      | Threw e =>
          e = JsError analysisFailed /\
          exists cause before,
            trace run
            = EvModel (AnalysisPrompt t0 t1)
              :: before ++ [EvConsole LvError parseErrorLabel (Some cause)] /\
            (before = [] \/
             exists analysis,
               before = [EvModel (PromptGenerationPrompt t0 t1 analysis)])
      end
  end.
Proof.
  intros run t0 t1. subst run.
  destruct reply1 as [text | e]; [| reflexivity].
  unfold analyzeAudioSegment, outcome, trace. fold t0 t1. run_eff.
  destruct (matchBraces text) as [span |].
  2:{ run_eff. split; [reflexivity |]. exists (JsError jsonNotFound), [].
      split; [reflexivity | left; reflexivity]. }
  run_eff.
  destruct (JSON_parse span) as [analysis | e].
  2:{ run_eff. split; [reflexivity |]. exists e, [].
      split; [reflexivity | left; reflexivity]. }
  run_eff.
  destruct (prop (Some analysis) "story") as [story | e].
  2:{ run_eff. split; [reflexivity |]. exists e, [].
      split; [reflexivity | left; reflexivity]. }
  run_eff.
  destruct (truthy story) eqn:Hstory.
  2:{ run_eff. split; [reflexivity |]. exists (JsError infoMissing), [].
      split; [reflexivity | left; reflexivity]. }
  destruct (prop (Some analysis) "visual") as [visual | e].
  2:{ run_eff. split; [reflexivity |]. exists e, [].
      split; [reflexivity | left; reflexivity]. }
  run_eff.
  destruct (truthy visual) eqn:Hvisual.
  2:{ run_eff. split; [reflexivity |]. exists (JsError infoMissing), [].
      split; [reflexivity | left; reflexivity]. }
  destruct (prop (Some analysis) "emotion") as [emotion | e].
  2:{ run_eff. split; [reflexivity |]. exists e, [].
      split; [reflexivity | left; reflexivity]. }
  run_eff.
  destruct (truthy emotion) eqn:Hemotion.
  2:{ run_eff. split; [reflexivity |]. exists (JsError infoMissing), [].
      split; [reflexivity | left; reflexivity]. }
  run_eff.
  destruct reply2 as [promptText | e].
  2:{ run_eff. split; [reflexivity |]. exists e, [EvModel (PromptGenerationPrompt t0 t1 analysis)].
      split; [reflexivity | right; eexists; reflexivity]. }
  run_eff.
  destruct (JSON_parse (promptSource promptText)) as [promptJson | e].
  2:{ run_eff. split; [reflexivity |]. exists e, [EvModel (PromptGenerationPrompt t0 t1 analysis)].
      split; [reflexivity | right; eexists; reflexivity]. }
  run_eff.
  destruct (prop (Some promptJson) "imagePrompt") as [imagePrompt | e].
  2:{ run_eff. split; [reflexivity |]. exists e, [EvModel (PromptGenerationPrompt t0 t1 analysis)].
      split; [reflexivity | right; eexists; reflexivity]. }
  run_eff. cbn [SegmentAnalysis.startTime SegmentAnalysis.endTime
                SegmentAnalysis.story SegmentAnalysis.visual
                SegmentAnalysis.emotion SegmentAnalysis.imagePrompt].
  repeat (split; [first [reflexivity | assumption] |]).
  split; [apply or_else_truthy_or_default |].
  eexists. reflexivity.
Qed.

(* --------------------------------------------------------------------- *)
(** *** Analysing a whole file *)
(* --------------------------------------------------------------------- *)

Lemma progressReports_app (a b : list Event) :
  progressReports (a ++ b) = progressReports a ++ progressReports b.
Proof.
  induction a as [| ev a IH]; [reflexivity |].
  destruct ev; cbn [progressReports app]; rewrite IH; reflexivity.
Qed.

Lemma modelCalls_app (a b : list Event) :
  modelCalls (a ++ b) = modelCalls a ++ modelCalls b.
Proof.
  induction a as [| ev a IH]; [reflexivity |].
  destruct ev; cbn [modelCalls app]; rewrite IH; reflexivity.
Qed.

Ltac analyzer_cases :=
  unfold analyzeAudioSegment, bind, try_catch, lift, ret, throw, emit;
  repeat (cbn [fst snd app progressReports modelCalls filter isAnalysisPrompt];
          match goal with
          | |- context [match ?x with _ => _ end] =>
              lazymatch x with
              | context [match _ with _ => _ end] => fail
              | _ => destruct x eqn:?
              end
          end);
  cbn [fst snd app progressReports modelCalls filter isAnalysisPrompt].

Lemma analyze_returns_times (JSON_parse : string -> Result Json)
    (reply1 reply2 : Result string) (segment : AudioSegment.t)
    (a : SegmentAnalysis.t) :
  snd (analyzeAudioSegment JSON_parse reply1 reply2 segment) = Returned a ->
  SegmentAnalysis.startTime a = AudioSegment.startTime segment /\
  SegmentAnalysis.endTime a = AudioSegment.endTime segment.
Proof.
  analyzer_cases; intro H; try discriminate H.
  all: inversion H; subst; split; reflexivity.
Qed.

Lemma analyze_reports_nothing (JSON_parse : string -> Result Json)
    (reply1 reply2 : Result string) (segment : AudioSegment.t) :
  progressReports
    (fst (analyzeAudioSegment JSON_parse reply1 reply2 segment)) = [].
Proof. analyzer_cases; reflexivity. Qed.

Lemma analyze_asks_once (JSON_parse : string -> Result Json)
    (reply1 reply2 : Result string) (segment : AudioSegment.t) :
  filter isAnalysisPrompt
    (modelCalls (fst (analyzeAudioSegment JSON_parse reply1 reply2 segment)))
  = [firstPrompt segment].
Proof. analyzer_cases; reflexivity. Qed.

Section FileFacts.

Variable JSON_parse : string -> Result Json.
Variable replies : nat -> Result string * Result string.
Variable onProgress : bool.
Variable total : nat.

Let at_ := analyzeAt JSON_parse replies.
Let from := fun i rest acc =>
  analyzeFrom JSON_parse replies i total rest onProgress acc.

(** The progress reports of the iterations [i], ..., [i + n - 1]. *)
Let reported (i n : nat) : list (nat * nat) :=
  if onProgress then map (fun j => (S j, total)) (seq i n) else [].

Lemma reported_step (i n : nat) :
  reported i (S n) = (if onProgress then [(S i, total)] else []) ++ reported (S i) n.
Proof. unfold reported. destruct onProgress; reflexivity. Qed.

Lemma from_step (i : nat) (segment : AudioSegment.t)
    (rest : list AudioSegment.t) (acc : list SegmentAnalysis.t) :
  from i (segment :: rest) acc
  = (analysis <- at_ i segment ;;
     (if onProgress then emit (EvProgress (i + 1) total) else ret tt) ;;;
     from (S i) rest (acc ++ [analysis])).
Proof. reflexivity. Qed.

Lemma step_returns (i : nat) (segment : AudioSegment.t)
    (rest : list AudioSegment.t) (acc : list SegmentAnalysis.t)
    (a : SegmentAnalysis.t) :
  snd (at_ i segment) = Returned a ->
  snd (from i (segment :: rest) acc) = snd (from (S i) rest (acc ++ [a])) /\
  fst (from i (segment :: rest) acc)
  = fst (at_ i segment)
    ++ (if onProgress then [EvProgress (S i) total] else [])
    ++ fst (from (S i) rest (acc ++ [a])).
Proof.
  intro Ha. rewrite from_step. rewrite outcome_bind, trace_bind, Ha.
  rewrite outcome_bind, trace_bind. replace (i + 1)%nat with (S i) by lia.
  destruct onProgress; cbn [emit ret fst snd app]; split; reflexivity.
Qed.

Lemma step_throws (i : nat) (segment : AudioSegment.t)
    (rest : list AudioSegment.t) (acc : list SegmentAnalysis.t)
    (e : Thrown) :
  snd (at_ i segment) = Threw e ->
  from i (segment :: rest) acc = (fst (at_ i segment), Threw e).
Proof.
  intro He. rewrite from_step. unfold bind at 1. rewrite He. reflexivity.
Qed.

(** Every analysis succeeds: the loop runs to the end. *)
Lemma from_all (rest : list AudioSegment.t) :
  forall (i : nat) (acc : list SegmentAnalysis.t),
    (forall j seg, nth_error rest j = Some seg ->
                   exists a, snd (at_ (i + j) seg) = Returned a) ->
    exists out,
      snd (from i rest acc) = Returned (acc ++ out) /\
      List.length out = List.length rest /\
      (forall j seg, nth_error rest j = Some seg ->
         exists a, snd (at_ (i + j) seg) = Returned a /\
                   nth_error out j = Some a) /\
      progressReports (fst (from i rest acc)) = reported i (List.length rest) /\
      filter isAnalysisPrompt (modelCalls (fst (from i rest acc)))
      = map firstPrompt rest.
Proof.
  induction rest as [| segment rest IH]; intros i acc Hall.
  - exists []. rewrite app_nil_r. unfold reported.
    destruct onProgress; repeat split; try reflexivity;
      intros [| j] seg Hj; discriminate Hj.
  - destruct (Hall 0%nat segment eq_refl) as (a & Ha).
    rewrite Nat.add_0_r in Ha.
    destruct (step_returns i segment rest acc a Ha) as (Ho & Ht).
    destruct (IH (S i) (acc ++ [a])) as (out & Hout & Hlen & Hnth & Hrep & Hcalls).
    { intros j seg Hj. replace (S i + j)%nat with (i + S j)%nat by lia.
      apply (Hall (S j) seg Hj). }
    exists (a :: out). rewrite Ho, Ht, Hout, <- app_assoc.
    split; [reflexivity |]. split; [cbn [List.length]; lia |]. split; [| split].
    + intros [| j] seg Hj.
      * injection Hj as <-. exists a. rewrite Nat.add_0_r. split; [exact Ha | reflexivity].
      * replace (i + S j)%nat with (S i + j)%nat by lia. apply (Hnth j seg Hj).
    + rewrite !progressReports_app, Hrep.
      unfold at_, analyzeAt. rewrite analyze_reports_nothing.
      cbn [List.length]. rewrite reported_step.
      destruct onProgress; reflexivity.
    + rewrite !modelCalls_app, !filter_app, Hcalls.
      unfold at_, analyzeAt. rewrite analyze_asks_once.
      destruct onProgress; reflexivity.
Qed.

(** The analysis of the segment at position [k] is the first to throw: the
    loop ends there. *)
Lemma from_first_failure (rest : list AudioSegment.t) :
  forall (i k : nat) (acc : list SegmentAnalysis.t)
         (segment : AudioSegment.t) (e : Thrown),
    nth_error rest k = Some segment ->
    (forall j seg, (j < k)%nat -> nth_error rest j = Some seg ->
                   exists a, snd (at_ (i + j) seg) = Returned a) ->
    snd (at_ (i + k) segment) = Threw e ->
    snd (from i rest acc) = Threw e /\
    progressReports (fst (from i rest acc)) = reported i k /\
    filter isAnalysisPrompt (modelCalls (fst (from i rest acc)))
    = map firstPrompt (firstn (S k) rest).
Proof.
  induction rest as [| s0 rest IH]; intros i k acc segment e Hk Hbefore He.
  - destruct k; discriminate Hk.
  - destruct k as [| k].
    + injection Hk as ->. rewrite Nat.add_0_r in He.
      rewrite (step_throws i segment rest acc e He). cbn [fst snd].
      unfold at_, analyzeAt.
      rewrite analyze_reports_nothing, analyze_asks_once.
      unfold reported. destruct onProgress; repeat split; reflexivity.
    + destruct (Hbefore 0%nat s0 ltac:(lia) eq_refl) as (a & Ha).
      rewrite Nat.add_0_r in Ha.
      destruct (step_returns i s0 rest acc a Ha) as (Ho & Ht).
      destruct (IH (S i) k (acc ++ [a]) segment e Hk) as (Hout & Hrep & Hcalls).
      { intros j seg Hj Hseg. replace (S i + j)%nat with (i + S j)%nat by lia.
        apply (Hbefore (S j) seg); [lia | exact Hseg]. }
      { replace (S i + k)%nat with (i + S k)%nat by lia. exact He. }
      rewrite Ho, Ht. split; [exact Hout |]. split.
      * rewrite !progressReports_app, Hrep.
        unfold at_, analyzeAt. rewrite analyze_reports_nothing.
        rewrite reported_step. destruct onProgress; reflexivity.
      * rewrite !modelCalls_app, !filter_app, Hcalls.
        unfold at_, analyzeAt. rewrite analyze_asks_once.
        destruct onProgress; reflexivity.
Qed.

End FileFacts.

Lemma file_run_returned (JSON_parse : string -> Result Json)
    (replies : nat -> Result string * Result string)
    (segments : list AudioSegment.t) (onProgress : bool) :
  let loop :=
    analyzeFrom JSON_parse replies 0 (List.length segments) segments
      onProgress [] in
  analyzeAudioFile JSON_parse replies (Returned segments) onProgress
  = match snd loop with
    | Returned a => (fst loop, Returned a)
    | Threw e =>
        (fst loop ++ [EvConsole LvError audioAnalysisErrorLabel (Some e)],
         Threw e)
    end.
Proof.
  intro loop. unfold analyzeAudioFile, try_catch.
  rewrite outcome_bind, trace_bind. cbn [lift fst snd app]. fold loop.
  destruct (snd loop); reflexivity.
Qed.

(** X12.  If the analysis of every segment succeeds, [analyzeAudioFile]
    returns one analysis per segment, in the order of the segments: the one
    at position [i] is what [analyzeAudioSegment] returned for segment [i]
    and carries that segment's times.  The progress callback, when given,
    is called after each segment with [(i + 1, segments.length)], and each
    segment is submitted for analysis exactly once, in order. *)
Theorem file_analysis_covers_every_segment
    (JSON_parse : string -> Result Json)
    (replies : nat -> Result string * Result string)
    (segments : list AudioSegment.t) (onProgress : bool) :
  let run :=
    analyzeAudioFile JSON_parse replies (Returned segments) onProgress in
  let n := List.length segments in
  (forall i seg, nth_error segments i = Some seg ->
     exists a, outcome (analyzeAt JSON_parse replies i seg) = Returned a) ->
  exists analyses,
    outcome run = Returned analyses /\
    List.length analyses = n /\
    (forall i seg, nth_error segments i = Some seg ->
       exists a,
         nth_error analyses i = Some a /\
         outcome (analyzeAt JSON_parse replies i seg) = Returned a /\
         SegmentAnalysis.startTime a = AudioSegment.startTime seg /\
         SegmentAnalysis.endTime a = AudioSegment.endTime seg) /\
    progressReports (trace run)
    = (if onProgress then map (fun i => (S i, n)) (seq 0 n) else []) /\
    filter isAnalysisPrompt (modelCalls (trace run))
    = map firstPrompt segments.
Proof.
  intros run n Hall. unfold outcome, trace in *.
  destruct (from_all JSON_parse replies onProgress n segments 0%nat [] Hall)
    as (out & Hout & Hlen & Hnth & Hrep & Hcalls).
  subst run. rewrite file_run_returned. fold n. cbv zeta.
  rewrite Hout. cbn [fst snd app]. exists out.
  split; [reflexivity |]. split; [exact Hlen |]. split; [| split].
  - intros i seg Hi. destruct (Hnth i seg Hi) as (a & Ha & Hai).
    cbn [Nat.add] in Ha. exists a. split; [exact Hai |]. split; [exact Ha |].
    apply (analyze_returns_times _ _ _ _ _ Ha).
  - exact Hrep.
  - exact Hcalls.
Qed.

(** Witness for X12: three segments, each analysed successfully. *)
Lemma file_analysis_covers_every_segment_witness :
  exists analyses,
    outcome (analyzeAudioFile MiniJson.parse DemoFile.allGood
               (Returned DemoFile.segments) true) = Returned analyses /\
    List.length analyses = 3%nat.
Proof.
  destruct (file_analysis_covers_every_segment MiniJson.parse
              DemoFile.allGood DemoFile.segments true)
    as (analyses & Hrun & Hlen & _).
  - intros i seg Hi.
    do 3 (destruct i as [| i];
          [injection Hi as <-; eexists; vm_compute; reflexivity |]).
    destruct i; discriminate Hi.
  - exists analyses. split; [exact Hrun | exact Hlen].
Defined.

(** X13.  If the analysis of segment [k] is the first one to throw,
    [analyzeAudioFile] throws that same error, having logged it as its last
    effect; the analyses of the segments before [k] are not returned.  The
    segments after [k] are never submitted for analysis, and the progress
    callback has been called for the [k] segments before it only. *)
Theorem file_analysis_stops_at_first_failure
    (JSON_parse : string -> Result Json)
    (replies : nat -> Result string * Result string)
    (segments : list AudioSegment.t) (onProgress : bool)
    (k : nat) (segment : AudioSegment.t) (e : Thrown) :
  let run :=
    analyzeAudioFile JSON_parse replies (Returned segments) onProgress in
  let n := List.length segments in
  nth_error segments k = Some segment ->
  (forall i seg, (i < k)%nat -> nth_error segments i = Some seg ->
     exists a, outcome (analyzeAt JSON_parse replies i seg) = Returned a) ->
  outcome (analyzeAt JSON_parse replies k segment) = Threw e ->
  outcome run = Threw e /\
  (exists before,
     trace run
     = before ++ [EvConsole LvError audioAnalysisErrorLabel (Some e)]) /\
  progressReports (trace run)
  = (if onProgress then map (fun i => (S i, n)) (seq 0 k) else []) /\
  filter isAnalysisPrompt (modelCalls (trace run))
  = map firstPrompt (firstn (S k) segments).
Proof.
  intros run n Hk Hbefore He. unfold outcome, trace in *.
  destruct (from_first_failure JSON_parse replies onProgress n segments
              0%nat k [] segment e Hk Hbefore He)
    as (Hout & Hrep & Hcalls).
  subst run. rewrite file_run_returned. fold n. cbv zeta.
  rewrite Hout. cbn [fst snd].
  split; [reflexivity |]. split; [eexists; reflexivity |]. split.
  - rewrite progressReports_app, Hrep. cbn [progressReports].
    rewrite app_nil_r. reflexivity.
  - rewrite modelCalls_app, filter_app, Hcalls. cbn [modelCalls filter].
    rewrite app_nil_r. reflexivity.
Qed.

(** Witness for X13: the answer for the second of three segments lacks a
    field; one progress report, two segments submitted. *)
Lemma file_analysis_stops_at_first_failure_witness :
  outcome (analyzeAudioFile MiniJson.parse DemoFile.secondBad
             (Returned DemoFile.segments) true)
  = Threw (JsError analysisFailed) /\
  progressReports
    (trace (analyzeAudioFile MiniJson.parse DemoFile.secondBad
              (Returned DemoFile.segments) true))
  = [(1, 3)]%nat.
Proof.
  destruct (file_analysis_stops_at_first_failure MiniJson.parse
              DemoFile.secondBad DemoFile.segments true 1
              (AudioSegment.mk 30 60 (Blob.mk 1323000 (30 * 44100) 2 44100))
              (JsError analysisFailed))
    as (Hrun & _ & Hrep & _).
  - reflexivity.
  - intros i seg Hi Hseg. destruct i as [| i]; [| lia].
    injection Hseg as <-. eexists. vm_compute. reflexivity.
  - vm_compute. reflexivity.
  - split; [exact Hrun | exact Hrep].
Defined.

(** X14.  Whatever goes wrong, [analyzeAudioFile] passes the error on
    unchanged and logs it first: whenever it throws [e], its last effect is
    the [console.error] of [e].  In particular, when the segmentation is
    rejected, that is all it does: no model call is made. *)
Theorem file_analysis_logs_what_it_throws
    (JSON_parse : string -> Result Json)
    (replies : nat -> Result string * Result string)
    (split : Result (list AudioSegment.t)) (onProgress : bool) (e : Thrown) :
  let run := analyzeAudioFile JSON_parse replies split onProgress in
  outcome run = Threw e ->
  (exists before,
     trace run
     = before ++ [EvConsole LvError audioAnalysisErrorLabel (Some e)]) /\
  (split = Threw e ->
   trace run = [EvConsole LvError audioAnalysisErrorLabel (Some e)]).
Proof.
  intros run. subst run. unfold outcome, trace.
  destruct split as [segments | e'].
  - rewrite file_run_returned. cbv zeta.
    destruct (snd (analyzeFrom _ _ _ _ _ _ _)) as [a | e0]; cbn [fst snd];
      intro H; [discriminate H |].
    injection H as ->. split; [eexists; reflexivity | discriminate].
  - cbn. intro H. injection H as ->.
    split; [exists []; reflexivity | reflexivity].
Qed.

(** Witness for X14: the file cannot be read. *)
Lemma file_analysis_logs_what_it_throws_witness :
  trace (analyzeAudioFile MiniJson.parse DemoFile.allGood
           (Threw (JsError "ファイルの読み込みに失敗しました")) true)
  = [EvConsole LvError audioAnalysisErrorLabel
       (Some (JsError "ファイルの読み込みに失敗しました"))].
Proof.
  refine (proj2 (file_analysis_logs_what_it_throws MiniJson.parse
                   DemoFile.allGood
                   (Threw (JsError "ファイルの読み込みに失敗しました"))
                   true _ _) _).
  - reflexivity.
  - reflexivity.
Defined.

(** X15.  Segmentation followed by analysis.  Let audio of positive
    length [T], at a whole number [r] of frames per second, be cut every
    [d] whole seconds ([D = d]), with [(T + D) * r <= 2^53] and fewer than
    [2^32] frames in a full segment, and let [createBuffer] accept the last
    segment (the length computed for it converts to at least one frame).
    Then [splitAudioIntoSegments] resolves, and if the model's answers let
    every analysis succeed, [analyzeAudioFile] returns [ceil(T/D)]
    analyses; the one at position [i] covers the window from [i*D] to
    [min((i+1)*D, T)], and the last progress report is [(n, n)]. *)
Theorem file_analysis_follows_segmentation
    (JSON_parse : string -> Result Json)
    (replies : nat -> Result string * Result string)
    (notSupported : Thrown) (audioBuffer : AudioBuffer.t) (d r : Z)
    (fuel : nat) :
  let T := AudioBuffer.duration audioBuffer in
  let rate := AudioBuffer.sampleRate audioBuffer in
  let D := inject_Z d in
  let n := segmentCount T D in
  0 < T -> (1 <= d)%Z -> (1 <= r)%Z -> rate = inject_Z r ->
  (T + D) * rate <= inject_Z (2 ^ 53) -> (d * r < 2 ^ 32)%Z ->
  ToUint 32
    (Double.mul (Double.sub T (inject_Z (Z.of_nat (n - 1)) * D)) rate)
  <> 0%Z ->
  (n < fuel)%nat ->
  (forall i seg, (i < n)%nat ->
     exists a, outcome (analyzeAt JSON_parse replies i seg) = Returned a) ->
  exists split analyses,
    splitAudioIntoSegments fuel notSupported audioBuffer D = Some split /\
    outcome (analyzeAudioFile JSON_parse replies split true)
    = Returned analyses /\
    List.length analyses = n /\
    (forall i a, nth_error analyses i = Some a ->
       SegmentAnalysis.startTime a == inject_Z (Z.of_nat i) * D /\
       SegmentAnalysis.endTime a
       == Qmin (inject_Z (Z.of_nat (S i)) * D) T) /\
    last (progressReports
            (trace (analyzeAudioFile JSON_parse replies split true)))
      (0%nat, 0%nat)
    = (n, n).
Proof.
  intros T rate D n HT Hd Hr Hrate Hbig Hfull Hlast Hfuel Hall.
  unfold outcome, trace in *.
  destruct (split_whole_seconds notSupported audioBuffer d r Hd Hr Hrate HT
              Hbig Hfull Hlast fuel Hfuel)
    as (segments & Hrun & Hlen & Hshape).
  fold T D in Hlen, Hshape. fold n in Hlen.
  assert (Hidx : forall i seg, nth_error segments i = Some seg -> (i < n)%nat).
  { intros i seg Hi. rewrite <- Hlen. apply nth_error_Some. congruence. }
  destruct (from_all JSON_parse replies true n segments 0%nat [])
    as (out & Hout & Hlen' & Hnth & Hrep & _).
  { intros j seg Hj. apply Hall. exact (Hidx j seg Hj). }
  exists (Returned segments), out. rewrite file_run_returned. rewrite Hlen.
  cbv zeta. rewrite Hout. cbn [fst snd app].
  split; [exact Hrun |]. split; [reflexivity |].
  split; [rewrite Hlen'; exact Hlen |]. split.
  - intros i a Hi.
    assert (Hlt : (i < List.length segments)%nat).
    { rewrite <- Hlen'. apply nth_error_Some. congruence. }
    destruct (nth_error segments i) as [seg |] eqn:Hseg;
      [| apply nth_error_None in Hseg; lia].
    destruct (Hnth i seg Hseg) as (a' & Ha' & Hai).
    rewrite Hi in Hai. injection Hai as <-.
    destruct (analyze_returns_times _ _ _ _ _ Ha') as (-> & ->).
    rewrite (Hshape i seg Hseg). split; reflexivity.
  - rewrite Hrep, Hlen.
    pose proof (count_pos audioBuffer D (whole_D_pos d Hd) HT) as Hn.
    fold T in Hn. fold n in Hn.
    destruct n as [| m]; [lia |].
    rewrite seq_S, map_app. cbn [map Nat.add]. apply last_last.
Qed.

(** Witness for X15: 70 seconds at 44100 frames per second cut into
    30-second segments, every answer well formed. *)
Lemma file_analysis_follows_segmentation_witness :
  exists split analyses,
    splitAudioIntoSegments 4 (JsError "NotSupportedError")
      (AudioBuffer.mk 70 44100 2) 30 = Some split /\
    outcome (analyzeAudioFile MiniJson.parse DemoFile.allGood split true)
    = Returned analyses /\
    List.length analyses = 3%nat.
Proof.
  destruct (file_analysis_follows_segmentation MiniJson.parse
              DemoFile.allGood (JsError "NotSupportedError")
              (AudioBuffer.mk 70 44100 2) 30 44100 4)
    as (split & analyses & Hsplit & Hrun & Hlen & _).
  - reflexivity.
  - lia.
  - lia.
  - reflexivity.
  - vm_compute. discriminate.
  - reflexivity.
  - vm_compute. discriminate.
  - vm_compute. lia.
  - intros i seg _. eexists. vm_compute. reflexivity.
  - exists split, analyses.
    split; [exact Hsplit |]. split; [exact Hrun | exact Hlen].
Defined.

(* --------------------------------------------------------------------- *)
(** *** formatTime *)
(* --------------------------------------------------------------------- *)

Lemma floor_unique (x : Q) (z : Z) :
  inject_Z z <= x -> x < inject_Z (z + 1) -> Qfloor x = z.
Proof.
  intros Hlo Hhi.
  pose proof (Qfloor_le x) as H1. pose proof (Qlt_floor x) as H2.
  assert (z < Qfloor x + 1)%Z.
  { rewrite Zlt_Qlt. eapply Qle_lt_trans; eauto. }
  assert (Qfloor x < z + 1)%Z.
  { rewrite Zlt_Qlt. eapply Qle_lt_trans; eauto. }
  lia.
Qed.

Lemma floor_minutes (seconds : Q) :
  Qfloor (seconds / 60) = (Qfloor seconds / 60)%Z.
Proof.
  pose proof (Qfloor_le seconds) as H1. pose proof (Qlt_floor seconds) as H2.
  set (f := Qfloor seconds) in *.
  pose proof (Z.div_mod f 60 ltac:(lia)) as Hdm.
  pose proof (Z.mod_pos_bound f 60 ltac:(lia)) as Hm.
  apply floor_unique.
  - assert (inject_Z (f / 60) * 60 <= seconds).
    { eapply Qle_trans; [| exact H1].
      change 60 with (inject_Z 60). rewrite <- inject_Z_mult, <- Zle_Qle. lia. }
    apply Qle_shift_div_l; [reflexivity | assumption].
  - assert (seconds < inject_Z (f / 60 + 1) * 60).
    { eapply Qlt_le_trans; [exact H2 |].
      change 60 with (inject_Z 60). rewrite <- inject_Z_mult, <- Zle_Qle. lia. }
    apply Qlt_shift_div_r; [reflexivity | assumption].
Qed.

Lemma floor_remaining (seconds : Q) :
  0 <= seconds ->
  Qfloor (Number_rem seconds 60) = (Qfloor seconds mod 60)%Z.
Proof.
  intro Hs. unfold Number_rem, Math_trunc.
  assert (Hq : 0 <= seconds / 60).
  { apply Qle_shift_div_l; [reflexivity | lra]. }
  destruct (Qlt_le_dec (seconds / 60) 0) as [Hneg | _]; [lra |].
  rewrite floor_minutes.
  pose proof (Qfloor_le seconds) as H1. pose proof (Qlt_floor seconds) as H2.
  set (f := Qfloor seconds) in *.
  pose proof (Z.div_mod f 60 ltac:(lia)) as Hdm.
  assert (E : inject_Z (f mod 60)
              == inject_Z f - inject_Z 60 * inject_Z (f / 60)).
  { rewrite <- inject_Z_mult. unfold Qminus.
    rewrite <- inject_Z_opp, <- inject_Z_plus. apply inject_Z_injective. lia. }
  change (inject_Z 60) with 60 in E.
  apply floor_unique.
  - rewrite E. lra.
  - rewrite inject_Z_plus, E. change (inject_Z 1) with 1.
    rewrite inject_Z_plus in H2. change (inject_Z 1) with 1 in H2. lra.
Qed.

Lemma pad_two_digits (r : Z) :
  (0 <= r < 60)%Z -> padStart2 (Z_to_string r) = twoDigits r.
Proof.
  intro Hr.
  assert (H : forall k, (k < 60)%nat ->
                padStart2 (Z_to_string (Z.of_nat k)) = twoDigits (Z.of_nat k)).
  { intros k Hk. do 60 (destruct k as [| k]; [reflexivity |]). lia. }
  rewrite <- (Z2Nat.id r) by lia. apply H. lia.
Qed.

(** X16.  For a non-negative number of seconds, [formatTime] writes the
    whole minutes, a colon, and the remaining whole seconds with exactly two
    digits: with [t] the seconds rounded down, the result is [t div 60],
    [":"], and the two decimal digits of [t mod 60].  The fractional part
    of the argument has no influence. *)
Theorem format_time_minutes_and_two_digit_seconds (seconds : Q) :
  0 <= seconds ->
  let t := Qfloor seconds in
  formatTime seconds
  = (Z_to_string (t / 60) ++ ":" ++ twoDigits (t mod 60))%string /\
  (0 <= t mod 60 < 60)%Z /\
  (60 * (t / 60) + t mod 60 = t)%Z.
Proof.
  intros Hs t.
  pose proof (Z.mod_pos_bound t 60 ltac:(lia)) as Hm.
  pose proof (Z.div_mod t 60 ltac:(lia)) as Hdm.
  split; [| split; [exact Hm | lia]].
  unfold formatTime, Math_floor.
  rewrite floor_minutes, (floor_remaining seconds Hs). fold t.
  rewrite (pad_two_digits (t mod 60) Hm). reflexivity.
Qed.

(** Witness for X16: 125.5 seconds. *)
Lemma format_time_minutes_and_two_digit_seconds_witness :
  formatTime (251 # 2) = "2:05".
Proof.
  refine (proj1 (format_time_minutes_and_two_digit_seconds (251 # 2) _)).
  vm_compute. discriminate.
Defined.

(* --------------------------------------------------------------------- *)
(** *** Segmentation: the frames of the segments *)
(* --------------------------------------------------------------------- *)

(** X17.  Let audio of positive length [T], at a whole number [r] of
    frames per second, be cut every [d] whole seconds, so that a full
    segment spans [k = d * r] frames, with [(T + D) * r <= 2^53] and
    [k < 2^32], and let [createBuffer] accept the last segment.  Then the
    call resolves with [ceil(T/D)] segments; segment [i] is copied from
    frame [i * k] on; every segment but the last holds exactly [k] frames,
    and so ends where the next one starts; the last holds the number of
    frames its computed length [(T - (n-1)*D) * r] converts to, at least
    one; every segment keeps the channel count and the sample rate of the
    source. *)
Theorem segments_tile_the_frames
    (notSupported : Thrown) (audioBuffer : AudioBuffer.t) (d r : Z)
    (fuel : nat) :
  let T := AudioBuffer.duration audioBuffer in
  let rate := AudioBuffer.sampleRate audioBuffer in
  let D := inject_Z d in
  let n := segmentCount T D in
  let k := (d * r)%Z in
  let lastFrames :=
    ToUint 32
      (Double.mul (Double.sub T (inject_Z (Z.of_nat (n - 1)) * D)) rate) in
  0 < T -> (1 <= d)%Z -> (1 <= r)%Z -> rate = inject_Z r ->
  (T + D) * rate <= inject_Z (2 ^ 53) -> (k < 2 ^ 32)%Z ->
  lastFrames <> 0%Z -> (n < fuel)%nat ->
  exists segments,
    splitAudioIntoSegments fuel notSupported audioBuffer D
    = Some (Returned segments) /\
    List.length segments = n /\
    forall i seg,
      nth_error segments i = Some seg ->
      let blob := AudioSegment.blob seg in
      Blob.startIndex blob = (Z.of_nat i * k)%Z /\
      ((S i < n)%nat ->
       Blob.length blob = k /\
       (Blob.startIndex blob + Blob.length blob = Z.of_nat (S i) * k)%Z) /\
      (S i = n -> Blob.length blob = lastFrames) /\
      (1 <= Blob.length blob)%Z /\
      Blob.channels blob = AudioBuffer.numberOfChannels audioBuffer /\
      Blob.rate blob = rate.
Proof.
  intros T rate D n k lastFrames HT Hd Hr Hrate Hbig Hfull Hlast Hfuel.
  destruct (split_whole_seconds notSupported audioBuffer d r Hd Hr Hrate HT
              Hbig Hfull Hlast fuel Hfuel)
    as (segments & Hrun & Hlen & Hshape).
  exists segments. split; [exact Hrun |]. split; [exact Hlen |].
  intros i seg Hi blob. subst blob. rewrite (Hshape i seg Hi).
  unfold wholeSegment.
  cbn [AudioSegment.blob Blob.startIndex Blob.length Blob.channels Blob.rate].
  fold T D. fold n. fold k. fold lastFrames.
  assert (Hpos : (0 <= lastFrames)%Z).
  { unfold lastFrames, ToUint. apply Z.mod_pos_bound. lia. }
  split; [reflexivity |]. split; [| split; [| split; [| split; reflexivity]]].
  - intro Hlt. apply Nat.ltb_lt in Hlt. rewrite Hlt. split; [reflexivity | lia].
  - intro Heq. assert (E : (S i <? n)%nat = false) by (apply Nat.ltb_ge; lia).
    rewrite E. reflexivity.
  - change (1 <= (if (S i <? n)%nat then k else lastFrames))%Z.
    destruct (S i <? n)%nat; [subst k; nia | lia].
Qed.

(** Witness for X17: 5,000,001 frames at 44100 frames per second cut into
    30-second segments of 1,323,000 frames.  The fourth and last segment
    starts at frame 3,969,000 and holds 1,031,000 frames. *)
Lemma segments_tile_the_frames_witness :
  exists segments,
    splitAudioIntoSegments 5 (JsError "NotSupportedError")
      (AudioBuffer.decoded 5000001 44100 2) 30
    = Some (Returned segments) /\
    List.length segments = 4%nat /\
    forall seg,
      nth_error segments 3 = Some seg ->
      Blob.startIndex (AudioSegment.blob seg) = 3969000%Z /\
      Blob.length (AudioSegment.blob seg) = 1031000%Z.
Proof.
  destruct (segments_tile_the_frames (JsError "NotSupportedError")
              (AudioBuffer.decoded 5000001 44100 2) 30 44100 5)
    as (segments & Hrun & Hlen & Hframes).
  - reflexivity.
  - lia.
  - lia.
  - reflexivity.
  - vm_compute. discriminate.
  - reflexivity.
  - vm_compute. discriminate.
  - vm_compute. lia.
  - exists segments. split; [exact Hrun |]. split; [exact Hlen |].
    intros seg Hseg.
    destruct (Hframes 3%nat seg Hseg) as (Hs & _ & Hl & _).
    split; [exact Hs | exact (Hl eq_refl)].
Defined.

(* --------------------------------------------------------------------- *)
(** *** bufferToWav *)
(* --------------------------------------------------------------------- *)

Lemma little_endian_two (v : Z) :
  (0 <= v < 2 ^ 16)%Z -> fromLittleEndian (littleEndian 2 v) = v.
Proof.
  intro H. cbn [littleEndian fromLittleEndian].
  change (2 ^ 16)%Z with 65536%Z in H.
  pose proof (Z.div_mod v 256 ltac:(lia)).
  pose proof (Z.mod_pos_bound v 256 ltac:(lia)).
  assert (0 <= v / 256 < 256)%Z.
  { split; [apply Z.div_pos; lia | apply Z.div_lt_upper_bound; lia]. }
  rewrite (Z.mod_small (v / 256) 256) by lia. lia.
Qed.

Lemma little_endian_four (v : Z) :
  (0 <= v < 2 ^ 32)%Z -> fromLittleEndian (littleEndian 4 v) = v.
Proof.
  intro H. cbn [littleEndian fromLittleEndian].
  change (2 ^ 32)%Z with 4294967296%Z in H.
  pose proof (Z.div_mod v 256 ltac:(lia)).
  pose proof (Z.mod_pos_bound v 256 ltac:(lia)).
  set (v1 := (v / 256)%Z) in *.
  pose proof (Z.div_mod v1 256 ltac:(lia)).
  pose proof (Z.mod_pos_bound v1 256 ltac:(lia)).
  set (v2 := (v1 / 256)%Z) in *.
  pose proof (Z.div_mod v2 256 ltac:(lia)).
  pose proof (Z.mod_pos_bound v2 256 ltac:(lia)).
  set (v3 := (v2 / 256)%Z) in *.
  assert (0 <= v3 < 256)%Z by lia.
  rewrite (Z.mod_small v3 256) by lia. lia.
Qed.

Lemma ToUint_range (bits : Z) (x : Q) :
  (0 <= bits)%Z -> (0 <= ToUint bits x < 2 ^ bits)%Z.
Proof.
  intro Hb. unfold ToUint. apply Z.mod_pos_bound. apply Z.pow_pos_nonneg; lia.
Qed.

(** X18.  The header [bufferToWav] writes is 44 bytes long and is a
    canonical PCM header: the tags [RIFF], [WAVE], [fmt ] and [data] at
    offsets 0, 8, 12 and 36, and, read back as little-endian fields, format
    1 (PCM), 16 bits per sample, the channel count, the sample rate, a block
    size of two bytes per channel, a byte rate of sample rate times block
    size, and the data size [length * channels * 2] at offset 40, with the
    file size field 36 larger (all reduced to the width of their field). *)
Theorem wav_header_fields (buffer : RenderedBuffer.t) :
  let header := WavBlob.wavHeader (bufferToWav buffer) in
  let channels := inject_Z (Z.of_nat (RenderedBuffer.numberOfChannels buffer)) in
  let rate := RenderedBuffer.sampleRate buffer in
  let dataSize :=
    inject_Z (Z.of_nat (RenderedBuffer.length buffer)) * channels * 2 in
  List.length header = 44%nat /\
  map (fun i => getUint8 i header) [0; 1; 2; 3; 8; 9; 10; 11]%nat
  = map (fun c => Z.of_nat (nat_of_ascii c))
      ["R"; "I"; "F"; "F"; "W"; "A"; "V"; "E"]%char /\
  map (fun i => getUint8 i header) [12; 13; 14; 15; 36; 37; 38; 39]%nat
  = map (fun c => Z.of_nat (nat_of_ascii c))
      ["f"; "m"; "t"; " "; "d"; "a"; "t"; "a"]%char /\
  getUint32 4 header = ToUint 32 (36 + dataSize) /\
  getUint32 16 header = 16%Z /\
  getUint16 20 header = 1%Z /\
  getUint16 22 header = ToUint 16 channels /\
  getUint32 24 header = ToUint 32 rate /\
  getUint32 28 header = ToUint 32 (rate * channels * 2) /\
  getUint16 32 header = ToUint 16 (channels * 2) /\
  getUint16 34 header = 16%Z /\
  getUint32 40 header = ToUint 32 dataSize.
Proof.
  intros header channels rate dataSize. subst header channels rate dataSize.
  unfold bufferToWav, wavHeaderOf. cbn [WavBlob.wavHeader]. cbv zeta.
  unfold setUint8, setUint16, setUint32, getUint8, getUint16, getUint32,
    ArrayBuffer.
  cbn [repeat write littleEndian skipn firstn map List.length].
  repeat split;
    first [ reflexivity
          | apply little_endian_four, ToUint_range; lia
          | apply little_endian_two, ToUint_range; lia ].
Qed.

Lemma wav_header_length (buffer : RenderedBuffer.t) :
  List.length (WavBlob.wavHeader (bufferToWav buffer)) = 44%nat /\
  getUint32 40 (WavBlob.wavHeader (bufferToWav buffer))
  = ToUint 32
      (inject_Z (Z.of_nat (RenderedBuffer.length buffer))
       * inject_Z (Z.of_nat (RenderedBuffer.numberOfChannels buffer)) * 2).
Proof.
  unfold bufferToWav, wavHeaderOf. cbn [WavBlob.wavHeader]. cbv zeta.
  unfold setUint8, setUint16, setUint32, getUint32, ArrayBuffer.
  cbn [repeat write littleEndian skipn firstn List.length].
  split; [reflexivity |].
  apply little_endian_four, ToUint_range. lia.
Qed.

Lemma store_at (w z : list Z) (x v : Z) :
  store (List.length w) v (w ++ x :: z) = w ++ v :: z.
Proof.
  induction w as [| y w IH]; [reflexivity |].
  cbn [List.length app store]. rewrite IH. reflexivity.
Qed.

Section WavData.

Variable buffer : RenderedBuffer.t.

Let channels := RenderedBuffer.numberOfChannels buffer.
Let frames := RenderedBuffer.length buffer.

(** The element stored for channel [c] of frame [i]. *)
Let element (i c : nat) : Z :=
  ToInt16 (sampleValue (RenderedBuffer.getChannelData buffer c i)).

(** The elements stored for frame [i]. *)
Let row (i : nat) : list Z := map (element i) (seq 0 channels).

Lemma row_length (i : nat) : List.length (row i) = channels.
Proof. unfold row. rewrite length_map, length_seq. reflexivity. Qed.

Lemma stores_in_order (i : nat) (cs : list nat) :
  forall (w : list Z) (m : nat),
    (List.length cs <= m)%nat ->
    fold_left
      (fun st channel =>
         (store (snd st)
            (ToInt16 (sampleValue (RenderedBuffer.getChannelData buffer channel i)))
            (fst st),
          S (snd st)))
      cs (w ++ repeat 0%Z m, List.length w)
    = ((w ++ map (element i) cs) ++ repeat 0%Z (m - List.length cs),
       List.length (w ++ map (element i) cs)).
Proof.
  induction cs as [| c cs IH]; intros w m Hm.
  - cbn [fold_left map List.length]. rewrite app_nil_r, Nat.sub_0_r. reflexivity.
  - cbn [List.length] in Hm. destruct m as [| m]; [lia |].
    cbn [fold_left fst snd repeat]. rewrite store_at.
    replace (w ++ ToInt16 (sampleValue (RenderedBuffer.getChannelData buffer c i))
               :: repeat 0%Z m)
      with ((w ++ [element i c]) ++ repeat 0%Z m)
      by (rewrite <- app_assoc; reflexivity).
    replace (S (List.length w)) with (List.length (w ++ [element i c]))
      by (rewrite length_app; cbn [List.length]; lia).
    rewrite (IH (w ++ [element i c]) m) by lia.
    cbn [map List.length Nat.sub]. rewrite <- !app_assoc. reflexivity.
Qed.

Lemma channelLoop_row (i : nat) (w : list Z) (m : nat) :
  (channels <= m)%nat ->
  channelLoop buffer i (w ++ repeat 0%Z m, List.length w)
  = ((w ++ row i) ++ repeat 0%Z (m - channels), List.length (w ++ row i)).
Proof.
  intro Hm. unfold channelLoop. fold channels.
  rewrite stores_in_order by (rewrite length_seq; exact Hm).
  rewrite length_seq. reflexivity.
Qed.

Lemma frames_in_order (fs : list nat) :
  forall (w : list Z) (m : nat),
    (List.length fs * channels <= m)%nat ->
    fold_left (fun st i => channelLoop buffer i st) fs
      (w ++ repeat 0%Z m, List.length w)
    = ((w ++ flat_map row fs) ++ repeat 0%Z (m - List.length fs * channels),
       List.length (w ++ flat_map row fs)).
Proof.
  induction fs as [| i fs IH]; intros w m Hm.
  - cbn [fold_left flat_map List.length Nat.mul]. rewrite app_nil_r, Nat.sub_0_r.
    reflexivity.
  - cbn [List.length Nat.mul] in Hm. cbn [fold_left].
    rewrite channelLoop_row by lia.
    rewrite (IH (w ++ row i) (m - channels)%nat) by lia.
    cbn [flat_map List.length Nat.mul]. rewrite <- !app_assoc.
    replace (m - channels - List.length fs * channels)%nat
      with (m - (channels + List.length fs * channels))%nat by lia.
    reflexivity.
Qed.

Lemma audioData_shape :
  audioDataOf buffer
  = flat_map row (seq 0 frames) ++ repeat 0%Z (frames * channels).
Proof.
  unfold audioDataOf. fold channels. fold frames.
  pose proof (frames_in_order (seq 0 frames) [] (frames * channels * 2)) as H.
  cbn [app List.length] in H. rewrite length_seq in H.
  rewrite H by lia. cbn [fst]. f_equal. f_equal. lia.
Qed.

Lemma rows_length (fs : list nat) :
  List.length (flat_map row fs) = (List.length fs * channels)%nat.
Proof.
  induction fs as [| i fs IH]; [reflexivity |].
  cbn [flat_map List.length Nat.mul]. rewrite length_app, row_length, IH.
  reflexivity.
Qed.

Lemma rows_nth (fs : list nat) :
  forall (k c i : nat),
    nth_error fs k = Some i -> (c < channels)%nat ->
    nth_error (flat_map row fs) (k * channels + c) = Some (element i c).
Proof.
  induction fs as [| i0 fs IH]; intros k c i Hk Hc.
  - destruct k; discriminate Hk.
  - cbn [flat_map]. destruct k as [| k].
    + injection Hk as ->. cbn [Nat.mul Nat.add].
      rewrite nth_error_app1 by (rewrite row_length; exact Hc).
      unfold row. apply map_nth_error.
      rewrite nth_error_nth' with (d := 0%nat) by (rewrite length_seq; exact Hc).
      rewrite seq_nth by exact Hc. reflexivity.
    + rewrite nth_error_app2 by (rewrite row_length; cbn [Nat.mul]; lia).
      rewrite row_length.
      replace (S k * channels + c - channels)%nat with (k * channels + c)%nat
        by (cbn [Nat.mul]; lia).
      apply (IH k c i Hk Hc).
Qed.

End WavData.

(** X19.  The sample data of the blob [bufferToWav] returns is an array of
    [2 * length * channels] 16-bit elements.  Its first [length * channels]
    elements are the samples, frame by frame and channel by channel within a
    frame; all the remaining elements are zero.  So the blob is
    [44 + 4 * length * channels] bytes long, and whenever the declared data
    size fits its header field, the blob carries twice as many data bytes
    as the header declares. *)
Theorem wav_data_is_twice_the_declared_size (buffer : RenderedBuffer.t) :
  let blob := bufferToWav buffer in
  let channels := RenderedBuffer.numberOfChannels buffer in
  let frames := RenderedBuffer.length buffer in
  List.length (WavBlob.audioData blob) = (2 * frames * channels)%nat /\
  (forall i c, (i < frames)%nat -> (c < channels)%nat ->
     nth_error (WavBlob.audioData blob) (i * channels + c)
     = Some (ToInt16 (sampleValue (RenderedBuffer.getChannelData buffer c i)))) /\
  (forall j, (frames * channels <= j < 2 * frames * channels)%nat ->
     nth_error (WavBlob.audioData blob) j = Some 0%Z) /\
  WavBlob.size blob = (44 + 4 * frames * channels)%nat /\
  ((Z.of_nat (2 * frames * channels) < 2 ^ 32)%Z ->
   Z.of_nat (2 * List.length (WavBlob.audioData blob))
   = (2 * getUint32 40 (WavBlob.wavHeader blob))%Z).
Proof.
  intros blob channels frames.
  assert (Hlen : List.length (WavBlob.audioData blob)
                 = (2 * frames * channels)%nat).
  { subst blob. cbn [bufferToWav WavBlob.audioData].
    rewrite audioData_shape, length_app, rows_length, length_seq, repeat_length.
    fold frames channels. lia. }
  split; [exact Hlen |]. split; [| split; [| split]].
  - intros i c Hi Hc. subst blob. cbn [bufferToWav WavBlob.audioData].
    rewrite audioData_shape. fold frames channels.
    rewrite nth_error_app1.
    + apply (rows_nth buffer (seq 0 frames) i c i); [| exact Hc].
      rewrite nth_error_nth' with (d := 0%nat) by (rewrite length_seq; exact Hi).
      rewrite seq_nth by exact Hi. reflexivity.
    + rewrite rows_length, length_seq. fold channels. nia.
  - intros j Hj. subst blob. cbn [bufferToWav WavBlob.audioData].
    rewrite audioData_shape. fold frames channels.
    rewrite nth_error_app2 by (rewrite rows_length, length_seq; fold channels; lia).
    rewrite rows_length, length_seq. fold channels.
    rewrite nth_error_repeat by lia. reflexivity.
  - unfold WavBlob.size. rewrite Hlen.
    destruct (wav_header_length buffer) as [Hh _]. fold blob in Hh.
    rewrite Hh. lia.
  - intro Hfits. rewrite Hlen.
    destruct (wav_header_length buffer) as [_ Hd]. fold blob in Hd.
    rewrite Hd. fold frames channels.
    unfold ToUint, Math_trunc.
    set (q := inject_Z (Z.of_nat frames) * inject_Z (Z.of_nat channels) * 2).
    assert (Hq : q == inject_Z (Z.of_nat (2 * frames * channels))).
    { subst q. rewrite <- !inject_Z_mult. change 2 with (inject_Z 2).
      rewrite <- inject_Z_mult. apply inject_Z_injective. lia. }
    destruct (Qlt_le_dec q 0) as [Hneg | _].
    + exfalso. rewrite Hq in Hneg. change 0 with (inject_Z 0) in Hneg.
      rewrite <- Zlt_Qlt in Hneg. lia.
    + rewrite (Qfloor_comp _ _ Hq), Qfloor_Z.
      rewrite Z.mod_small by lia. lia.
Qed.

(** Witness for X19: two channels of four frames. *)
Lemma wav_data_is_twice_the_declared_size_witness :
  Z.of_nat (2 * List.length (WavBlob.audioData (bufferToWav DemoWav.buffer)))
  = (2 * getUint32 40 (WavBlob.wavHeader (bufferToWav DemoWav.buffer)))%Z.
Proof.
  apply (proj2 (proj2 (proj2 (proj2
           (wav_data_is_twice_the_declared_size DemoWav.buffer))))).
  vm_compute. reflexivity.
Defined.

Lemma trunc_monotone (x y : Q) : x <= y -> (Math_trunc x <= Math_trunc y)%Z.
Proof.
  intro H. unfold Math_trunc.
  destruct (Qlt_le_dec x 0) as [Hx | Hx], (Qlt_le_dec y 0) as [Hy | Hy].
  - apply Qceiling_resp_le, H.
  - apply Z.le_trans with 0%Z.
    + change 0%Z with (Qceiling 0). apply Qceiling_resp_le. lra.
    + change 0%Z with (Qfloor 0). apply Qfloor_resp_le, Hy.
  - lra.
  - apply Qfloor_resp_le, H.
Qed.

Lemma trunc_Z (z : Z) : Math_trunc (inject_Z z) = z.
Proof.
  unfold Math_trunc. destruct (Qlt_le_dec (inject_Z z) 0);
    [apply Qceiling_Z | apply Qfloor_Z].
Qed.

Lemma ToInt16_in_range (x : Q) :
  (-32768 <= Math_trunc x <= 32767)%Z -> ToInt16 x = Math_trunc x.
Proof.
  intro H. unfold ToInt16, ToUint. change (2 ^ 16)%Z with 65536%Z.
  set (t := Math_trunc x) in *.
  destruct (Z_lt_le_dec t 0) as [Hneg | Hpos].
  - assert (E : (t mod 65536 = t + 65536)%Z).
    { symmetry. apply (Z.mod_unique _ _ (-1)); lia. }
    rewrite E. destruct (Z.leb_spec 32768 (t + 65536)); lia.
  - rewrite Z.mod_small by lia.
    destruct (Z.leb_spec 32768 t); lia.
Qed.

Lemma clamp_range (x : Q) :
  -1 <= Math_max (-1) (Math_min 1 x) <= 1.
Proof.
  unfold Math_max, Math_min. split.
  - apply Q.le_max_l.
  - apply Q.max_lub; [discriminate | apply Q.le_min_l].
Qed.

Lemma clamp_spec (x : Q) :
  let s := Math_max (-1) (Math_min 1 x) in
  (x <= -1 /\ s == -1) \/ (-1 <= x <= 1 /\ s == x) \/ (1 <= x /\ s == 1).
Proof.
  unfold Math_max, Math_min. cbv zeta.
  destruct (Q.min_spec 1 x) as [[H1 Hm] | [H1 Hm]];
    destruct (Q.max_spec (-1) (Qmin 1 x)) as [[H2 HM] | [H2 HM]];
    rewrite HM; rewrite Hm in *.
  - right. right. split; lra.
  - lra.
  - destruct (Qlt_le_dec x (-1)); [lra |]. right. left. split; lra.
  - left. split; lra.
Qed.

Lemma clamp_monotone (x y : Q) :
  x <= y ->
  Math_max (-1) (Math_min 1 x) <= Math_max (-1) (Math_min 1 y).
Proof.
  intro H. unfold Math_max, Math_min.
  apply Q.max_le_compat_l. apply Q.min_le_compat_l. exact H.
Qed.

Lemma sampleValue_range (x : Q) : -32768 <= sampleValue x <= 32767.
Proof.
  unfold sampleValue. pose proof (clamp_range x) as H.
  set (s := Math_max (-1) (Math_min 1 x)) in *.
  destruct (Qlt_le_dec s 0); lra.
Qed.

Lemma sampleValue_monotone (x y : Q) :
  x <= y -> sampleValue x <= sampleValue y.
Proof.
  intro H. unfold sampleValue. pose proof (clamp_monotone x y H) as Hm.
  set (s := Math_max (-1) (Math_min 1 x)) in *.
  set (t := Math_max (-1) (Math_min 1 y)) in *.
  destruct (Qlt_le_dec s 0), (Qlt_le_dec t 0); lra.
Qed.

Lemma stored_sample (x : Q) :
  ToInt16 (sampleValue x) = Math_trunc (sampleValue x) /\
  (-32768 <= Math_trunc (sampleValue x) <= 32767)%Z.
Proof.
  pose proof (sampleValue_range x) as [Hlo Hhi].
  assert (H : (-32768 <= Math_trunc (sampleValue x) <= 32767)%Z).
  { split.
    - rewrite <- (trunc_Z (-32768)). apply trunc_monotone. exact Hlo.
    - rewrite <- (trunc_Z 32767). apply trunc_monotone. exact Hhi. }
  split; [apply ToInt16_in_range; exact H | exact H].
Qed.

(** X20.  Storing a sample never wraps around.  Whatever the sample, the
    16-bit element stored for it is the scaled, clamped sample with its
    fraction dropped; it grows with the sample; samples of 1 and more are
    stored as 32767, samples of -1 and less as -32768, and 0 as 0. *)
Theorem wav_samples_never_wrap (x : Q) :
  let stored := ToInt16 (sampleValue x) in
  stored = Math_trunc (sampleValue x) /\
  (-32768 <= stored <= 32767)%Z /\
  (forall y, x <= y -> (stored <= ToInt16 (sampleValue y))%Z) /\
  (1 <= x -> stored = 32767%Z) /\
  (x <= -1 -> stored = (-32768)%Z) /\
  (x == 0 -> stored = 0%Z).
Proof.
  intro stored. subst stored.
  destruct (stored_sample x) as [E R]. rewrite E.
  split; [reflexivity |]. split; [exact R |]. split; [| split; [| split]].
  - intros y Hxy. destruct (stored_sample y) as [Ey _]. rewrite Ey.
    apply trunc_monotone, sampleValue_monotone, Hxy.
  - intro H1.
    assert (Hs : sampleValue x == 32767).
    { unfold sampleValue. destruct (clamp_spec x) as [[? Hc] | [[? Hc] | [? Hc]]];
        destruct (Qlt_le_dec (Math_max (-1) (Math_min 1 x)) 0); lra. }
    unfold Math_trunc.
    destruct (Qlt_le_dec (sampleValue x) 0) as [Hneg | _]; [lra |].
    rewrite (Qfloor_comp _ (inject_Z 32767) Hs). apply Qfloor_Z.
  - intro H1.
    assert (Hs : sampleValue x == -32768).
    { unfold sampleValue. destruct (clamp_spec x) as [[? Hc] | [[? Hc] | [? Hc]]];
        destruct (Qlt_le_dec (Math_max (-1) (Math_min 1 x)) 0); lra. }
    unfold Math_trunc.
    destruct (Qlt_le_dec (sampleValue x) 0) as [_ | Hge]; [| lra].
    rewrite (Qceiling_comp _ (inject_Z (-32768)) Hs). apply Qceiling_Z.
  - intro H0.
    assert (Hs : sampleValue x == 0).
    { unfold sampleValue. destruct (clamp_spec x) as [[? Hc] | [[? Hc] | [? Hc]]];
        destruct (Qlt_le_dec (Math_max (-1) (Math_min 1 x)) 0); lra. }
    unfold Math_trunc.
    destruct (Qlt_le_dec (sampleValue x) 0) as [Hlt | _]; [lra |].
    rewrite (Qfloor_comp _ (inject_Z 0) Hs). apply Qfloor_Z.
Qed.

(** Witness for X20: a sample of 3/2 is clipped to full scale. *)
Lemma wav_samples_never_wrap_witness :
  ToInt16 (sampleValue (3 # 2)) = 32767%Z.
Proof.
  apply (proj1 (proj2 (proj2 (proj2 (wav_samples_never_wrap (3 # 2)))))).
  discriminate.
Defined.

(* --------------------------------------------------------------------- *)
(** *** The page's generate handler *)
(* --------------------------------------------------------------------- *)

(** X21.  [handleGenerateImage] of the page.  With a prompt that is blank
    after trimming it sends nothing and only sets the error message.
    Otherwise its effects are exactly those of the one [generateLumaImage]
    call (the handler's own polling branch is never taken, because that
    call only returns finished jobs); when it is done [generating] is
    false, and either the job completed, the image is shown and there is no
    error, or the job failed, no image is shown and the error is the job's
    failure reason, or the default text when the job gives none. *)
Theorem page_shows_image_or_error
    (Number_toString : Q -> string)
    (import_meta_env : string -> option string)
    (String_trim : string -> string)
    (service laterService : Service.t) (prompt : string)
    (state : AppState.t) :
  let run :=
    handleGenerateImage Number_toString import_meta_env String_trim service
      laterService prompt state in
  let job :=
    generateLumaImage import_meta_env service (handlerOptions prompt) in
  (String_trim prompt = "" ->
   run = ([], AppState.mk (AppState.generating state)
                (Some (JStr promptRequired))
                (AppState.generatedImage state))) /\
  (String_trim prompt <> "" ->
   fst run = trace job /\
   AppState.generating (snd run) = false /\
   exists r,
     outcome job = Returned r /\
     ((LumaResponse.state r = completed /\
       AppState.generatedImage (snd run) = Some r /\
       AppState.error (snd run) = Some JNull) \/
      (LumaResponse.state r = failed /\
       AppState.generatedImage (snd run) = None /\
       AppState.error (snd run)
       = Some (JStr (Value_toString Number_toString
                       (or_else (LumaResponse.failure_reason r)
                          (Some (JStr imageFailedDefault)))))))).
Proof.
  intros run job. subst run job. unfold handleGenerateImage. split.
  - intro Hblank. rewrite Hblank. reflexivity.
  - intro Hprompt.
    destruct (String.eqb (String_trim prompt) "") eqn:E;
      [apply String.eqb_eq in E; contradiction |].
    cbv zeta. cbn [fst snd].
    destruct (image_never_throws import_meta_env service
                (handlerOptions prompt)) as (r & Hr).
    pose proof (image_job_terminal import_meta_env service
                  (handlerOptions prompt) r Hr) as Hterm.
    unfold handlerAttempt. rewrite trace_bind, outcome_bind.
    unfold outcome, trace. rewrite Hr.
    destruct Hterm as [Hs | Hs]; rewrite Hs; cbn [State_eqb orb].
    + cbn [ret throw fst snd]. rewrite app_nil_r.
      split; [reflexivity |]. split; [reflexivity |].
      exists r. split; [reflexivity |]. left.
      split; [exact Hs |]. split; reflexivity.
    + cbn [ret throw fst snd]. rewrite app_nil_r.
      split; [reflexivity |]. split; [reflexivity |].
      exists r. split; [reflexivity |]. right.
      split; [exact Hs |]. split; reflexivity.
Qed.

(** Witness for X21: the creation request is rejected with status 500 and
    no readable reason. *)
Lemma page_shows_image_or_error_witness :
  AppState.generating
    (snd (handleGenerateImage wholeNumberToString DemoService.env
            (fun s => s) DemoService.rejects500 DemoService.rejects500
            "a night train" (AppState.mk false (Some JNull) None)))
  = false.
Proof.
  refine (proj1 (proj2 (proj2 (page_shows_image_or_error wholeNumberToString
                   DemoService.env (fun s => s) DemoService.rejects500
                   DemoService.rejects500 "a night train"
                   (AppState.mk false (Some JNull) None)) _))).
  discriminate.
Defined.

(* --------------------------------------------------------------------- *)
(** *** The brace span of a response *)
(* --------------------------------------------------------------------- *)

Lemma string_app_assoc (a b c : string) :
  ((a ++ b) ++ c)%string = (a ++ b ++ c)%string.
Proof.
  induction a as [| d a IH]; [reflexivity |].
  cbn [String.append]. rewrite IH. reflexivity.
Qed.

Lemma occurs_app (c : ascii) (a b : string) :
  occurs c (a ++ b)%string = occurs c a || occurs c b.
Proof.
  induction a as [| d a IH]; [reflexivity |].
  cbn [String.append occurs]. rewrite IH, orb_assoc. reflexivity.
Qed.

Lemma afterFirstOpen_some (s rest : string) :
  afterFirstOpen s = Some rest ->
  exists pre, s = (pre ++ String "{" rest)%string /\ occurs "{" pre = false.
Proof.
  induction s as [| c s IH]; [discriminate |].
  cbn [afterFirstOpen]. destruct (Ascii.eqb c "{") eqn:E.
  - intro H. injection H as <-. apply Ascii.eqb_eq in E. subst c.
    exists EmptyString. split; reflexivity.
  - intro H. destruct (IH H) as (pre & -> & Hpre).
    exists (String c pre). split; [reflexivity |].
    cbn [occurs]. rewrite E, Hpre. reflexivity.
Qed.

Lemma afterFirstOpen_none (s : string) :
  afterFirstOpen s = None -> occurs "{" s = false.
Proof.
  induction s as [| c s IH]; [reflexivity |].
  cbn [afterFirstOpen occurs]. destruct (Ascii.eqb c "{"); [discriminate |].
  exact IH.
Qed.

Lemma uptoLastClose_none (s : string) :
  uptoLastClose s = None -> occurs "}" s = false.
Proof.
  induction s as [| c s IH]; [reflexivity |].
  cbn [uptoLastClose occurs]. destruct (uptoLastClose s); [discriminate |].
  destruct (Ascii.eqb c "}"); [discriminate |]. intros _. apply IH. reflexivity.
Qed.

Lemma uptoLastClose_some (s : string) :
  forall span,
    uptoLastClose s = Some span ->
    exists inner post,
      span = (inner ++ "}")%string /\ s = (span ++ post)%string /\
      occurs "}" post = false.
Proof.
  induction s as [| c s IH]; intros span; [discriminate |].
  cbn [uptoLastClose]. destruct (uptoLastClose s) as [sp |] eqn:Hs.
  - intro H. injection H as <-.
    destruct (IH sp eq_refl) as (inner & post & -> & -> & Hpost).
    exists (String c inner), post. repeat split. exact Hpost.
  - destruct (Ascii.eqb c "}") eqn:E; [| discriminate].
    intro H. injection H as <-. apply Ascii.eqb_eq in E. subst c.
    exists EmptyString, s. repeat split. apply uptoLastClose_none, Hs.
Qed.

(** What follows a later opening brace also follows the first one. *)
Lemma after_first_open (p0 : string) :
  forall pre rest x,
    (p0 ++ String "{" rest)%string = (pre ++ String "{" x)%string ->
    occurs "{" p0 = false ->
    exists q, rest = (q ++ x)%string.
Proof.
  induction p0 as [| d p0 IH]; intros pre rest x Heq Hp0.
  - destruct pre as [| c pre]; cbn [String.append] in Heq.
    + injection Heq as ->. exists EmptyString. reflexivity.
    + injection Heq as _ ->. exists (pre ++ "{")%string.
      rewrite string_app_assoc. reflexivity.
  - cbn [occurs] in Hp0. apply orb_false_elim in Hp0 as [Hd Hp0].
    destruct pre as [| c pre]; cbn [String.append] in Heq.
    + injection Heq as -> _. discriminate Hd.
    + injection Heq as _ Heq. apply (IH pre rest x Heq Hp0).
Qed.

(** X22.  The span cut out of a model response by
    [text.match(/\{[\s\S]*\}/)] is the longest one: it starts at the first
    opening brace of the text and ends at its last closing brace.  No span
    is found exactly when the text has no opening brace that is followed
    by a closing one. *)
Theorem brace_span_runs_from_first_to_last (text : string) :
  match matchBraces text with
  | Some span =>
      exists pre inner post,
        text = (pre ++ span ++ post)%string /\
        span = ("{" ++ inner ++ "}")%string /\
        occurs "{" pre = false /\ occurs "}" post = false
  | None =>
      forall pre inner post,
        text <> (pre ++ "{" ++ inner ++ "}" ++ post)%string
  end.
Proof.
  unfold matchBraces.
  destruct (afterFirstOpen text) as [rest |] eqn:Hopen.
  - destruct (afterFirstOpen_some text rest Hopen) as (p0 & Htext & Hp0).
    destruct (uptoLastClose rest) as [span |] eqn:Hclose.
    + destruct (uptoLastClose_some rest span Hclose)
        as (inner & post & -> & Hrest & Hpost).
      exists p0, inner, post. split; [| split; [reflexivity | split; assumption]].
      rewrite Htext, Hrest. reflexivity.
    + intros pre inner post Habs. rewrite Htext in Habs.
      destruct (after_first_open p0 pre rest (inner ++ "}" ++ post)%string
                  Habs Hp0) as (q & Hq).
      apply uptoLastClose_none in Hclose. rewrite Hq in Hclose.
      rewrite !occurs_app in Hclose. cbn [occurs Ascii.eqb] in Hclose.
      rewrite !orb_true_r in Hclose. discriminate Hclose.
  - intros pre inner post Habs. apply afterFirstOpen_none in Hopen.
    rewrite Habs, occurs_app in Hopen. cbn [String.append occurs] in Hopen.
    rewrite Ascii.eqb_refl, orb_true_r in Hopen. discriminate Hopen.
Qed.

(** Witness for X22: a well-formed answer wrapped in prose. *)
Lemma brace_span_runs_from_first_to_last_witness :
  exists pre inner post,
    Demo.analysisText = (pre ++ ("{" ++ inner ++ "}") ++ post)%string /\
    occurs "{" pre = false /\ occurs "}" post = false.
Proof.
  pose proof (brace_span_runs_from_first_to_last Demo.analysisText) as H.
  destruct (matchBraces Demo.analysisText) as [span |] eqn:E.
  - destruct H as (pre & inner & post & H1 & H2 & H3 & H4).
    exists pre, inner, post. rewrite <- H2.
    split; [exact H1 |]. split; [exact H3 | exact H4].
  - vm_compute in E. discriminate E.
Defined.


(* --------------------------------------------------------------------- *)
(** *** The two analyzers *)
(* --------------------------------------------------------------------- *)

(** X23.  [analyzeWithGemini] and [analyzeAudioSegment] treat the model's
    answers alike.  Given the same two answers, either both throw, and then
    the same error, or both return; then [story], [visual] and [emotion]
    agree, and the segment analysis has as [imagePrompt] that of the file
    analysis, with the empty string in place of a missing or falsy one. *)
Theorem analyzers_agree
    (JSON_parse : string -> Result Json) (reply1 reply2 : Result string)
    (segment : AudioSegment.t) :
  match outcome (analyzeAudioSegment JSON_parse reply1 reply2 segment),
        outcome (analyzeWithGemini JSON_parse reply1 reply2) with
  | Returned a, Returned g =>
      SegmentAnalysis.story a = GeminiAnalysis.get g "story" /\
      SegmentAnalysis.visual a = GeminiAnalysis.get g "visual" /\
      SegmentAnalysis.emotion a = GeminiAnalysis.get g "emotion" /\
      SegmentAnalysis.imagePrompt a
      = or_else (GeminiAnalysis.get g "imagePrompt") (Some (JStr ""))
  | Threw e, Threw e' => e = e'
  | _, _ => False
  end.
Proof.
  unfold outcome, analyzeAudioSegment, analyzeWithGemini.
  destruct reply1 as [text | e]; [| reflexivity].
  run_eff.
  destruct (matchBraces text) as [span |]; [| reflexivity].
  run_eff.
  destruct (JSON_parse span) as [analysis | e]; [| reflexivity].
  run_eff.
  destruct analysis as [| b | q | s | items | ms];
    cbn [prop truthy]; run_eff; try reflexivity.
  destruct (truthy (lookup_last "story" ms)); [| reflexivity].
  run_eff.
  destruct (truthy (lookup_last "visual" ms)); [| reflexivity].
  run_eff.
  destruct (truthy (lookup_last "emotion" ms)); [| reflexivity].
  run_eff.
  destruct reply2 as [promptText | e]; [| reflexivity].
  run_eff.
  destruct (JSON_parse (promptSource promptText)) as [promptJson | e];
    [| reflexivity].
  run_eff.
  destruct promptJson; cbn [prop]; run_eff; try reflexivity;
    repeat split; reflexivity.
Qed.

(* --------------------------------------------------------------------- *)
(** *** Image jobs: the progress reports *)
(* --------------------------------------------------------------------- *)

Lemma groupsOf_cons (r : nat) :
  (0 < r)%nat ->
  groupsOf r = Nat.min batchSize r :: groupsOf (r - batchSize).
Proof.
  intro Hr. destruct (le_lt_dec batchSize r) as [Hfull | Hshort].
  - rewrite Nat.min_l by lia. apply groupsOf_step. exact Hfull.
  - rewrite Nat.min_r by lia. rewrite (groupsOf_small r) by lia.
    replace (r - batchSize)%nat with 0%nat by lia. reflexivity.
Qed.

Lemma groupsOf_reach (r : nat) :
  (r <= batchSize * List.length (groupsOf r))%nat.
Proof.
  unfold groupsOf, batchSize. rewrite length_app, repeat_length.
  pose proof (Nat.div_mod_eq r 3) as Hdm.
  pose proof (Nat.mod_upper_bound r 3 ltac:(lia)) as Hm.
  destruct (Nat.eqb_spec (r mod 3) 0); cbn [List.length]; lia.
Qed.

Section BatchProgress.

Variable import_meta_env : string -> option string.
Variable services : nat -> Service.t.
Variable analyses : list SegmentAnalysis.t.

Local Abbreviation total := (List.length analyses).

(** With a progress callback, the loop from [i] on reports once per group
    it runs: after the [k]-th of them, [batchSize * (k + 1)] further
    analyses, capped at the total.  Without one it reports nothing. *)
Lemma batchLoop_progress (m : nat) :
  forall (onProgress : bool) (i : nat) (results : list GeneratedMedia.t)
         (errors : list (nat * Thrown)),
    (total - i <= m)%nat ->
    progressReports
      (fst (batchLoop import_meta_env services analyses onProgress i results
              errors))
    = if onProgress
      then map (fun k => (Nat.min (i + batchSize * S k) total, total))
             (seq 0 (List.length (groupsOf (total - i))))
      else [].
Proof.
  induction m as [| m IH]; intros onProgress i results errors Hm;
    rewrite batchLoop_step.
  - destruct (lt_dec i total) as [Hlt | Hge]; [lia |].
    replace (total - i)%nat with 0%nat by lia.
    destruct onProgress; reflexivity.
  - destruct (lt_dec i total) as [Hlt | Hge].
    + cbv zeta. rewrite (groupsOf_cons (total - i)) by lia.
      replace (total - i - batchSize)%nat with (total - (i + batchSize))%nat
        by lia.
      destruct onProgress; rewrite !trace_bind; cbn [emit ret snd fst];
        rewrite !progressReports_app;
        [rewrite (IH true (i + batchSize)%nat) by (unfold batchSize; lia)
        | rewrite (IH false (i + batchSize)%nat) by (unfold batchSize; lia)];
        cbn [progressReports app]; [| reflexivity].
      cbn [List.length seq map]. f_equal.
      rewrite <- seq_shift, map_map. apply map_ext. intro k.
      f_equal. f_equal. unfold batchSize. lia.
    + replace (total - i)%nat with 0%nat by lia.
      destruct onProgress; reflexivity.
Qed.

End BatchProgress.

(** X24.  With a progress callback, [generateImagesInParallel] reports
    once after every group of jobs: after the [k]-th group (counting from
    0) it reports [min(3 * (k + 1), n)] of [n].  So the reports grow with
    every group and, unless there is no analysis at all, the last one is
    [(n, n)].  Without a callback nothing is reported. *)
Theorem image_progress_counts_finished_groups
    (import_meta_env : string -> option string) (services : nat -> Service.t)
    (analyses : list SegmentAnalysis.t) :
  let run :=
    generateImagesInParallel import_meta_env services analyses true in
  let n := List.length analyses in
  let groups := List.length (groupSizes (trace run)) in
  progressReports (trace run)
  = map (fun k => (Nat.min (3 * S k) n, n)) (seq 0 groups) /\
  ((1 <= n)%nat -> last (progressReports (trace run)) (0, 0)%nat = (n, n)) /\
  progressReports
    (trace (generateImagesInParallel import_meta_env services analyses false))
  = [].
Proof.
  intros run n groups.
  assert (Hrun : forall onProgress,
             progressReports
               (fst (generateImagesInParallel import_meta_env services
                       analyses onProgress))
             = if onProgress
               then map (fun k => (Nat.min (3 * S k) n, n))
                      (seq 0 (List.length (groupsOf n)))
               else []).
  { intro onProgress. unfold generateImagesInParallel.
    destruct (batchLoop_spec import_meta_env services analyses onProgress
                n 0 [] []) as (Ho & _); [lia |].
    rewrite trace_bind, Ho, progressReports_app.
    rewrite (batchLoop_progress import_meta_env services analyses n) by lia.
    rewrite Nat.sub_0_r. fold n.
    cbn [List.length Nat.ltb Nat.leb ret fst snd bind app progressReports].
    rewrite app_nil_r. destruct onProgress; [| reflexivity].
    apply map_ext. intro k. reflexivity. }
  assert (Hgroups : groups = List.length (groupsOf n)).
  { subst groups run. unfold trace.
    destruct (any_batch_run import_meta_env services analyses true)
      as (_ & Hg & _). rewrite Hg. reflexivity. }
  unfold trace in *. split; [| split].
  - subst run. rewrite (Hrun true), Hgroups. reflexivity.
  - intro Hn. subst run. rewrite (Hrun true).
    pose proof (groupsOf_reach n) as Hreach.
    destruct (List.length (groupsOf n)) as [| g] eqn:Hg;
      [unfold batchSize in Hreach; lia |].
    rewrite seq_S, map_app. cbn [map Nat.add]. rewrite last_last.
    f_equal. unfold batchSize in Hreach. lia.
  - exact (Hrun false).
Qed.

(** Witness for X24: seven analyses are reported as 3, 6 and 7 of 7. *)
Lemma image_progress_counts_finished_groups_witness :
  last (progressReports
          (trace (generateImagesInParallel DemoService.env DemoBatch.services
                    (map DemoBatch.analysis (seq 0 7)) true)))
    (0, 0)%nat
  = (7, 7)%nat.
Proof.
  apply (proj1 (proj2 (image_progress_counts_finished_groups DemoService.env
                         DemoBatch.services
                         (map DemoBatch.analysis (seq 0 7))))).
  cbn [List.length map seq]. lia.
Defined.

(* --------------------------------------------------------------------- *)
(** *** Image jobs: the requests *)
(* --------------------------------------------------------------------- *)

Lemma requests_app (a b : list Event) :
  requests (a ++ b) = requests a ++ requests b.
Proof.
  induction a as [| ev a IH]; [reflexivity |].
  destruct ev; cbn [requests app]; rewrite ?IH; reflexivity.
Qed.

Lemma requests_queries (t : list Event) :
  List.length (requests t) = List.length (filter isQuery (timeline t)).
Proof.
  induction t as [| ev t IH]; [reflexivity |].
  destruct ev; cbn [requests timeline filter isQuery List.length];
    rewrite ?IH; reflexivity.
Qed.

Lemma rounds_queries (k : nat) :
  List.length (filter isQuery (rounds k)) = k.
Proof.
  induction k as [| k IH]; [reflexivity |].
  cbn [rounds filter isQuery List.length]. rewrite IH. reflexivity.
Qed.

Lemma requests_pollEvents (auth : string) (id : Value) (t : list Event) :
  Forall (pollEvent auth id) t ->
  Forall (eq (mkRequest GET (UrlStatus id) auth None)) (requests t).
Proof.
  induction 1 as [| ev t Hev _ IH]; [constructor |].
  destruct ev as [r | | lvl ? ? | | |]; cbn [requests]; try exact IH.
  constructor; [symmetry; exact Hev | exact IH].
Qed.

Lemma poll_requests (import_meta_env : string -> option string)
    (service : Service.t) (id : Value) :
  let sent :=
    requests (fst (pollGenerationStatus import_meta_env service id)) in
  (List.length sent <= maxAttempts)%nat /\
  Forall (eq (mkRequest GET (UrlStatus id) (authorization import_meta_env)
                None)) sent.
Proof.
  intro sent. subst sent. unfold pollGenerationStatus. split.
  - rewrite requests_queries.
    destruct (pollLoop_shape import_meta_env service id maxAttempts 0 eq_refl)
      as (k & [(Hk & Ht) | (Hk & Ht & _)]); rewrite Ht.
    + rewrite filter_app, length_app, rounds_queries. cbn [filter isQuery List.length]. lia.
    + rewrite rounds_queries. lia.
  - apply requests_pollEvents.
    apply (pollLoop_pollEvents import_meta_env service id maxAttempts 0 eq_refl).
Qed.

Lemma errorMessageOf_requests (m : string) (response : Response.t) :
  requests (fst (errorMessageOf m response)) = [].
Proof.
  apply length_zero_iff_nil.
  rewrite requests_queries, errorMessageOf_timeline. reflexivity.
Qed.

(** X25.  The requests of an image job.  [generateLumaImage] always sends
    the creation request first, and exactly one.  Status queries follow
    only when the creation was accepted and its response could be read;
    there are at most 30 of them, and each asks, with the same
    authorization header and no body, for the job whose id the creation
    response gave. *)
Theorem image_job_requests
    (import_meta_env : string -> option string) (service : Service.t)
    (options : ImageGenerationOptions.t) :
  let run := generateLumaImage import_meta_env service options in
  exists statusQueries,
    requests (trace run)
    = imageRequest import_meta_env options :: statusQueries /\
    (List.length statusQueries <= maxAttempts)%nat /\
    (statusQueries <> [] ->
     exists response generation gid,
       Service.create service = Returned response /\
       Response.ok response = true /\
       Response.json response = Returned generation /\
       prop (Some generation) "id" = Returned gid /\
       Forall (eq (mkRequest GET (UrlStatus gid)
                     (authorization import_meta_env) None)) statusQueries).
Proof.
  intro run. subst run. unfold trace, generateLumaImage, imageRequest.
  rewrite trace_try_catch, trace_bind, outcome_bind. cbn [emit fst snd].
  rewrite trace_bind, outcome_bind. cbn [lift fst snd app].
  destruct (Service.create service) as [response | e] eqn:Hcreate.
  2:{ exists []. cbn [requests app]. split; [reflexivity |].
      split; [cbn; lia | intro H; contradiction]. }
  destruct (Response.ok response) eqn:Hok; cbn [negb].
  2:{ exists []. rewrite trace_bind, outcome_bind.
      destruct (errorMessageOf_returns imageRequestFailed response)
        as (v & Hv & _).
      rewrite Hv. cbn [ret fst snd app requests].
      rewrite !app_nil_r, errorMessageOf_requests.
      split; [reflexivity |]. split; [cbn; lia | intro H; contradiction]. }
  rewrite trace_bind, outcome_bind. cbn [lift fst snd app].
  destruct (Response.json response) as [generation | e] eqn:Hjson.
  2:{ exists []. cbn [requests app]. split; [reflexivity |].
      split; [cbn; lia | intro H; contradiction]. }
  rewrite trace_bind, outcome_bind. cbn [emit fst snd app].
  rewrite trace_bind, outcome_bind. cbn [lift fst snd app].
  destruct (prop (Some generation) "id") as [gid | e] eqn:Hid.
  2:{ exists []. cbn [requests app]. split; [reflexivity |].
      split; [cbn; lia | intro H; contradiction]. }
  destruct (poll_requests import_meta_env service gid) as (Hlen & Hall).
  exists (requests (fst (pollGenerationStatus import_meta_env service gid))).
  split; [| split; [exact Hlen |]].
  - cbn [requests app]. f_equal. rewrite requests_app.
    destruct (snd (pollGenerationStatus import_meta_env service gid));
      cbn [requests emit ret bind fst snd app]; rewrite ?app_nil_r; reflexivity.
  - intros _. exists response, generation, gid. repeat split; assumption.
Qed.

(** Witness for X25: a job that completes at its third status query. *)
Lemma image_job_requests_witness :
  exists statusQueries,
    requests (trace (generateLumaImage DemoService.env
                       (DemoService.completesAfter 2) DemoService.options))
    = imageRequest DemoService.env DemoService.options :: statusQueries /\
    (List.length statusQueries <= 30)%nat.
Proof.
  destruct (image_job_requests DemoService.env (DemoService.completesAfter 2)
              DemoService.options) as (statusQueries & Hsent & Hlen & _).
  exists statusQueries. split; [exact Hsent | exact Hlen].
Defined.

(* --------------------------------------------------------------------- *)
(** *** The audio page *)
(* --------------------------------------------------------------------- *)

Lemma after_app (us vs : list Update) (s : Page.t) :
  after (us ++ vs) s = after vs (after us s).
Proof. unfold after. apply fold_left_app. Qed.

Lemma update_holds (u : Update) (s : Page.t) :
  storesNothingUnfinished u -> holdsNothingUnfinished s ->
  holdsNothingUnfinished (update u s).
Proof.
  unfold holdsNothingUnfinished.
  destruct u as [| | | | | | | | | | [r |] | | |]; cbn; intros Hu [Hi Hv];
    (split; [first [exact Hi | exact Hu] | first [exact Hv | exact Hu | exact I]]).
Qed.

Lemma after_holds (us : list Update) :
  forall s,
    Forall storesNothingUnfinished us -> holdsNothingUnfinished s ->
    holdsNothingUnfinished (after us s).
Proof.
  induction us as [| u us IH]; intros s Hus Hs; [exact Hs |].
  inversion Hus as [| ? ? Hu Hrest]; subst.
  apply (IH (update u s) Hrest). apply update_holds; assumption.
Qed.

Lemma firstn_all_hold {A : Type} (P : A -> Prop) (l : list A) :
  forall n, Forall P l -> Forall P (firstn n l).
Proof.
  induction l as [| x l IH]; intros n H.
  - rewrite firstn_nil. constructor.
  - destruct n as [| n]; [constructor |].
    inversion H as [| ? ? Hx Hl]; subst.
    cbn [firstn]. constructor; [exact Hx | apply IH; exact Hl].
Qed.

Lemma analysisCallbacks_hold (t : list Event) :
  Forall storesNothingUnfinished (analysisCallbacks t).
Proof.
  induction t as [| ev t IH]; [constructor |].
  destruct ev; cbn [analysisCallbacks]; try exact IH.
  constructor; [exact I | exact IH].
Qed.

Lemma mediaCallbacks_hold (t : list FlowEvent) :
  Forall storesNothingUnfinished (mediaCallbacks t).
Proof.
  induction t as [| ev t IH]; [constructor |].
  destruct ev as [[] |]; cbn [mediaCallbacks]; try exact IH.
  - constructor; [exact I |]. apply Forall_app. split; [| exact IH].
    destruct (Nat.eqb done total); repeat constructor.
  - constructor; [exact I | exact IH].
Qed.

(** A video the flow returns is completed. *)
Lemma flow_result_completed (Number_toString : Q -> string)
    (import_meta_env : string -> option string)
    (services : nat -> Service.t) (videoService : Service.t)
    (audioUrl : string) (analyses : list SegmentAnalysis.t)
    (onImageProgress onVideoProgress : bool) (r : LumaResponse.t) :
  snd (executeFullGenerationFlow Number_toString import_meta_env services
         videoService audioUrl analyses onImageProgress onVideoProgress)
  = Returned r ->
  LumaResponse.state r = completed.
Proof.
  intro Hr.
  destruct (any_batch_run import_meta_env services analyses onImageProgress)
    as (Himages & _).
  destruct (flow_after_images Number_toString import_meta_env services
              videoService audioUrl analyses onImageProgress onVideoProgress
              _ Himages) as (Ho & _).
  rewrite Hr in Ho.
  match type of Ho with
  | _ = match snd ?m with _ => _ end => destruct (snd m) as [v | e] eqn:Hv
  end; [| discriminate Ho].
  destruct (State_eqb (LumaResponse.state v) failed) eqn:Hs; [discriminate Ho |].
  injection Ho as ->.
  destruct (assembly_terminal _ _ _ _ _ _ Hv) as [Hc | Hf]; [exact Hc |].
  rewrite Hf in Hs. discriminate Hs.
Qed.

Section PageFacts.

Variable Number_toString : Q -> string.
Variable import_meta_env : string -> option string.
Variable JSON_parse : string -> Result Json.

Local Abbreviation updatesOf' :=
  (updatesOf Number_toString import_meta_env JSON_parse).
Local Abbreviation settled' :=
  (settled Number_toString import_meta_env JSON_parse).

Lemma updatesOf_hold (a : Action) (s : Page.t) :
  Forall storesNothingUnfinished (updatesOf' a s).
Proof.
  destruct a as [[f |] objectUrl | split replies | services videoService url
                 | value | tab]; cbn [updatesOf handleFileUpload].
  - repeat constructor.
  - constructor.
  - unfold handleAnalyzeAudio. destruct (Page.file s); [| constructor].
    cbv zeta. repeat (apply Forall_app; split); try (repeat constructor).
    + apply analysisCallbacks_hold.
    + destruct (snd (analyzeAudioFile _ _ _ _)); repeat constructor.
  - unfold handleGenerateMedia.
    destruct (Page.file s); [| constructor].
    destruct (Page.analyses s) as [| a0 rest]; [constructor |].
    cbv zeta. repeat (apply Forall_app; split); try (repeat constructor).
    + apply mediaCallbacks_hold.
    + destruct (snd (executeFullGenerationFlow _ _ _ _ _ _ _ _))
        as [videoResponse |] eqn:Hrun; repeat constructor.
      cbn [storesNothingUnfinished].
      exact (flow_result_completed _ _ _ _ _ _ _ _ _ Hrun).
  - repeat constructor.
  - repeat constructor.
Qed.

Lemma settled_holds (s : Page.t) :
  settled' s -> holdsNothingUnfinished s.
Proof.
  induction 1 as [| s a _ IH]; [split; [reflexivity | exact I] |].
  apply after_holds; [apply updatesOf_hold | exact IH].
Qed.

(** What a run of setter calls leaves alone. *)
Lemma after_keeps_analysis (us : list Update) :
  forall s,
    Forall keepsAnalysisFlags us ->
    Page.analyzing (after us s) = Page.analyzing s /\
    Page.analysisProgress (after us s) = Page.analysisProgress s.
Proof.
  induction us as [| u us IH]; intros s Hus; [split; reflexivity |].
  inversion Hus as [| ? ? Hu Hrest]; subst.
  destruct (IH (update u s) Hrest) as [H1 H2].
  change (after (u :: us) s) with (after us (update u s)).
  rewrite H1, H2. destruct u; cbn in Hu |- *; try contradiction;
    split; reflexivity.
Qed.

Lemma after_keeps_generation (us : list Update) :
  forall s,
    Forall keepsGenerationFlags us ->
    Page.generatingImages (after us s) = Page.generatingImages s /\
    Page.generatingVideo (after us s) = Page.generatingVideo s /\
    Page.imageProgress (after us s) = Page.imageProgress s /\
    Page.videoStatus (after us s) = Page.videoStatus s.
Proof.
  induction us as [| u us IH]; intros s Hus; [repeat split; reflexivity |].
  inversion Hus as [| ? ? Hu Hrest]; subst.
  destruct (IH (update u s) Hrest) as (H1 & H2 & H3 & H4).
  change (after (u :: us) s) with (after us (update u s)).
  rewrite H1, H2, H3, H4. destruct u; cbn in Hu |- *; try contradiction;
    repeat split; reflexivity.
Qed.

Lemma analysisCallbacks_keep (t : list Event) :
  Forall keepsGenerationFlags (analysisCallbacks t).
Proof.
  induction t as [| ev t IH]; [constructor |].
  destruct ev; cbn [analysisCallbacks]; try exact IH.
  constructor; [exact I | exact IH].
Qed.

Lemma mediaCallbacks_keep (t : list FlowEvent) :
  Forall keepsAnalysisFlags (mediaCallbacks t).
Proof.
  induction t as [| ev t IH]; [constructor |].
  destruct ev as [[] |]; cbn [mediaCallbacks]; try exact IH.
  - constructor; [exact I |]. apply Forall_app. split; [| exact IH].
    destruct (Nat.eqb done total); repeat constructor.
  - constructor; [exact I | exact IH].
Qed.

Lemma action_leaves_idle (a : Action) (s : Page.t) :
  idle s -> idle (after (updatesOf' a s) s).
Proof.
  intros (Ha & Hp & Hgi & Hgv & Hip & Hvs). unfold idle.
  destruct a as [[f |] objectUrl | split replies | services videoService url
                 | value | tab]; cbn [updatesOf handleFileUpload].
  - cbn. repeat split; assumption.
  - cbn. repeat split; assumption.
  - unfold handleAnalyzeAudio. destruct (Page.file s);
      [| cbn; repeat split; assumption].
    cbv zeta. rewrite !app_assoc. rewrite after_app.
    match goal with
    | |- context [after [SetAnalyzing false; SetAnalysisProgress None] ?m] =>
        set (mid := m)
    end.
    assert (Hkeep : Page.generatingImages mid = Page.generatingImages s /\
                    Page.generatingVideo mid = Page.generatingVideo s /\
                    Page.imageProgress mid = Page.imageProgress s /\
                    Page.videoStatus mid = Page.videoStatus s).
    { subst mid. apply after_keeps_generation.
      repeat (apply Forall_app; split); try (repeat constructor).
      - apply analysisCallbacks_keep.
      - destruct (snd (analyzeAudioFile _ _ _ _)); repeat constructor. }
    destruct Hkeep as (K1 & K2 & K3 & K4). clearbody mid. cbn.
    rewrite K1, K2, K3, K4. repeat split; assumption.
  - unfold handleGenerateMedia.
    destruct (Page.file s); [| cbn; repeat split; assumption].
    destruct (Page.analyses s) as [| a0 rest];
      [cbn; repeat split; assumption |].
    cbv zeta. rewrite !app_assoc. rewrite after_app.
    match goal with
    | |- context [after [SetGeneratingImages false; _; _; _] ?m] =>
        set (mid := m)
    end.
    assert (Hkeep : Page.analyzing mid = Page.analyzing s /\
                    Page.analysisProgress mid = Page.analysisProgress s).
    { subst mid. apply after_keeps_analysis.
      repeat (apply Forall_app; split); try (repeat constructor).
      - apply mediaCallbacks_keep.
      - destruct (snd (executeFullGenerationFlow _ _ _ _ _ _ _ _));
          repeat constructor. }
    destruct Hkeep as (K1 & K2). clearbody mid. cbn.
    rewrite K1, K2. repeat split; assumption.
  - cbn. repeat split; assumption.
  - cbn. repeat split; assumption.
Qed.

End PageFacts.

(** X26.  Whatever the user does on the audio page and whatever the
    services answer, at no moment, between two actions or in the middle
    of one, does the page hold a generated image, and the video it holds,
    if any, is a completed one: [generatedImages] is only ever set to the
    empty list, and [generatedVideo] only to [null] or to the completed
    video the generation flow returned. *)
Theorem page_holds_no_image_and_only_completed_videos
    (Number_toString : Q -> string)
    (import_meta_env : string -> option string)
    (JSON_parse : string -> Result Json) (s : Page.t) :
  visible Number_toString import_meta_env JSON_parse s ->
  Page.generatedImages s = [] /\
  forall r, Page.generatedVideo s = Some r -> LumaResponse.state r = completed.
Proof.
  intros (s0 & a & n & Hsettled & ->).
  assert (H : holdsNothingUnfinished
                (after (firstn n (updatesOf Number_toString import_meta_env
                                    JSON_parse a s0)) s0)).
  { apply after_holds.
    - apply firstn_all_hold. apply updatesOf_hold.
    - apply (settled_holds _ _ _ _ Hsettled). }
  destruct H as [Hi Hv]. split; [exact Hi |].
  intros r Hr. rewrite Hr in Hv. exact Hv.
Qed.

(** Witness for X26: a file is chosen and analysed, the media are
    generated: no image is held, the video is there. *)
Lemma page_holds_no_image_and_only_completed_videos_witness :
  Page.generatedImages DemoPage.generated = [] /\
  forall r,
    Page.generatedVideo DemoPage.generated = Some r ->
    LumaResponse.state r = completed.
Proof.
  apply (page_holds_no_image_and_only_completed_videos wholeNumberToString
           DemoService.env MiniJson.parse).
  exists DemoPage.analysed,
    (GenerateMedia DemoFlow.allComplete (DemoService.completesAfter 0)
       "blob:audio"), 100%nat.
  split.
  - apply (settled_after _ _ _ DemoPage.chosen
             (AnalyzeAudio (Returned DemoFile.segments) DemoFile.allGood)).
    apply (settled_after _ _ _ Page.initial
             (FileUpload (Some "song.mp3") "blob:audio")).
    apply settled_initial.
  - vm_compute. reflexivity.
Defined.

(** X27.  Between two actions no busy indicator is left on: once a handler
    of the audio page has run to its end, whether it succeeded, failed or
    returned at its guard, [analyzing], [generatingImages] and
    [generatingVideo] are false, both progress values are [null] and the
    video status is empty. *)
Theorem page_is_idle_between_actions
    (Number_toString : Q -> string)
    (import_meta_env : string -> option string)
    (JSON_parse : string -> Result Json) (s : Page.t) :
  settled Number_toString import_meta_env JSON_parse s -> idle s.
Proof.
  induction 1 as [| s a _ IH].
  - repeat split.
  - apply action_leaves_idle. exact IH.
Qed.

(** Witness for X27: after an analysis that fails at its second segment. *)
Lemma page_is_idle_between_actions_witness :
  idle (after (handleAnalyzeAudio MiniJson.parse (Returned DemoFile.segments)
                 DemoFile.secondBad DemoPage.chosen) DemoPage.chosen).
Proof.
  apply (page_is_idle_between_actions wholeNumberToString DemoService.env
           MiniJson.parse).
  apply (settled_after _ _ _ DemoPage.chosen
           (AnalyzeAudio (Returned DemoFile.segments) DemoFile.secondBad)).
  apply (settled_after _ _ _ Page.initial
           (FileUpload (Some "song.mp3") "blob:audio")).
  apply settled_initial.
Defined.

(* --------------------------------------------------------------------- *)
(** *** The relays: upstream paths *)
(* --------------------------------------------------------------------- *)

Lemma split_nonempty (sep : ascii) (s : string) : String_split sep s <> [].
Proof.
  destruct s as [| c s]; cbn [String_split]; [discriminate |].
  destruct (Ascii.eqb c sep); [discriminate |].
  destruct (String_split sep s); discriminate.
Qed.

Lemma split_without_separator (sep : ascii) (s : string) :
  occurs sep s = false -> String_split sep s = [s].
Proof.
  induction s as [| c s IH]; [reflexivity |].
  cbn [occurs String_split]. intro H. apply orb_false_elim in H as [Hc Hs].
  rewrite Hc, (IH Hs). reflexivity.
Qed.

Lemma last_cons_nonempty {A : Type} (x d : A) (l : list A) :
  l <> [] -> last (x :: l) d = last l d.
Proof. destruct l; [contradiction | reflexivity]. Qed.

Lemma last_segment (pre id : string) :
  occurs "/" id = false ->
  last (String_split "/" (pre ++ String "/" id)) EmptyString = id.
Proof.
  intro Hid. induction pre as [| c pre IH].
  - cbn [String.append String_split]. rewrite Ascii.eqb_refl.
    rewrite last_cons_nonempty by apply split_nonempty.
    rewrite (split_without_separator _ _ Hid). reflexivity.
  - cbn [String.append String_split].
    destruct (Ascii.eqb c "/").
    + rewrite last_cons_nonempty by apply split_nonempty. exact IH.
    + destruct (String_split "/" (pre ++ String "/" id)) as [| h t] eqn:E;
        [exfalso; exact (split_nonempty _ _ E) |].
      destruct t as [| h' t'].
      * exfalso. cbn [last] in IH. subst h.
        assert (Hocc : occurs "/" (pre ++ String "/" id) = true).
        { rewrite occurs_app. cbn [occurs]. rewrite Ascii.eqb_refl.
          apply orb_true_r. }
        pose proof (split_without_separator "/" id Hid) as Hone.
        assert (Hlen : forall s, occurs "/" s = true ->
                         (2 <= List.length (String_split "/" s))%nat).
        { clear. induction s as [| d s IHs]; [discriminate |].
          cbn [occurs String_split]. destruct (Ascii.eqb d "/"); cbn [orb].
          - intros _. pose proof (split_nonempty "/" s).
            destruct (String_split "/" s); [contradiction | cbn; lia].
          - intro H. specialize (IHs H).
            destruct (String_split "/" s); cbn in IHs |- *; lia. }
        specialize (Hlen _ Hocc). rewrite E in Hlen. cbn in Hlen. lia.
      * change (last (String c h :: h' :: t') EmptyString)
          with (last (h' :: t') EmptyString).
        change (last (h :: h' :: t') EmptyString)
          with (last (h' :: t') EmptyString) in IH.
        exact IH.
Qed.

(** X28.  The two relays forward the same browser request to different
    upstream paths.  The development proxy of vite.config.ts turns
    [/api/luma<tail>] into [/v1/images/generations<tail>]; the relays of
    server/api.ts turn it into [/dream-machine/v1/generations<tail>], the
    one for status queries taking as id the last segment of the path.  So
    no path rewritten by the development proxy is ever equal to one
    rewritten by the status relay of the server. *)
Theorem relays_rewrite_to_different_upstream_paths :
  (forall tail,
     viteRewrite ("/api/luma" ++ tail)
     = ("/v1/images/generations" ++ tail)%string) /\
  (forall tail,
     pathRewriteTable ("/api/luma" ++ tail)
     = ("/dream-machine/v1/generations" ++ tail)%string) /\
  (forall pre id,
     occurs "/" id = false ->
     pathRewrite (pre ++ "/" ++ id)
     = ("/dream-machine/v1/generations/" ++ id)%string) /\
  (forall p q, viteRewrite p <> pathRewrite q) /\
  (forall p tail, viteRewrite p <> pathRewriteTable ("/api/luma" ++ tail)).
Proof.
  split; [| split; [| split; [| split]]].
  - intro tail. destruct tail; reflexivity.
  - intro tail. destruct tail; reflexivity.
  - intros pre id Hid. unfold pathRewrite. cbv zeta.
    change (pre ++ "/" ++ id)%string with (pre ++ String "/" id)%string.
    rewrite (last_segment pre id Hid). reflexivity.
  - intros p q H. unfold viteRewrite, pathRewrite in H. cbv zeta in H.
    cbn [String.append] in H. discriminate H.
  - intros p tail H. unfold viteRewrite in H. cbv zeta in H.
    destruct tail; cbn in H; discriminate H.
Qed.

(** Witness for X28: the status query for job [abc123]. *)
Lemma relays_rewrite_to_different_upstream_paths_witness :
  pathRewrite "/api/luma/abc123" = "/dream-machine/v1/generations/abc123".
Proof.
  apply (proj1 (proj2 (proj2 relays_rewrite_to_different_upstream_paths))
           "/api/luma" "abc123").
  reflexivity.
Defined.
